(** * SmallBizInventory: product records, CSV codec and inventory store

    A shallow embedding of the C++ sources (Product.cpp,
    PhysicalProduct.cpp, DigitalProduct.cpp, Inventory.cpp) together with
    the properties stated about them.

    - [double] is IEEE binary64, taken from the Standard Library's
      executable specification of floating point ([SpecFloat]).
    - [int] values are integers ([Z]).
    - [std::string] is [string]; [std::map<std::string, Product*>] is a
      [gmap string Ptr]; [std::vector<Product*>] is a [list Ptr].
    - Products live on a heap and the inventory holds pointers to them, as
      in the source: the sequence and the index alias the same objects. *)

From Stdlib Require Import ZArith Bool List Ascii String Lia.
From Stdlib Require Import Floats.SpecFloat.
From Stdlib Require OrderedTypeEx.
From stdpp Require Import base option list gmap strings sorting.

Local Open Scope string_scope.
Local Open Scope Z_scope.

(** ** IEEE binary64 *)

Module Double.

Definition prec : Z := 53.
Definition emax : Z := 1024.

Definition double : Type := spec_float.

Definition add : double -> double -> double := SFadd prec emax.
Definition sub : double -> double -> double := SFsub prec emax.
Definition mul : double -> double -> double := SFmul prec emax.
Definition div : double -> double -> double := SFdiv prec emax.

(** [a < b] and [a <= b]; [a > b] is [ltb b a] and [a >= b] is [leb b a]. *)
Definition ltb : double -> double -> bool := SFltb.
Definition leb : double -> double -> bool := SFleb.

(** Conversion of an [int] (and of an integer literal) to [double]. *)
Definition of_int (z : Z) : double := binary_normalize prec emax z 0 false.

Definition is_nan (x : double) : bool :=
  match x with S754_nan => true | _ => false end.

Definition is_finite (x : double) : bool :=
  match x with S754_zero _ | S754_finite _ _ _ => true | _ => false end.

(** [std::min(a, b)] is [(b < a) ? b : a]. *)
Definition min (a b : double) : double := if ltb b a then b else a.

(** The largest finite value, [numeric_limits<double>::max()]. *)
Definition max_value : double := S754_finite false (2 ^ 53 - 1) (emax - prec).

End Double.

Abbreviation double := Double.double.

Arguments Double.of_int : simpl never.
Arguments Double.ltb : simpl never.
Arguments Double.leb : simpl never.
Arguments Double.add : simpl never.
Arguments Double.sub : simpl never.
Arguments Double.mul : simpl never.
Arguments Double.div : simpl never.

(** The C++ [int] is 32 bits wide. *)
Definition INT_MAX : Z := 2147483647.
Definition INT_MIN : Z := -2147483648.

(** ** Product.cpp *)

(** The data members of the abstract base class [Product]. *)
Record ProductBase : Type := mkProductBase {
  sku : string;
  name : string;
  price : double;
  quantity : Z;
  category : string
}.

Module ProductBase.

(** [Product::Product()] *)
Definition default : ProductBase :=
  mkProductBase "" "" (Double.of_int 0) 0 "General".

(** [Product::Product(sku, name, price, quantity, category)] *)
Definition make (sku name : string) (price : double) (quantity : Z)
    (category : string) : ProductBase :=
  mkProductBase sku name
    (if Double.leb (Double.of_int 0) price then price else Double.of_int 0)
    (if quantity >=? 0 then quantity else 0)
    category.

Definition setSku (v : string) (b : ProductBase) : ProductBase :=
  mkProductBase v (name b) (price b) (quantity b) (category b).

Definition setName (v : string) (b : ProductBase) : ProductBase :=
  mkProductBase (sku b) v (price b) (quantity b) (category b).

(** [Product::setPrice]: the returned flag and the object afterwards. *)
Definition setPrice (v : double) (b : ProductBase) : bool * ProductBase :=
  if Double.ltb v (Double.of_int 0) then (false, b)
  else (true, mkProductBase (sku b) (name b) v (quantity b) (category b)).

(** [Product::setQuantity] *)
Definition setQuantity (v : Z) (b : ProductBase) : bool * ProductBase :=
  if v <? 0 then (false, b)
  else (true, mkProductBase (sku b) (name b) (price b) v (category b)).

Definition setCategory (v : string) (b : ProductBase) : ProductBase :=
  mkProductBase (sku b) (name b) (price b) (quantity b) v.

(** [Product::calculateValue]: [price * quantity]. *)
Definition calculateValue (b : ProductBase) : double :=
  Double.mul (price b) (Double.of_int (quantity b)).

(** [Product::applyDiscount] *)
Definition applyDiscount (b : ProductBase) (percentage : double) : double :=
  if Double.ltb percentage (Double.of_int 0)
     || Double.ltb (Double.of_int 100) percentage
  then price b
  else Double.mul (price b)
         (Double.sub (Double.of_int 1)
            (Double.div percentage (Double.of_int 100))).

End ProductBase.

(** ** PhysicalProduct.cpp *)

Record PhysicalProduct : Type := mkPhysical {
  physical_base : ProductBase;
  weight : double;
  supplier : string
}.

Module PhysicalProduct.

(** [PhysicalProduct::PhysicalProduct()] *)
Definition default : PhysicalProduct :=
  mkPhysical (ProductBase.setCategory "Physical" ProductBase.default)
    (Double.of_int 0) "Unknown".

(** The parameterised constructor. *)
Definition make (sku name : string) (price : double) (quantity : Z)
    (category : string) (weight : double) (supplier : string)
    : PhysicalProduct :=
  mkPhysical (ProductBase.make sku name price quantity category)
    (if Double.leb (Double.of_int 0) weight then weight else Double.of_int 0)
    supplier.

Definition setWeight (v : double) (p : PhysicalProduct)
    : bool * PhysicalProduct :=
  if Double.ltb v (Double.of_int 0) then (false, p)
  else (true, mkPhysical (physical_base p) v (supplier p)).

Definition setSupplier (v : string) (p : PhysicalProduct) : PhysicalProduct :=
  mkPhysical (physical_base p) (weight p) v.

Definition getType (p : PhysicalProduct) : string := "Physical".

End PhysicalProduct.

(** ** DigitalProduct.cpp *)

Record DigitalProduct : Type := mkDigital {
  digital_base : ProductBase;
  downloadLink : string;
  fileSizeMB : double;
  licenseType : string
}.

Module DigitalProduct.

(** [DigitalProduct::DigitalProduct()] *)
Definition default : DigitalProduct :=
  mkDigital (ProductBase.setCategory "Digital" ProductBase.default)
    "" (Double.of_int 0) "Single".

(** The parameterised constructor. *)
Definition make (sku name : string) (price : double) (quantity : Z)
    (category downloadLink : string) (fileSizeMB : double)
    (licenseType : string) : DigitalProduct :=
  mkDigital (ProductBase.make sku name price quantity category)
    downloadLink
    (if Double.leb (Double.of_int 0) fileSizeMB then fileSizeMB
     else Double.of_int 0)
    licenseType.

Definition setDownloadLink (v : string) (d : DigitalProduct) : DigitalProduct :=
  mkDigital (digital_base d) v (fileSizeMB d) (licenseType d).

Definition setFileSizeMB (v : double) (d : DigitalProduct)
    : bool * DigitalProduct :=
  if Double.ltb v (Double.of_int 0) then (false, d)
  else (true, mkDigital (digital_base d) (downloadLink d) v (licenseType d)).

Definition setLicenseType (v : string) (d : DigitalProduct) : DigitalProduct :=
  mkDigital (digital_base d) (downloadLink d) (fileSizeMB d) v.

Definition getType (d : DigitalProduct) : string := "Digital".

(** [DigitalProduct::applyDiscount] *)
Definition applyDiscount (d : DigitalProduct) (percentage : double) : double :=
  if Double.ltb percentage (Double.of_int 0)
     || Double.ltb (Double.of_int 100) percentage
  then price (digital_base d)
  else
    let bonusPercentage :=
      Double.min (Double.add percentage (Double.of_int 5)) (Double.of_int 50) in
    Double.mul (price (digital_base d))
      (Double.sub (Double.of_int 1)
         (Double.div bonusPercentage (Double.of_int 100))).

End DigitalProduct.

(** ** Objects of dynamic type: what a [Product*] points to *)

Inductive Product : Type :=
  | Physical (p : PhysicalProduct)
  | Digital (d : DigitalProduct).

Definition base (o : Product) : ProductBase :=
  match o with
  | Physical p => physical_base p
  | Digital d => digital_base d
  end.

Definition with_base (f : ProductBase -> ProductBase) (o : Product) : Product :=
  match o with
  | Physical p => Physical (mkPhysical (f (physical_base p)) (weight p) (supplier p))
  | Digital d =>
      Digital (mkDigital (f (digital_base d)) (downloadLink d) (fileSizeMB d)
                 (licenseType d))
  end.

Definition getSku (o : Product) : string := sku (base o).
Definition getName (o : Product) : string := name (base o).
Definition getPrice (o : Product) : double := price (base o).
Definition getQuantity (o : Product) : Z := quantity (base o).
Definition getCategory (o : Product) : string := category (base o).

(** Virtual dispatch. *)
Definition getType (o : Product) : string :=
  match o with
  | Physical p => PhysicalProduct.getType p
  | Digital d => DigitalProduct.getType d
  end.

(** [calculateValue] is not overridden by either derived class. *)
Definition calculateValue (o : Product) : double :=
  ProductBase.calculateValue (base o).

(** [applyDiscount] is overridden by [DigitalProduct] only. *)
Definition applyDiscount (o : Product) (percentage : double) : double :=
  match o with
  | Physical p => ProductBase.applyDiscount (physical_base p) percentage
  | Digital d => DigitalProduct.applyDiscount d percentage
  end.

Definition setName (v : string) (o : Product) : Product :=
  with_base (ProductBase.setName v) o.

Definition setPrice (v : double) (o : Product) : bool * Product :=
  (fst (ProductBase.setPrice v (base o)),
   with_base (fun b => snd (ProductBase.setPrice v b)) o).

Definition setQuantity (v : Z) (o : Product) : bool * Product :=
  (fst (ProductBase.setQuantity v (base o)),
   with_base (fun b => snd (ProductBase.setQuantity v b)) o).

(** ** Text conversions of the C++ standard library

    The codec is written with [std::to_string], [std::getline],
    [operator>>] and [ignore] on a [std::stringstream].  These are library
    functions; they are modelled here following the C++ standard and the
    GNU implementation, over the characters of the stream. *)

Definition comma : ascii := ","%char.
Definition newline : ascii := Ascii.ascii_of_N 10.

Definition is_digit (c : ascii) : bool :=
  let n := N_of_ascii c in ((48 <=? n) && (n <=? 57))%N.

Definition digit_val (c : ascii) : Z := Z.of_N (N_of_ascii c) - 48.

Definition digit_char (d : Z) : ascii := ascii_of_N (Z.to_N (48 + d)).

(** [isspace] in the "C" locale. *)
Definition is_space (c : ascii) : bool :=
  let n := N_of_ascii c in ((n =? 32) || ((9 <=? n) && (n <=? 13)))%N.

(** Decimal digits of a non-negative integer, most significant first:
    [dec_aux] prepends the digits of [n] to [acc]. *)
Fixpoint dec_aux (fuel : nat) (n : Z) (acc : string) : string :=
  match fuel with
  | O => acc
  | S fuel' =>
      let acc' := String (digit_char (n mod 10)) acc in
      if n <? 10 then acc' else dec_aux fuel' (n / 10) acc'
  end.

Definition dec (n : Z) : string := dec_aux (S (Z.to_nat (Z.log2 n))) n "".

(** Exactly [k] decimal digits of [n], with leading zeros. *)
Fixpoint dec_fixed (k : nat) (n : Z) (acc : string) : string :=
  match k with
  | O => acc
  | S k' => dec_fixed k' (n / 10) (String (digit_char (n mod 10)) acc)
  end.

(** [std::to_string(int)]: as printed by ["%d"]. *)
Definition to_string_int (z : Z) : string :=
  if z <? 0 then String "-"%char (dec (- z)) else dec z.

(** Round to the nearest integer, ties to even, the quotient [num / den]
    of two non-negative integers ([den] positive). *)
Definition div_round_even (num den : Z) : Z :=
  let q := num / den in
  let r := num mod den in
  match Z.compare (2 * r) den with
  | Lt => q
  | Gt => q + 1
  | Eq => if Z.even q then q else q + 1
  end.

(** The magnitude of a finite double times [10^6], rounded to an integer:
    the digits that ["%f"] prints. *)
Definition micro_units (m : positive) (e : Z) : Z :=
  if 0 <=? e then Z.pos m * 2 ^ e * 1000000
  else div_round_even (Z.pos m * 1000000) (2 ^ (- e)).

Definition fixed6 (neg : bool) (n : Z) : string :=
  (if neg then "-" else "")
    ++ dec (n / 1000000) ++ String "."%char (dec_fixed 6 (n mod 1000000) "").

(** [std::to_string(double)]: as printed by ["%f"], six digits after the
    decimal point. *)
Definition to_string_double (x : double) : string :=
  match x with
  | S754_zero s => fixed6 s 0
  | S754_finite s m e => fixed6 s (micro_units m e)
  | S754_infinity s => if s then "-inf" else "inf"
  | S754_nan => "nan"
  end.

(** *** Input streams *)

(** A [std::stringstream] read from: the characters not yet consumed and
    the state flags. *)
Record istream : Type := mkStream {
  buffer : string;
  eofbit : bool;
  failbit : bool
}.

Definition stream_of (s : string) : istream := mkStream s false false.

Definition good (ss : istream) : bool := negb (eofbit ss) && negb (failbit ss).

Definition setfail (ss : istream) : istream :=
  mkStream (buffer ss) (eofbit ss) true.

(** The characters before the first [delim], and what follows it when
    there is one. *)
Fixpoint split_delim (delim : ascii) (s : string) : string * option string :=
  match s with
  | EmptyString => (EmptyString, None)
  | String c s' =>
      if Ascii.eqb c delim then (EmptyString, Some s')
      else let '(tok, rest) := split_delim delim s' in (String c tok, rest)
  end.

(** [std::getline(ss, str, delim)]: [str] is the previous content of the
    destination, left as it is when the stream is not good on entry. *)
Definition getline (delim : ascii) (str : string) (ss : istream)
    : string * istream :=
  if good ss then
    match split_delim delim (buffer ss) with
    | (tok, Some rest) => (tok, mkStream rest false false)
    | (tok, None) =>
        (tok, mkStream EmptyString true
                match tok with EmptyString => true | _ => false end)
    end
  else (str, setfail ss).

(** [ss.ignore(1)] *)
Definition ignore1 (ss : istream) : istream :=
  if good ss then
    match buffer ss with
    | EmptyString => mkStream EmptyString true false
    | String _ rest => mkStream rest false false
    end
  else setfail ss.

Fixpoint skip_ws (s : string) : string :=
  match s with
  | String c s' => if is_space c then skip_ws s' else s
  | EmptyString => s
  end.

(** The longest prefix of decimal digits, and the rest. *)
Fixpoint span_digits (s : string) : string * string :=
  match s with
  | String c s' =>
      if is_digit c then let '(ds, rest) := span_digits s' in (String c ds, rest)
      else (EmptyString, s)
  | EmptyString => (EmptyString, EmptyString)
  end.

(** Value of a string of decimal digits, continuing from [acc]. *)
Fixpoint digits_value (acc : Z) (s : string) : Z :=
  match s with
  | String c s' => digits_value (10 * acc + digit_val c) s'
  | EmptyString => acc
  end.

Definition is_sign (c : ascii) : bool :=
  Ascii.eqb c "+"%char || Ascii.eqb c "-"%char.

(** An optional sign: whether it is a minus, and the rest. *)
Definition take_sign (s : string) : bool * string :=
  match s with
  | String c s' => if is_sign c then (Ascii.eqb c "-"%char, s') else (false, s)
  | EmptyString => (false, s)
  end.

Definition is_empty (s : string) : bool :=
  match s with EmptyString => true | _ => false end.

(** [num_get] for [int]: an optional sign and decimal digits.  The result
    is the value stored, the characters left, and the error (fail) flag:
    no digit stores 0 and fails, a value out of range stores the nearest
    bound and fails. *)
Definition num_get_int (s : string) : Z * string * bool :=
  let '(neg, s1) := take_sign s in
  let '(ds, rest) := span_digits s1 in
  if is_empty ds then (0, rest, true)
  else
    let v := if neg then - digits_value 0 ds else digits_value 0 ds in
    if v <? INT_MIN then (INT_MIN, rest, true)
    else if INT_MAX <? v then (INT_MAX, rest, true)
    else (v, rest, false).

(** The decimal value [(-1)^neg * m * 10^e] rounded to the nearest double,
    ties to even, as [strtod] does. *)
Definition decimal_to_double (neg : bool) (m e : Z) : double :=
  match m with
  | Z0 => S754_zero neg
  | Zneg _ => S754_nan
  | Zpos p =>
      if 0 <=? e then
        binary_round Double.prec Double.emax neg (Z.to_pos (Z.pos p * 10 ^ e)) 0
      else
        let '(q, e', l) :=
          SFdiv_core_binary Double.prec Double.emax (Z.pos p) 0 (10 ^ (- e)) 0 in
        binary_round_aux Double.prec Double.emax neg q e' l
  end.

Definition is_exp_char (c : ascii) : bool :=
  Ascii.eqb c "e"%char || Ascii.eqb c "E"%char.

(** The exponent part after the mantissa: nothing, or [e], an optional sign
    and digits.  [None] when an [e] is not followed by a digit: the
    accumulated characters are then not a number. *)
Definition take_exponent (s : string) : option Z * string :=
  match s with
  | String c s' =>
      if is_exp_char c then
        let '(neg, s1) := take_sign s' in
        let '(ds, rest) := span_digits s1 in
        if is_empty ds then (None, rest)
        else (Some (if neg then - digits_value 0 ds else digits_value 0 ds), rest)
      else (Some 0, s)
  | EmptyString => (Some 0, s)
  end.

(** [num_get] for [double]: sign, digits, at most one decimal point,
    digits, and an exponent once a digit was seen.  The result is the value
    stored, the characters left, and the error (fail) flag: characters that
    do not form a number store 0 and fail, an overflow stores the largest
    finite value and fails. *)
Definition num_get_double (s : string) : double * string * bool :=
  let '(neg, s1) := take_sign s in
  let '(ip, s2) := span_digits s1 in
  let '(fp, s3) :=
    match s2 with
    | String "." s2' => span_digits s2'
    | _ => (EmptyString, s2)
    end in
  if is_empty ip && is_empty fp then (Double.of_int 0, s3, true)
  else
    match take_exponent s3 with
    | (None, rest) => (Double.of_int 0, rest, true)
    | (Some ex, rest) =>
        let m := digits_value (digits_value 0 ip) fp in
        let v := decimal_to_double neg m (ex - Z.of_nat (String.length fp)) in
        match v with
        | S754_infinity sg =>
            (if sg then SFopp Double.max_value else Double.max_value, rest, true)
        | _ => (v, rest, false)
        end
    end.

(** [ss >> value] for a numeric [value]: [old] is the previous content of
    the destination, left as it is when the stream is not good on entry or
    holds nothing but white space. *)
Definition extract {A : Type} (num_get : string -> A * string * bool)
    (old : A) (ss : istream) : A * istream :=
  if good ss then
    match skip_ws (buffer ss) with
    | EmptyString => (old, mkStream EmptyString true true)
    | s =>
        let '(v, rest, err) := num_get s in
        (v, mkStream rest (is_empty rest) err)
    end
  else (old, setfail ss).

Definition extract_double : double -> istream -> double * istream :=
  extract num_get_double.

Definition extract_int : Z -> istream -> Z * istream :=
  extract num_get_int.

(** ** The codec: [toCSV] and [fromCSV] *)

Definition sep (a b : string) : string := a ++ "," ++ b.

(** [Product::toCSV] *)
Definition ProductBase_toCSV (b : ProductBase) : string :=
  sep (sku b) (sep (name b) (sep (to_string_double (price b))
    (sep (to_string_int (quantity b)) (category b)))).

(** [PhysicalProduct::toCSV] *)
Definition PhysicalProduct_toCSV (p : PhysicalProduct) : string :=
  sep "Physical" (sep (ProductBase_toCSV (physical_base p))
    (sep (to_string_double (weight p)) (supplier p))).

(** [DigitalProduct::toCSV] *)
Definition DigitalProduct_toCSV (d : DigitalProduct) : string :=
  sep "Digital" (sep (ProductBase_toCSV (digital_base d))
    (sep (downloadLink d) (sep (to_string_double (fileSizeMB d)) (licenseType d)))).

Definition toCSV (o : Product) : string :=
  match o with
  | Physical p => PhysicalProduct_toCSV p
  | Digital d => DigitalProduct_toCSV d
  end.

(** The numeric locals of [fromCSV] are declared without an initial value.
    When an extraction does not store anything, the constructor receives
    whatever the local held: these indeterminate values are an input of the
    model. *)
Record Uninit : Type := mkUninit {
  uninit_price : double;
  uninit_quantity : Z;
  uninit_size : double
}.

(** [PhysicalProduct::fromCSV] *)
Definition PhysicalProduct_fromCSV (u : Uninit) (csvLine : string)
    : PhysicalProduct :=
  let ss := stream_of csvLine in
  let '(type, ss) := getline comma "" ss in
  let '(sku, ss) := getline comma "" ss in
  let '(name, ss) := getline comma "" ss in
  let '(price, ss) := extract_double (uninit_price u) ss in
  let ss := ignore1 ss in
  let '(quantity, ss) := extract_int (uninit_quantity u) ss in
  let ss := ignore1 ss in
  let '(category, ss) := getline comma "" ss in
  let '(weight, ss) := extract_double (uninit_size u) ss in
  let ss := ignore1 ss in
  let '(supplier, ss) := getline newline "" ss in
  PhysicalProduct.make sku name price quantity category weight supplier.

(** [DigitalProduct::fromCSV] *)
Definition DigitalProduct_fromCSV (u : Uninit) (csvLine : string)
    : DigitalProduct :=
  let ss := stream_of csvLine in
  let '(type, ss) := getline comma "" ss in
  let '(sku, ss) := getline comma "" ss in
  let '(name, ss) := getline comma "" ss in
  let '(price, ss) := extract_double (uninit_price u) ss in
  let ss := ignore1 ss in
  let '(quantity, ss) := extract_int (uninit_quantity u) ss in
  let ss := ignore1 ss in
  let '(category, ss) := getline comma "" ss in
  let '(downloadLink, ss) := getline comma "" ss in
  let '(fileSizeMB, ss) := extract_double (uninit_size u) ss in
  let ss := ignore1 ss in
  let '(licenseType, ss) := getline newline "" ss in
  DigitalProduct.make sku name price quantity category downloadLink fileSizeMB
    licenseType.

(** ** PhysicalProduct.cpp: the shipping cost

    The constants of [calculateShippingCost] are the doubles nearest to
    the literals [5.99] and [0.75]. *)
Definition BASE_RATE : double := decimal_to_double false 599 (-2).
Definition PER_POUND_RATE : double := decimal_to_double false 75 (-2).

(** [PhysicalProduct::calculateShippingCost] *)
Definition calculateShippingCost (p : PhysicalProduct) : double :=
  if Double.leb (weight p) (Double.of_int 0) then BASE_RATE
  else Double.add BASE_RATE (Double.mul (weight p) PER_POUND_RATE).

(** ** Inventory.cpp *)

(** Addresses of heap objects; a [Product*] is an address or [nullptr]. *)
Definition addr : Type := positive.
Definition Ptr : Type := option addr.
Definition nullptr : Ptr := None.

Abbreviation Heap := (gmap addr Product).

(** Reading through a pointer; [None] for [nullptr] and for an address that
    holds no object, where the C++ program has no defined behaviour. *)
Definition deref (h : Heap) (p : Ptr) : option Product :=
  match p with
  | Some a => h !! a
  | None => None
  end.

(** [new]: the object is placed at an address not in use. *)
Definition new (o : Product) (h : Heap) : Ptr * Heap :=
  let a := fresh (dom h) in (Some a, <[a := o]> h).

Record Inventory : Type := mkInventory {
  products : list Ptr;
  skuIndex : gmap string Ptr;
  dataFilePath : string
}.

(** [Inventory::Inventory(dataFilePath)] *)
Definition Inventory_new (path : string) : Inventory := mkInventory [] ∅ path.

(** The loop of [rebuildIndex], starting from the index [idx]. *)
Fixpoint rebuild_from (h : Heap) (ps : list Ptr) (idx : gmap string Ptr)
    : option (gmap string Ptr) :=
  match ps with
  | [] => Some idx
  | None :: ps' => rebuild_from h ps' idx
  | Some a :: ps' =>
      match h !! a with
      | Some o => rebuild_from h ps' (<[getSku o := Some a]> idx)
      | None => None
      end
  end.

(** [Inventory::rebuildIndex] *)
Definition rebuildIndex (h : Heap) (inv : Inventory) : option Inventory :=
  match rebuild_from h (products inv) ∅ with
  | Some idx => Some (mkInventory (products inv) idx (dataFilePath inv))
  | None => None
  end.

(** [Inventory::addProduct]: the returned flag and the inventory
    afterwards. *)
Definition addProduct (h : Heap) (inv : Inventory) (product : Ptr)
    : option (bool * Inventory) :=
  match product with
  | None => Some (false, inv)
  | Some a =>
      match h !! a with
      | None => None
      | Some o =>
          match skuIndex inv !! getSku o with
          | Some _ => Some (false, inv)
          | None =>
              Some (true,
                    mkInventory (products inv ++ [product])
                      (<[getSku o := product]> (skuIndex inv))
                      (dataFilePath inv))
          end
      end
  end.

(** [Inventory::getProduct] *)
Definition getProduct (inv : Inventory) (sku : string) : Ptr :=
  match skuIndex inv !! sku with
  | Some p => p
  | None => nullptr
  end.

(** [Inventory::skuExists] *)
Definition skuExists (inv : Inventory) (sku : string) : bool :=
  bool_decide (is_Some (skuIndex inv !! sku)).

(** The position found by [std::find_if] with the predicate
    [p->getSku() == sku]; the predicate reads through every pointer it
    visits. *)
Fixpoint find_sku (h : Heap) (sku : string) (ps : list Ptr) : option (option nat) :=
  match ps with
  | [] => Some None
  | p :: ps' =>
      match deref h p with
      | None => None
      | Some o =>
          if String.eqb (getSku o) sku then Some (Some O)
          else
            match find_sku h sku ps' with
            | Some (Some i) => Some (Some (S i))
            | r => r
            end
      end
  end.

(** [delete p]: nothing for [nullptr]. *)
Definition delete_ptr (p : Ptr) (h : Heap) : option Heap :=
  match p with
  | None => Some h
  | Some a => match h !! a with Some _ => Some (delete a h) | None => None end
  end.

(** [Inventory::removeProduct] *)
Definition removeProduct (h : Heap) (inv : Inventory) (sku : string)
    : option (bool * Heap * Inventory) :=
  match skuIndex inv !! sku with
  | None => Some (false, h, inv)
  | Some _ =>
      match find_sku h sku (products inv) with
      | None => None
      | Some None =>
          Some (true, h,
                mkInventory (products inv) (delete sku (skuIndex inv))
                  (dataFilePath inv))
      | Some (Some i) =>
          match products inv !! i with
          | None => None
          | Some p =>
              match delete_ptr p h with
              | None => None
              | Some h' =>
                  Some (true, h',
                        mkInventory (take i (products inv) ++ drop (S i) (products inv))
                          (delete sku (skuIndex inv)) (dataFilePath inv))
              end
          end
      end
  end.

(** [Inventory::updateProduct]: the inventory object itself is not
    changed, the product it points to is. *)
Definition updateProduct (h : Heap) (inv : Inventory) (sku name : string)
    (price : double) (quantity : Z) : option (bool * Heap) :=
  match getProduct inv sku with
  | None => Some (false, h)
  | Some a =>
      match h !! a with
      | None => None
      | Some o =>
          let o1 := if negb (is_empty name) then setName name o else o in
          let o2 :=
            if Double.leb (Double.of_int 0) price then snd (setPrice price o1)
            else o1 in
          let o3 := if quantity >=? 0 then snd (setQuantity quantity o2) else o2 in
          Some (true, <[a := o3]> h)
      end
  end.

(** [Inventory::getProductCount], [isEmpty], [getTotalValue] *)
Definition getProductCount (inv : Inventory) : nat := length (products inv).

Definition isEmpty (inv : Inventory) : bool :=
  match products inv with [] => true | _ => false end.

Fixpoint total_from (h : Heap) (ps : list Ptr) (total : double) : option double :=
  match ps with
  | [] => Some total
  | p :: ps' =>
      match deref h p with
      | Some o => total_from h ps' (Double.add total (calculateValue o))
      | None => None
      end
  end.

Definition getTotalValue (h : Heap) (inv : Inventory) : option double :=
  total_from h (products inv) (Double.of_int 0).

(** The loop of [clearAll] that deletes every product. *)
Fixpoint delete_all (ps : list Ptr) (h : Heap) : option Heap :=
  match ps with
  | [] => Some h
  | p :: ps' =>
      match delete_ptr p h with
      | Some h' => delete_all ps' h'
      | None => None
      end
  end.

(** [Inventory::clearAll] *)
Definition clearAll (h : Heap) (inv : Inventory) : option (Heap * Inventory) :=
  match delete_all (products inv) h with
  | Some h' => Some (h', mkInventory [] ∅ (dataFilePath inv))
  | None => None
  end.

(** *** Sorting

    [std::sort] is a library algorithm.  The C++ standard specifies its
    result, not its steps: the range is rearranged (the result is a
    permutation) so that no later element compares less than an earlier one.
    The order of elements that compare equivalent is not specified.  It is
    modelled as the relation between a sequence and each of its permitted
    results; the comparator reads through the pointers. *)

Inductive std_sort (h : Heap) (comp : Product -> Product -> bool)
    (l : list Ptr) : list Ptr -> Prop :=
  | std_sort_intro (l' : list Ptr) (objs : list Product) :
      l ≡ₚ l' ->
      mapM (deref h) l' = Some objs ->
      StronglySorted (fun a b => comp b a = false) objs ->
      std_sort h comp l l'.

(** The comparators given to [std::sort] by the five sort operations. *)
Definition comp_sku (a b : Product) : bool := String.ltb (getSku a) (getSku b).
Definition comp_name (a b : Product) : bool := String.ltb (getName a) (getName b).
Definition comp_price (a b : Product) : bool := Double.ltb (getPrice a) (getPrice b).
Definition comp_quantity (a b : Product) : bool := getQuantity a <? getQuantity b.
Definition comp_value (a b : Product) : bool :=
  Double.ltb (calculateValue b) (calculateValue a).

(** A sort operation: [std::sort] with [comp], then [rebuildIndex]. *)
Inductive sort_with (comp : Product -> Product -> bool) (h : Heap)
    (inv : Inventory) : Inventory -> Prop :=
  | sort_with_intro (l' : list Ptr) (inv' : Inventory) :
      std_sort h comp (products inv) l' ->
      rebuildIndex h (mkInventory l' (skuIndex inv) (dataFilePath inv)) = Some inv' ->
      sort_with comp h inv inv'.

Definition sortBySku := sort_with comp_sku.
Definition sortByName := sort_with comp_name.
Definition sortByPrice := sort_with comp_price.
Definition sortByValue := sort_with comp_value.

(** The sort operations of the inventory. *)
Inductive sort_op : Type :=
  | BySku | ByName | ByPrice | ByQuantity | ByValue.

Definition comparator (op : sort_op) : Product -> Product -> bool :=
  match op with
  | BySku => comp_sku
  | ByName => comp_name
  | ByPrice => comp_price
  | ByQuantity => comp_quantity
  | ByValue => comp_value
  end.

(** *** [std::sort] as the GNU C++ library runs it

    The standard leaves the steps of [std::sort] to the library.  The
    functions below are those of GCC's libstdc++ ([bits/stl_algo.h] and
    [bits/stl_heap.h]): an introsort that splits ranges of more than 16
    elements around the median of three, falls back on a heap sort when the
    depth limit is used up, and finishes with an insertion sort.

    The range is a list, an iterator is an index into it, and the elements
    are copied as pointers are.  Reading or writing outside the range, which
    the unguarded loops do not check, has no defined behaviour: [None].  A
    loop that can only end by leaving the range carries as fuel the number
    of positions it can visit. *)

Module libstdcxx.

Section algorithms.

Context {A : Type} (comp : A -> A -> option bool).
































End algorithms.

End libstdcxx.



(** *** File input and output *)

(** The files of the system: the content of each path that can be opened. *)
Abbreviation Files := (gmap string string).

(** The loop [while (std::getline(file, line))], run on the content of the
    file: the lines extracted until an extraction fails. *)
Fixpoint getline_loop (fuel : nat) (ss : istream) : list string :=
  match fuel with
  | O => []
  | S fuel' =>
      let '(line, ss') := getline newline "" ss in
      if failbit ss' then [] else line :: getline_loop fuel' ss'
  end.

(** The lines that loop reads, in closed form: the pieces between line
    feeds; a final line feed does not start another line. *)
Fixpoint file_lines (s : string) : list string :=
  match s with
  | EmptyString => []
  | String c s' =>
      if Ascii.eqb c newline then EmptyString :: file_lines s'
      else
        match file_lines s' with
        | [] => [String c EmptyString]
        | l :: ls => String c l :: ls
        end
  end.

Definition starts_with_hash (line : string) : bool :=
  match line with
  | String c _ => Ascii.eqb c "#"%char
  | EmptyString => false
  end.

(** [line.substr(0, line.find(','))] *)
Definition type_tag (line : string) : string := fst (split_delim comma line).

(** The factory step of the loop body: the product built from the line,
    allocated with [new], or [nullptr]. *)
Definition make_product (u : Uninit) (line : string) (h : Heap) : Ptr * Heap :=
  let type := type_tag line in
  if String.eqb type "Physical" then new (Physical (PhysicalProduct_fromCSV u line)) h
  else if String.eqb type "Digital" then new (Digital (DigitalProduct_fromCSV u line)) h
  else (nullptr, h).

(** One iteration of the loop of [loadFromFile]. *)
Definition load_line (u : Uninit) (line : string) (st : Heap * Inventory)
    : option (Heap * Inventory) :=
  let '(h, inv) := st in
  if is_empty line || starts_with_hash line then Some st
  else
    let '(product, h') := make_product u line h in
    match product with
    | None => Some (h', inv)
    | Some _ =>
        match addProduct h' inv product with
        | Some (_, inv') => Some (h', inv')
        | None => None
        end
    end.

Fixpoint load_lines (u : Uninit) (lines : list string) (st : Heap * Inventory)
    : option (Heap * Inventory) :=
  match lines with
  | [] => Some st
  | line :: lines' =>
      match load_line u line st with
      | Some st' => load_lines u lines' st'
      | None => None
      end
  end.

(** [Inventory::loadFromFile] *)
Definition loadFromFile (u : Uninit) (fs : Files) (h : Heap) (inv : Inventory)
    : option (bool * (Heap * Inventory)) :=
  match fs !! dataFilePath inv with
  | None => Some (false, (h, inv))
  | Some content =>
      match clearAll h inv with
      | None => None
      | Some st =>
          match load_lines u (file_lines content) st with
          | Some st' => Some (true, st')
          | None => None
          end
      end
  end.

(** The lines written by [saveToFile]. *)
Definition file_header : string :=
  "# SmallBiz Inventory Data File" ++ String newline
    ("# Format: Type,SKU,Name,Price,Quantity,Category,[Type-specific fields]"
       ++ String newline "").

Fixpoint csv_lines (h : Heap) (ps : list Ptr) : option string :=
  match ps with
  | [] => Some EmptyString
  | p :: ps' =>
      match deref h p, csv_lines h ps' with
      | Some o, Some rest => Some (toCSV o ++ String newline rest)
      | _, _ => None
      end
  end.

(** [Inventory::saveToFile]; [writable] tells whether the path can be
    opened for writing. *)
Definition saveToFile (writable : bool) (fs : Files) (h : Heap) (inv : Inventory)
    : option (bool * Files) :=
  if writable then
    match csv_lines h (products inv) with
    | Some body => Some (true, <[dataFilePath inv := file_header ++ body]> fs)
    | None => None
    end
  else Some (false, fs).

(** *** Searching *)

(** [::tolower] in the "C" locale (the program never calls [setlocale]): an
    upper-case letter becomes the lower-case one, any other character is
    returned as it is.  The argument is a [char] converted to [int]: where
    [char] is signed, a byte above 127 arrives as a negative number, for
    which the C standard defines no behaviour unless it is [EOF] (-1, the
    byte 255). *)
Definition tolower (c : ascii) : option ascii :=
  let n := N_of_ascii c in
  if ((65 <=? n) && (n <=? 90))%N then Some (ascii_of_N (n + 32))
  else if ((n <? 128) || (n =? 255))%N then Some c
  else None.

(** [std::transform(s.begin(), s.end(), s.begin(), ::tolower)] *)
Fixpoint transform_tolower (s : string) : option string :=
  match s with
  | EmptyString => Some EmptyString
  | String c s' =>
      match tolower c, transform_tolower s' with
      | Some c', Some t => Some (String c' t)
      | _, _ => None
      end
  end.

(** [hay] begins with [needle]. *)
Fixpoint starts_with (needle hay : string) : bool :=
  match needle, hay with
  | EmptyString, _ => true
  | String a needle', String b hay' => Ascii.eqb a b && starts_with needle' hay'
  | String _ _, EmptyString => false
  end.

(** [hay.find(needle)]: the first position where [needle] occurs, [None]
    for [std::string::npos]. *)
Fixpoint string_find (needle hay : string) : option nat :=
  if starts_with needle hay then Some O
  else
    match hay with
    | EmptyString => None
    | String _ hay' => S <$> string_find needle hay'
    end.

(** The loop of the three search operations: the pointers whose record
    passes the test, in the order of the sequence. *)
Fixpoint search_loop (h : Heap) (test : Product -> option bool) (ps : list Ptr)
    : option (list Ptr) :=
  match ps with
  | [] => Some []
  | p :: ps' =>
      match deref h p with
      | None => None
      | Some o =>
          match test o with
          | None => None
          | Some b =>
              match search_loop h test ps' with
              | None => None
              | Some results => Some (if b then p :: results else results)
              end
          end
      end
  end.

(** The test [lowerField.find(lowerTerm) != std::string::npos]. *)
Definition found_in (lowerTerm : string) (field : string) : option bool :=
  match transform_tolower field with
  | Some lowerField => Some (bool_decide (is_Some (string_find lowerTerm lowerField)))
  | None => None
  end.


(** [Inventory::searchByCategory] *)
Definition searchByCategory (h : Heap) (inv : Inventory) (category : string)
    : option (list Ptr) :=
  match transform_tolower category with
  | Some lowerCategory =>
      search_loop h (fun o => found_in lowerCategory (getCategory o)) (products inv)
  | None => None
  end.

(** [Inventory::searchByType] *)
Definition searchByType (h : Heap) (inv : Inventory) (type : string)
    : option (list Ptr) :=
  match transform_tolower type with
  | Some lowerType =>
      search_loop h
        (fun o =>
           match transform_tolower (getType o) with
           | Some lowerProdType => Some (String.eqb lowerProdType lowerType)
           | None => None
           end)
        (products inv)
  | None => None
  end.

(** [Inventory::setDataFilePath] *)
Definition setDataFilePath (path : string) (inv : Inventory) : Inventory :=
  mkInventory (products inv) (skuIndex inv) path.

(** ** Vocabulary of the properties *)

Fixpoint contains (c : ascii) (s : string) : bool :=
  match s with
  | EmptyString => false
  | String c' s' => Ascii.eqb c' c || contains c s'
  end.

(** Number of comma-separated fields of a line. *)
Fixpoint field_count (line : string) : nat :=
  match line with
  | EmptyString => 1%nat
  | String c s' => if Ascii.eqb c comma then S (field_count s') else field_count s'
  end.

(** The objects a sequence of pointers refers to, when each of them is a
    live object. *)
Definition objects (h : Heap) (ps : list Ptr) : option (list Product) :=
  mapM (deref h) ps.

(** The sku read through a pointer. *)
Definition sku_at (h : Heap) (p : Ptr) : option string := getSku <$> deref h p.

(** The inventory is consistent on a heap: its sequence holds live
    records with pairwise distinct skus, and the index maps exactly the
    sku of each record of the sequence to that record. *)
Definition consistent (h : Heap) (inv : Inventory) : Prop :=
  Forall (fun p => is_Some (deref h p)) (products inv)
  /\ NoDup (sku_at h <$> products inv)
  /\ forall (s : string) (p : Ptr),
       skuIndex inv !! s = Some p <-> p ∈ products inv /\ sku_at h p = Some s.

(** A record with the sku [s] is in the store. *)
Definition in_store (h : Heap) (inv : Inventory) (s : string) : Prop :=
  exists p, p ∈ products inv /\ sku_at h p = Some s.

(** A sequence of [addProduct] calls. *)
Fixpoint add_all (h : Heap) (inv : Inventory) (ps : list Ptr) : option Inventory :=
  match ps with
  | [] => Some inv
  | p :: ps' =>
      match addProduct h inv p with
      | Some (_, inv') => add_all h inv' ps'
      | None => None
      end
  end.

(** A text made of decimal digits only. *)
Fixpoint all_digits (s : string) : bool :=
  match s with
  | EmptyString => true
  | String c s' => is_digit c && all_digits s'
  end.

(** The text does not go on with a digit. *)
Definition no_digit_ahead (s : string) : bool :=
  match s with
  | String c _ => negb (is_digit c)
  | EmptyString => true
  end.

(** What follows a number on a line: nothing, or a comma. *)
Definition field_end (rest : string) : Prop :=
  rest = EmptyString \/ exists rest', rest = String comma rest'.

(** The value and flag [num_get] gives for the decimal [(-1)^s * n / 10^6]. *)
Definition read_micro (s : bool) (n : Z) : double * bool :=
  match decimal_to_double s n (-6) with
  | S754_infinity sg =>
      (if sg then SFopp Double.max_value else Double.max_value, true)
  | v => (v, false)
  end.

(** The sign and class of a double. *)
Definition finite_with_sign (sx : bool) (x : double) : Prop :=
  match x with
  | S754_zero s | S754_finite s _ _ => s = sx
  | _ => False
  end.

(** The value read back from the text [std::to_string] gives for a double. *)
Definition read_back (x : double) : double :=
  fst (fst (num_get_double (to_string_double x))).

(** A record as the data model describes it: the numeric fields are
    doubles (in normal form, as every computed double is), finite and not
    negative, and the quantity is a non-negative [int]. *)
Definition valid_number (x : double) : Prop :=
  valid_binary Double.prec Double.emax x = true
  /\ Double.is_finite x = true
  /\ Double.leb (Double.of_int 0) x = true.

Definition valid_base (b : ProductBase) : Prop :=
  valid_number (price b) /\ 0 <= quantity b <= INT_MAX.

Definition valid_record (o : Product) : Prop :=
  valid_base (base o)
  /\ match o with
     | Physical p => valid_number (weight p)
     | Digital d => valid_number (fileSizeMB d)
     end.

(** The text fields of a record. *)
Definition text_fields (o : Product) : list string :=
  [getSku o; getName o; getCategory o]
    ++ match o with
       | Physical p => [supplier p]
       | Digital d => [downloadLink d; licenseType d]
       end.

(** The field written last on the line. *)
Definition last_field (o : Product) : string :=
  match o with
  | Physical p => supplier p
  | Digital d => licenseType d
  end.

(** Decoding as [loadFromFile] selects it from the type tag. *)
Definition decode (u : Uninit) (line : string) : option Product :=
  let type := type_tag line in
  if String.eqb type "Physical" then Some (Physical (PhysicalProduct_fromCSV u line))
  else if String.eqb type "Digital" then Some (Digital (DigitalProduct_fromCSV u line))
  else None.

(** The percentage lies in [[0, 100]], or it lies outside. *)
Definition in_range (pct : double) : bool :=
  Double.leb (Double.of_int 0) pct && Double.leb pct (Double.of_int 100).

Definition out_of_range (pct : double) : bool :=
  Double.ltb pct (Double.of_int 0) || Double.ltb (Double.of_int 100) pct.

(** [price * (1 - pct / 100)] *)
Definition discounted (price pct : double) : double :=
  Double.mul price
    (Double.sub (Double.of_int 1) (Double.div pct (Double.of_int 100))).

(** A negative number, and a number that is not negative. *)
Definition negative (x : double) : Prop := Double.ltb x (Double.of_int 0) = true.
Definition non_negative (x : double) : Prop := Double.leb (Double.of_int 0) x = true.

(** Two objects of the same variant with the same variant-specific fields. *)
Definition same_extension (o o' : Product) : Prop :=
  match o, o' with
  | Physical p, Physical p' => weight p' = weight p /\ supplier p' = supplier p
  | Digital d, Digital d' =>
      downloadLink d' = downloadLink d /\ fileSizeMB d' = fileSizeMB d
      /\ licenseType d' = licenseType d
  | _, _ => False
  end.

(** The object after the three conditional assignments of [updateProduct]. *)
Definition updated (n : string) (pr : double) (q : Z) (o : Product) : Product :=
  let o1 := if negb (is_empty n) then setName n o else o in
  let o2 := if Double.leb (Double.of_int 0) pr then snd (setPrice pr o1) else o1 in
  if q >=? 0 then snd (setQuantity q o2) else o2.







(** The record with each double replaced by the one read back from its
    text. *)
Definition rounded_base (b : ProductBase) : ProductBase :=
  mkProductBase (sku b) (name b) (read_back (price b)) (quantity b) (category b).

Definition rounded (o : Product) : Product :=
  match o with
  | Physical p =>
      Physical (mkPhysical (rounded_base (physical_base p)) (read_back (weight p))
                  (supplier p))
  | Digital d =>
      Digital (mkDigital (rounded_base (digital_base d)) (downloadLink d)
                 (read_back (fileSizeMB d)) (licenseType d))
  end.

(** A double that is an integer or zero. *)
Definition integral (x : double) : Prop :=
  match x with
  | S754_zero _ => True
  | S754_finite _ _ e => 0 <= e
  | _ => False
  end.

(** One operation of the store, or of its caller on the heap. *)
Inductive step : Heap * Inventory -> Heap * Inventory -> Prop :=
  | step_new (h : Heap) (inv : Inventory) (o : Product) :
      step (h, inv) (snd (new o h), inv)
  | step_discard (h : Heap) (inv : Inventory) (a : addr) :
      Some a ∉ products inv -> step (h, inv) (delete a h, inv)
  | step_add (h : Heap) (inv inv' : Inventory) (p : Ptr) (b : bool) :
      addProduct h inv p = Some (b, inv') -> step (h, inv) (h, inv')
  | step_remove (h h' : Heap) (inv inv' : Inventory) (s : string) (b : bool) :
      removeProduct h inv s = Some (b, h', inv') -> step (h, inv) (h', inv')
  | step_update (h h' : Heap) (inv : Inventory) (s n : string) (pr : double)
      (q : Z) (b : bool) :
      updateProduct h inv s n pr q = Some (b, h') -> step (h, inv) (h', inv)
  | step_sort (op : sort_op) (h : Heap) (inv inv' : Inventory) :
      sort_with (comparator op) h inv inv' -> step (h, inv) (h, inv')
  | step_clear (h : Heap) (inv : Inventory) (st' : Heap * Inventory) :
      clearAll h inv = Some st' -> step (h, inv) st'
  | step_load (u : Uninit) (fs : Files) (h : Heap) (inv : Inventory) (b : bool)
      (st' : Heap * Inventory) :
      loadFromFile u fs h inv = Some (b, st') -> step (h, inv) st'
  | step_path (h : Heap) (inv : Inventory) (path : string) :
      step (h, inv) (h, mkInventory (products inv) (skuIndex inv) path).

(** The states reached from the empty inventory. *)
Definition reachable (st : Heap * Inventory) : Prop :=
  exists path, rtc step (∅, Inventory_new path) st.

(** A text of 7-bit characters. *)
Fixpoint is_ascii (s : string) : bool :=
  match s with
  | EmptyString => true
  | String c s' => (N_of_ascii c <? 128)%N && is_ascii s'
  end.

(** [t] occurs in [s]. *)
Definition occurs_in (t s : string) : Prop :=
  exists pre post, s = pre ++ t ++ post.

(** The lower-case form of a text of 7-bit characters. *)
Definition lower (s : string) : string := default EmptyString (transform_tolower s).


(** The record is of the variant a lower-case type name stands for. *)
Definition of_type (lowerType : string) (o : Product) : Prop :=
  match o with
  | Physical _ => lowerType = "physical"
  | Digital _ => lowerType = "digital"
  end.

(** A text field that can be written on a line: no comma, no line feed. *)
Definition plain_text (t : string) : Prop :=
  contains comma t = false /\ contains newline t = false.

(** A record that can be written to the file: valid, with plain text
    fields. *)
Definition storable (o : Product) : Prop :=
  valid_record o /\ Forall plain_text (text_fields o).

(** The records decoded from the lines of a file, in the order of the
    lines: none for an empty line, a comment, or a line whose type tag is
    not recognized. *)
Definition decoded (u : Uninit) (lines : list string) : list Product :=
  omap (fun line =>
          if is_empty line || starts_with_hash line then None else decode u line)
    lines.

(** The records of a list whose sku is not in [seen] and not the sku of an
    earlier record of the list. *)
Fixpoint first_by_sku (seen : list string) (os : list Product) : list Product :=
  match os with
  | [] => []
  | o :: os' =>
      if bool_decide (getSku o ∈ seen) then first_by_sku seen os'
      else o :: first_by_sku (seen ++ [getSku o]) os'
  end.

(** The record [mrs] places the quotient [Y / D]: at the mantissa, below
    the half, at the half, or above the half of the next one. *)
Definition placed (mrs : shr_record) (Y D : Z) : Prop :=
  let m := shr_m mrs in
  match shr_r mrs, shr_s mrs with
  | false, false => Y = m * D
  | false, true => 2 * (m * D) < 2 * Y < 2 * (m * D) + D
  | true, false => 2 * Y = 2 * (m * D) + D
  | true, true => 2 * (m * D) + D < 2 * Y < 2 * (m * D) + 2 * D
  end.

(** The double [v] has the value [m * 2^e], [m] not negative. *)
Definition represents (v : double) (m e : Z) : Prop :=
  match v with
  | S754_zero false => m = 0
  | S754_finite false m' e' => e <= e' /\ Z.pos m' * 2 ^ (e' - e) = m
  | _ => False
  end.

(** The finite double [x] divided by [2^t]: an integer when [t] is not
    above the exponent of [x]. *)
Definition scaled (t : Z) (x : double) : Z :=
  match x with
  | S754_finite s m e => (if s then -1 else 1) * (Z.pos m * 2 ^ (e - t))
  | _ => 0
  end.

Definition exponent_of (x : double) : Z :=
  match x with
  | S754_finite _ _ e => e
  | _ => 0
  end.

(** [|x' - x| <= 10^-6] for finite doubles: with [t] not above the two
    exponents and not positive, [|x'/2^t - x/2^t| * 10^6 <= 2^-t] between
    integers. *)
Definition within_micro (x x' : double) : Prop :=
  Double.is_finite x = true /\ Double.is_finite x' = true
  /\ let t := Z.min (Z.min (exponent_of x) (exponent_of x')) 0 in
     Z.abs (scaled t x' - scaled t x) * 1000000 <= 2 ^ (- t).

(** The numbers of a record are numbers, and none is negative. *)
Definition well_formed (o : Product) : Prop :=
  non_negative (getPrice o) /\ 0 <= getQuantity o
  /\ match o with
     | Physical p => non_negative (weight p)
     | Digital d => non_negative (fileSizeMB d)
     end.

(** A number of the format between 0 and 1. *)
Definition unit_fraction (x : double) : Prop :=
  valid_binary Double.prec Double.emax x = true
  /\ non_negative x
  /\ Double.leb x (Double.of_int 1) = true.

(** Every category of the store is a text of 7-bit characters. *)
Definition ascii_categories (h : Heap) (inv : Inventory) : Prop :=
  forall p o, p ∈ products inv -> deref h p = Some o ->
    is_ascii (getCategory o) = true.

(** *** Example data *)

Module Examples.

Definition d (z : Z) : double := Double.of_int z.

Definition junk : Uninit := mkUninit S754_nan (-1) S754_nan.

(** Three physical products with values 50, 200 and 50. *)
Definition recA : Product := Physical (PhysicalProduct.make "A" "a" (d 50) 1 "c" (d 0) "s").
Definition recB : Product := Physical (PhysicalProduct.make "B" "b" (d 200) 1 "c" (d 0) "s").
Definition recC : Product := Physical (PhysicalProduct.make "C" "c" (d 50) 1 "c" (d 0) "s").

Definition pA : Ptr := Some 1%positive.
Definition pB : Ptr := Some 2%positive.
Definition pC : Ptr := Some 3%positive.

Definition heapABC : Heap :=
  <[1%positive := recA]> (<[2%positive := recB]> (<[3%positive := recC]> ∅)).

Definition invABC : Inventory :=
  mkInventory [pA; pB; pC]
    (<["A" := pA]> (<["B" := pB]> (<["C" := pC]> ∅))) "inventory.csv".


Definition invBCA : Inventory :=
  mkInventory [pB; pC; pA] (skuIndex invABC) "inventory.csv".

(** A line with seven fields where a physical record has eight. *)
Definition short_line : string := "Physical,A1,Widget,9.99,5,Tools,1.5".

(** A line whose price is not a number. *)
Definition bad_price_line : string := "Physical,A2,Widget,abc,5,Tools,1.5,Acme".

Definition widget : PhysicalProduct :=
  PhysicalProduct.make "A1" "Widget" (fst (fst (num_get_double "9.99"))) 5
    "Tools" (fst (fst (num_get_double "1.5"))) "Acme".

Definition ebook : DigitalProduct :=
  DigitalProduct.make "D1" "Ebook" (d 20) 100 "Books" "http://x/y" (d 12) "Single".

(** A record whose supplier spans two lines. *)
Definition two_lines : PhysicalProduct :=
  PhysicalProduct.make "A1" "Widget" (d 10) 5 "Tools" (d 1)
    ("Acme" ++ String newline "Corp").

(** A file with a comment, an empty line, two lines with the same sku and
    a line with an unknown tag. *)
Definition file_with_duplicate : string :=
  "# stock" ++ String newline (String newline
    ("Physical,A1,Widget,9.99,5,Tools,1.5,Acme" ++ String newline
      ("Physical,A1,Gadget,1.0,1,Toys,2.0,Bolt" ++ String newline
        ("Service,S1,Repair,5.0,1,Work" ++ String newline "")))).

(** A shop with two physical products and a digital one. *)
Definition atlas : PhysicalProduct :=
  PhysicalProduct.make "P2" "Atlas" (d 30) 2 "Textbooks" (d 2) "Maps".

Definition heapShop : Heap :=
  <[1%positive := Physical widget]>
    (<[2%positive := Digital ebook]> (<[3%positive := Physical atlas]> ∅)).

Definition invShop : Inventory :=
  mkInventory [pA; pB; pC]
    (<["A1" := pA]> (<["D1" := pB]> (<["P2" := pC]> ∅))) "inventory.csv".

(** The shop after the price of the atlas was set to 15, the sequence was
    sorted by price and the digital product was removed. *)
Definition atlas15 : PhysicalProduct :=
  PhysicalProduct.make "P2" "Atlas" (d 15) 2 "Textbooks" (d 2) "Maps".

Definition heapRun : Heap :=
  <[1%positive := Physical widget]> (<[3%positive := Physical atlas15]> ∅).

Definition invRun : Inventory :=
  mkInventory [pA; pC] (<["A1" := pA]> (<["P2" := pC]> ∅)) "inventory.csv".









End Examples.

(** * Properties *)

(** ** Comparisons of doubles *)

Lemma SFcompare_antisym (x y : double) :
  SFcompare y x = CompOpp <$> SFcompare x y.
Proof.
  destruct x as [sx|sx| |sx mx ex], y as [sy|sy| |sy my ey]; simpl;
    try reflexivity;
    try (destruct sx; reflexivity); try (destruct sy; reflexivity);
    try (destruct sx, sy; reflexivity).
  destruct sx, sy; simpl; try reflexivity;
    rewrite (Z.compare_antisym ey ex);
    destruct (ey ?= ex) eqn:E; simpl; try reflexivity;
    rewrite (Pos.compare_cont_antisym mx my Eq); simpl;
    destruct (Pos.compare_cont Eq mx my); reflexivity.
Qed.

Lemma ltb_not_leb (x y : double) :
  Double.ltb x y = true -> Double.leb y x = false.
Proof.
  unfold Double.ltb, Double.leb, SFltb, SFleb.
  rewrite (SFcompare_antisym x y).
  destruct (SFcompare x y) as [[]|]; simpl; congruence.
Qed.

Lemma leb_not_ltb (x y : double) :
  Double.leb x y = true -> Double.ltb y x = false.
Proof.
  unfold Double.ltb, Double.leb, SFltb, SFleb.
  rewrite (SFcompare_antisym x y).
  destruct (SFcompare x y) as [[]|]; simpl; congruence.
Qed.

Lemma SFcompare_is_Some (x y : double) :
  Double.is_nan x = false -> Double.is_nan y = false ->
  is_Some (SFcompare x y).
Proof.
  destruct x, y; simpl; intros; try discriminate; eauto.
Qed.

(** For numbers (anything but NaN), [x < y] is the negation of [y <= x]. *)
Lemma ltb_negb_leb (x y : double) :
  Double.is_nan x = false -> Double.is_nan y = false ->
  Double.ltb x y = negb (Double.leb y x).
Proof.
  intros Hx Hy. destruct (SFcompare_is_Some x y Hx Hy) as [c Hc].
  unfold Double.ltb, Double.leb, SFltb, SFleb.
  rewrite (SFcompare_antisym x y), Hc. destruct c; reflexivity.
Qed.

Lemma leb_zero_self : Double.leb (Double.of_int 0) (Double.of_int 0) = true.
Proof. reflexivity. Qed.

(** ** Discounts *)

Lemma in_range_not_out (pct : double) :
  in_range pct = true -> out_of_range pct = false.
Proof.
  unfold in_range, out_of_range. intros [H0 H100]%andb_true_iff.
  by rewrite (leb_not_ltb _ _ H0), (leb_not_ltb _ _ H100).
Qed.

(** Every number is in the range or outside of it. *)
Lemma in_range_or_out (pct : double) :
  Double.is_nan pct = false -> in_range pct = negb (out_of_range pct).
Proof.
  intros Hn. unfold in_range, out_of_range.
  rewrite (ltb_negb_leb pct (Double.of_int 0)) by done.
  rewrite (ltb_negb_leb (Double.of_int 100) pct) by done.
  by rewrite negb_orb, !negb_involutive.
Qed.

(** C3. For every product and every percentage [pct]: on a Physical
    product [applyDiscount pct] is [price * (1 - pct / 100)] when
    [0 <= pct <= 100] and the unmodified price when [pct] is outside that
    range; on a Digital product it is
    [price * (1 - min (pct + 5) 50 / 100)] when [0 <= pct <= 100], the range
    being checked on [pct] itself, before the bonus, and the unmodified
    price when [pct] is outside.  Every number is in one of the two cases. *)
Theorem applyDiscount_spec (o : Product) (pct : double) :
  (in_range pct = true ->
   applyDiscount o pct =
     match o with
     | Physical _ => discounted (getPrice o) pct
     | Digital _ =>
         discounted (getPrice o)
           (Double.min (Double.add pct (Double.of_int 5)) (Double.of_int 50))
     end)
  /\ (out_of_range pct = true -> applyDiscount o pct = getPrice o)
  /\ (Double.is_nan pct = false -> in_range pct = negb (out_of_range pct)).
Proof.
  split; [|split].
  - intros Hin%in_range_not_out. unfold out_of_range in Hin.
    destruct o as [p|dg]; simpl;
      unfold ProductBase.applyDiscount, DigitalProduct.applyDiscount;
      rewrite Hin; reflexivity.
  - intros Hout. unfold out_of_range in Hout.
    destruct o as [p|dg]; simpl;
      unfold ProductBase.applyDiscount, DigitalProduct.applyDiscount;
      rewrite Hout; reflexivity.
  - apply in_range_or_out.
Qed.

(** Price 100 at 10 percent: 90 for a physical and 85 for a digital
    product; at 50 percent the digital bonus is capped: 50; at 150 percent
    the price stays 100. *)
Lemma applyDiscount_spec_witness :
  applyDiscount (Physical (PhysicalProduct.make "A" "a" (Double.of_int 100) 1 "c"
                             (Double.of_int 0) "s")) (Double.of_int 10)
    = Double.of_int 90
  /\ applyDiscount (Digital (DigitalProduct.make "D" "d" (Double.of_int 100) 1 "c" "l"
                               (Double.of_int 0) "s")) (Double.of_int 10)
    = Double.of_int 85
  /\ applyDiscount (Digital (DigitalProduct.make "D" "d" (Double.of_int 100) 1 "c" "l"
                               (Double.of_int 0) "s")) (Double.of_int 50)
    = Double.of_int 50
  /\ applyDiscount (Digital (DigitalProduct.make "D" "d" (Double.of_int 100) 1 "c" "l"
                               (Double.of_int 0) "s")) (Double.of_int 150)
    = Double.of_int 100.
Proof.
  split; [|split; [|split]].
  - rewrite (proj1 (applyDiscount_spec _ (Double.of_int 10))) by reflexivity.
    vm_compute. reflexivity.
  - rewrite (proj1 (applyDiscount_spec _ (Double.of_int 10))) by reflexivity.
    vm_compute. reflexivity.
  - rewrite (proj1 (applyDiscount_spec _ (Double.of_int 50))) by reflexivity.
    vm_compute. reflexivity.
  - rewrite (proj1 (proj2 (applyDiscount_spec _ (Double.of_int 150)))) by reflexivity.
    vm_compute. reflexivity.
Defined.

(** A percentage that is not a number is in neither case; the formula is
    evaluated and gives NaN. *)
Example applyDiscount_nan :
  in_range S754_nan = false /\ out_of_range S754_nan = false
  /\ applyDiscount Examples.recA S754_nan = S754_nan.
Proof. repeat split. Qed.

(** ** Negative inputs *)

Lemma clamp_negative (x : double) :
  negative x ->
  (if Double.leb (Double.of_int 0) x then x else Double.of_int 0) = Double.of_int 0.
Proof. intros H. by rewrite (ltb_not_leb _ _ H). Qed.

Lemma clamp_non_negative (x : double) :
  non_negative x ->
  (if Double.leb (Double.of_int 0) x then x else Double.of_int 0) = x.
Proof. intros H. red in H. by rewrite H. Qed.

(** C8. A negative price or quantity given to a constructor is stored as
    0.  With a negative argument [setPrice], [setQuantity], [setWeight] and
    [setFileSizeMB] return failure and leave the object as it was; with a
    non-negative argument they store it and return success. *)
Theorem negative_inputs (s n c sup link lic : string) (pr size x : double)
    (q k : Z) (b : ProductBase) (p : PhysicalProduct) (dg : DigitalProduct) :
  (negative pr ->
     price (ProductBase.make s n pr q c) = Double.of_int 0
     /\ getPrice (Physical (PhysicalProduct.make s n pr q c size sup))
        = Double.of_int 0
     /\ getPrice (Digital (DigitalProduct.make s n pr q c link size lic))
        = Double.of_int 0)
  /\ (q < 0 ->
     quantity (ProductBase.make s n pr q c) = 0
     /\ getQuantity (Physical (PhysicalProduct.make s n pr q c size sup)) = 0
     /\ getQuantity (Digital (DigitalProduct.make s n pr q c link size lic)) = 0)
  /\ (negative x ->
     ProductBase.setPrice x b = (false, b)
     /\ PhysicalProduct.setWeight x p = (false, p)
     /\ DigitalProduct.setFileSizeMB x dg = (false, dg))
  /\ (k < 0 -> ProductBase.setQuantity k b = (false, b))
  /\ (non_negative x ->
     ProductBase.setPrice x b
       = (true, mkProductBase (sku b) (name b) x (quantity b) (category b))
     /\ PhysicalProduct.setWeight x p
        = (true, mkPhysical (physical_base p) x (supplier p))
     /\ DigitalProduct.setFileSizeMB x dg
        = (true, mkDigital (digital_base dg) (downloadLink dg) x (licenseType dg)))
  /\ (0 <= k ->
     ProductBase.setQuantity k b
       = (true, mkProductBase (sku b) (name b) (price b) k (category b))).
Proof.
  split; [|split; [|split; [|split; [|split]]]].
  - intros H. unfold getPrice. simpl. by rewrite !clamp_negative.
  - intros H. unfold getQuantity. simpl.
    destruct (Z.geb_spec q 0) as [Hge|_]; [lia | done].
  - intros H. red in H.
    unfold ProductBase.setPrice, PhysicalProduct.setWeight,
      DigitalProduct.setFileSizeMB. by rewrite H.
  - intros H. unfold ProductBase.setQuantity.
    destruct (Z.ltb_spec k 0) as [_|Hge]; [done | lia].
  - intros H%leb_not_ltb.
    unfold ProductBase.setPrice, PhysicalProduct.setWeight,
      DigitalProduct.setFileSizeMB. by rewrite H.
  - intros H. unfold ProductBase.setQuantity.
    destruct (Z.ltb_spec k 0) as [Hlt|_]; [lia | done].
Qed.

(** Constructing with price -5 stores 0; [setPrice (-1)] fails and keeps
    the price; [setPrice 7] stores 7. *)
Lemma negative_inputs_witness :
  getPrice (Physical (PhysicalProduct.make "A" "a" (Double.of_int (-5)) (-3) "c"
                        (Double.of_int 1) "s")) = Double.of_int 0
  /\ getQuantity (Physical (PhysicalProduct.make "A" "a" (Double.of_int (-5)) (-3)
                              "c" (Double.of_int 1) "s")) = 0
  /\ ProductBase.setPrice (Double.of_int (-1)) ProductBase.default
     = (false, ProductBase.default)
  /\ ProductBase.setQuantity (-1) ProductBase.default
     = (false, ProductBase.default)
  /\ ProductBase.setPrice (Double.of_int 7) ProductBase.default
     = (true, mkProductBase "" "" (Double.of_int 7) 0 "General")
  /\ ProductBase.setQuantity 7 ProductBase.default
     = (true, mkProductBase "" "" (Double.of_int 0) 7 "General").
Proof.
  pose proof (negative_inputs "A" "a" "c" "s" "l" "x" (Double.of_int (-5))
                (Double.of_int 1) (Double.of_int (-1)) (-3) (-1)
                ProductBase.default PhysicalProduct.default DigitalProduct.default)
    as (Hp & Hq & Hs & Hk & _ & _).
  pose proof (negative_inputs "A" "a" "c" "s" "l" "x" (Double.of_int (-5))
                (Double.of_int 1) (Double.of_int 7) (-3) 7
                ProductBase.default PhysicalProduct.default DigitalProduct.default)
    as (_ & _ & _ & _ & Hs' & Hk').
  split; [exact (proj1 (proj2 (Hp eq_refl)))|].
  split; [exact (proj1 (proj2 (Hq ltac:(lia))))|].
  split; [exact (proj1 (Hs eq_refl))|].
  split; [exact (Hk ltac:(lia))|].
  split; [exact (proj1 (Hs' eq_refl))|].
  exact (Hk' ltac:(lia)).
Defined.

(** ** Default category *)

(** The claim that every variant constructed without a category has the
    category "General" fails: a default-constructed physical product has
    the category "Physical". *)
Lemma default_category_counterexample :
  getCategory (Physical PhysicalProduct.default) <> "General"
  /\ getCategory (Digital DigitalProduct.default) <> "General".
Proof. split; discriminate. Qed.

(** C9 (amended). The default constructor of the base class sets the
    category "General", and the default constructor of each variant then
    replaces it: a default-constructed physical product has the category
    "Physical", a default-constructed digital product the category
    "Digital".  The other constructors take the category they are given. *)
Theorem default_category :
  category ProductBase.default = "General"
  /\ getCategory (Physical PhysicalProduct.default) = "Physical"
  /\ getCategory (Digital DigitalProduct.default) = "Digital"
  /\ (forall s n pr q c w sup,
        getCategory (Physical (PhysicalProduct.make s n pr q c w sup)) = c)
  /\ (forall s n pr q c l sz lic,
        getCategory (Digital (DigitalProduct.make s n pr q c l sz lic)) = c).
Proof. repeat split. Qed.

(** ** Loading from a file that cannot be opened *)

(** C10. When the file cannot be opened, [loadFromFile] returns failure
    and the heap and the inventory are as before; the inventory is cleared
    only once the file is open. *)
Theorem loadFromFile_not_open (u : Uninit) (fs : Files) (h : Heap) (inv : Inventory) :
  (fs !! dataFilePath inv = None ->
   loadFromFile u fs h inv = Some (false, (h, inv)))
  /\ (forall content, fs !! dataFilePath inv = Some content ->
      loadFromFile u fs h inv
      = clearAll h inv ≫= fun st =>
          load_lines u (file_lines content) st ≫= fun st' => Some (true, st')).
Proof.
  unfold loadFromFile. split.
  - intros ->. reflexivity.
  - intros content ->. destruct (clearAll h inv) as [st|]; [|done]. simpl.
    by destruct (load_lines u (file_lines content) st).
Qed.

(** A populated inventory and no file: nothing changes.  With an empty
    file the inventory is cleared. *)
Lemma loadFromFile_not_open_witness :
  loadFromFile Examples.junk ∅ Examples.heapABC Examples.invABC
  = Some (false, (Examples.heapABC, Examples.invABC))
  /\ loadFromFile Examples.junk {[ "inventory.csv" := "" ]} Examples.heapABC
       Examples.invABC
     = Some (true, (∅, Inventory_new "inventory.csv")).
Proof.
  split.
  - apply (proj1 (loadFromFile_not_open Examples.junk ∅ Examples.heapABC
                    Examples.invABC)).
    apply lookup_empty.
  - rewrite (proj2 (loadFromFile_not_open Examples.junk
                      {[ "inventory.csv" := "" ]} Examples.heapABC
                      Examples.invABC) "").
    + vm_compute. reflexivity.
    + apply lookup_singleton_eq.
Defined.

(** ** The store: index and sequence *)

Lemma sku_at_Some (h : Heap) (a : addr) (o : Product) :
  h !! a = Some o -> sku_at h (Some a) = Some (getSku o).
Proof. intros H. unfold sku_at. simpl. by rewrite H. Qed.

Lemma sku_at_not_in (h : Heap) (p : Ptr) (s : string) (ps : list Ptr) :
  sku_at h p = Some s -> sku_at h p ∉ sku_at h <$> ps ->
  forall q, q ∈ ps -> sku_at h q <> Some s.
Proof.
  intros Hp Hn q Hq Hs. apply Hn. rewrite Hp, <- Hs.
  by apply list_elem_of_fmap_2.
Qed.

Lemma rebuild_from_spec (h : Heap) (ps : list Ptr) :
  forall idx : gmap string Ptr,
  Forall (fun p => is_Some (deref h p)) ps ->
  NoDup (sku_at h <$> ps) ->
  exists idx', rebuild_from h ps idx = Some idx'
    /\ forall (s : string) (p : Ptr),
         idx' !! s = Some p
         <-> (p ∈ ps /\ sku_at h p = Some s)
             \/ (idx !! s = Some p /\ forall q, q ∈ ps -> sku_at h q <> Some s).
Proof.
  induction ps as [|[a|] ps IH]; intros idx Hlive Hnd.
  - exists idx. split; [done|]. intros s p. split.
    + intros H. right. split; [done|]. intros q Hq. by apply elem_of_nil in Hq.
    + intros [[Hin _]|[H _]]; [by apply elem_of_nil in Hin | done].
  - apply Forall_cons in Hlive as [[o Ho] Hlive]. simpl in Ho.
    rewrite fmap_cons in Hnd. apply NoDup_cons in Hnd as [Hfresh Hnd].
    destruct (IH (<[getSku o := Some a]> idx) Hlive Hnd) as (idx' & Hre & Hspec).
    exists idx'. simpl. rewrite Ho. split; [done|].
    pose proof (sku_at_Some h a o Ho) as Ha.
    pose proof (sku_at_not_in h (Some a) (getSku o) ps Ha Hfresh) as Hothers.
    intros s p. rewrite Hspec. clear Hspec Hre. split.
    + intros [[Hin Hs]|[Hl Hno]].
      * left. split; [by apply elem_of_cons; right | done].
      * destruct (decide (getSku o = s)) as [<-|Hne].
        -- rewrite lookup_insert_eq in Hl. injection Hl as <-.
           left. split; [by apply elem_of_cons; left | done].
        -- rewrite lookup_insert_ne in Hl by done. right. split; [done|].
           intros q [->|Hq]%elem_of_cons; [congruence | by apply Hno].
    + intros [[[->|Hin]%elem_of_cons Hs]|[Hl Hno]].
      * right. assert (s = getSku o) as -> by congruence.
        split; [by rewrite lookup_insert_eq | done].
      * by left.
      * right. split.
        -- rewrite lookup_insert_ne; [done|]. intros <-.
           apply (Hno (Some a)); [by apply elem_of_cons; left | done].
        -- intros q Hq. apply Hno. by apply elem_of_cons; right.
  - apply Forall_cons in Hlive as [[o Ho] _]. discriminate.
Qed.

Lemma rebuildIndex_consistent (h : Heap) (l : list Ptr) (idx : gmap string Ptr)
    (path : string) :
  Forall (fun p => is_Some (deref h p)) l ->
  NoDup (sku_at h <$> l) ->
  exists inv', rebuildIndex h (mkInventory l idx path) = Some inv'
    /\ products inv' = l /\ dataFilePath inv' = path /\ consistent h inv'.
Proof.
  intros Hlive Hnd.
  destruct (rebuild_from_spec h l ∅ Hlive Hnd) as (idx' & Hre & Hspec).
  exists (mkInventory l idx' path). unfold rebuildIndex. simpl. rewrite Hre.
  split; [done|]. split; [done|]. split; [done|].
  split; [done|]. split; [done|]. simpl. intros s p. rewrite Hspec.
  split; [|by left]. intros [H|[H _]]; [done | by rewrite lookup_empty in H].
Qed.

Lemma std_sort_perm (h : Heap) comp (l l' : list Ptr) :
  std_sort h comp l l' -> l ≡ₚ l'.
Proof. by intros [l1 objs Hp _ _]. Qed.

(** C7. After every sort operation the index agrees with the reordered
    sequence: looking up the sku of any record of the sequence returns that
    record, and the index holds exactly the skus of the sequence. *)
Theorem sort_index_consistent (op : sort_op) (h : Heap) (inv inv' : Inventory) :
  consistent h inv ->
  sort_with (comparator op) h inv inv' ->
  (forall (p : Ptr) (s : string),
     p ∈ products inv' -> sku_at h p = Some s -> getProduct inv' s = p)
  /\ (forall s : string,
        is_Some (skuIndex inv' !! s) <-> in_store h inv' s)
  /\ products inv' ≡ₚ products inv.
Proof.
  intros (Hlive & Hnd & _) [l' inv1 Hsort Hre].
  pose proof (std_sort_perm _ _ _ _ Hsort) as Hperm.
  assert (Hlive' : Forall (fun p => is_Some (deref h p)) l') by by rewrite <- Hperm.
  assert (Hnd' : NoDup (sku_at h <$> l')) by by rewrite <- Hperm.
  destruct (rebuildIndex_consistent h l' (skuIndex inv) (dataFilePath inv) Hlive' Hnd')
    as (inv2 & Hre2 & Hprod & _ & (_ & _ & Hidx)).
  assert (inv2 = inv1) as -> by congruence.
  split; [|split].
  - intros p s Hin Hs. unfold getProduct.
    by rewrite (proj2 (Hidx s p) (conj Hin Hs)).
  - intros s. unfold in_store. split.
    + intros [p Hp]. exists p. by apply Hidx.
    + intros (p & Hp). exists p. by apply Hidx.
  - by rewrite Hprod.
Qed.

Lemma consistent_new (path : string) (h : Heap) : consistent h (Inventory_new path).
Proof.
  split; [by apply Forall_nil|]. split; [by apply NoDup_nil|].
  intros s p. simpl. rewrite lookup_empty. split; [done|].
  intros [H _]. by apply elem_of_nil in H.
Qed.

Lemma consistent_index_None (h : Heap) (inv : Inventory) (s : string) :
  consistent h inv -> skuIndex inv !! s = None <-> ~ in_store h inv s.
Proof.
  intros (_ & _ & Hidx). split.
  - intros Hn (p & Hp). apply Hidx in Hp. congruence.
  - intros Hn. destruct (skuIndex inv !! s) as [p|] eqn:E; [|done].
    exfalso. apply Hn. exists p. by apply Hidx.
Qed.

Lemma addProduct_null (h : Heap) (inv : Inventory) :
  addProduct h inv nullptr = Some (false, inv).
Proof. reflexivity. Qed.

Lemma addProduct_duplicate (h : Heap) (inv : Inventory) (p : Ptr) (o : Product) :
  consistent h inv -> deref h p = Some o -> in_store h inv (getSku o) ->
  addProduct h inv p = Some (false, inv).
Proof.
  intros Hc Ho Hin. destruct p as [a|]; [|done]. simpl in Ho.
  unfold addProduct. rewrite Ho.
  destruct (skuIndex inv !! getSku o) eqn:E; [done|].
  by apply (consistent_index_None h inv _ Hc) in E.
Qed.

Lemma addProduct_fresh (h : Heap) (inv : Inventory) (a : addr) (o : Product) :
  h !! a = Some o -> skuIndex inv !! getSku o = None ->
  addProduct h inv (Some a)
  = Some (true, mkInventory (products inv ++ [Some a])
                  (<[getSku o := Some a]> (skuIndex inv)) (dataFilePath inv)).
Proof. intros Ho Hn. unfold addProduct. by rewrite Ho, Hn. Qed.

Lemma addProduct_consistent (h : Heap) (inv inv' : Inventory) (p : Ptr) (b : bool) :
  consistent h inv -> addProduct h inv p = Some (b, inv') ->
  consistent h inv' /\ (b = false -> inv' = inv).
Proof.
  intros Hc Hadd. destruct p as [a|]; [|injection Hadd as <- <-; done].
  unfold addProduct in Hadd. destruct (h !! a) as [o|] eqn:Ho; [|done].
  destruct (skuIndex inv !! getSku o) as [q|] eqn:E;
    injection Hadd as <- <-; [done|].
  split; [|done].
  pose proof (proj1 (consistent_index_None h inv _ Hc) E) as Hfresh.
  destruct Hc as (Hlive & Hnd & Hidx).
  pose proof (sku_at_Some h a o Ho) as Ha.
  split; [|split]; simpl.
  - apply Forall_app. split; [done|]. apply Forall_singleton. simpl. by rewrite Ho.
  - rewrite fmap_app. apply NoDup_app. split; [done|]. split.
    + intros x Hx [->|Hnil%elem_of_nil]%elem_of_cons; [|done].
      apply list_elem_of_fmap in Hx as (q & Hq & Hin).
      apply Hfresh. exists q. split; [done|]. congruence.
    + apply NoDup_singleton.
  - intros s p. destruct (decide (getSku o = s)) as [<-|Hne].
    + rewrite lookup_insert_eq. split.
      * intros [= <-]. split; [|done]. apply elem_of_app. right. by apply list_elem_of_singleton.
      * intros [[Hin|Hin%list_elem_of_singleton]%elem_of_app Hs]; [|by subst].
        exfalso. apply Hfresh. by exists p.
    + rewrite lookup_insert_ne by done. rewrite Hidx. split.
      * intros [Hin Hs]. split; [|done]. apply elem_of_app. by left.
      * intros [[Hin|Hin%list_elem_of_singleton]%elem_of_app Hs]; [done|].
        subst p. congruence.
Qed.

Lemma add_all_consistent (h : Heap) (ps : list Ptr) :
  forall inv inv', consistent h inv -> add_all h inv ps = Some inv' ->
  consistent h inv'.
Proof.
  induction ps as [|p ps IH]; intros inv inv' Hc Hadd; simpl in Hadd.
  - by injection Hadd as <-.
  - destruct (addProduct h inv p) as [[b inv1]|] eqn:E; [|done].
    apply (IH inv1); [|done]. by apply (addProduct_consistent h inv inv1 p b).
Qed.

Lemma add_all_total (h : Heap) (ps : list Ptr) :
  Forall (fun p => p = nullptr \/ is_Some (deref h p)) ps ->
  forall inv, is_Some (add_all h inv ps).
Proof.
  induction 1 as [|p ps Hp _ IH]; intros inv; simpl; [done|].
  destruct Hp as [->|[o Ho]]; [by apply IH|].
  destruct p as [a|]; [|done]. simpl in Ho. unfold addProduct. rewrite Ho.
  destruct (skuIndex inv !! getSku o); apply IH.
Qed.

Lemma consistent_unique (h : Heap) (inv : Inventory) (i j : nat) (p q : Ptr)
    (s : string) :
  consistent h inv ->
  products inv !! i = Some p -> products inv !! j = Some q ->
  sku_at h p = Some s -> sku_at h q = Some s -> i = j.
Proof.
  intros (_ & Hnd & _) Hi Hj Hp Hq.
  apply (NoDup_lookup _ i j (Some s) Hnd); rewrite list_lookup_fmap.
  - by rewrite Hi; simpl; rewrite Hp.
  - by rewrite Hj; simpl; rewrite Hq.
Qed.

(** C1. For every sequence of [addProduct] calls from the empty inventory
    (each pointer null or a live record), the calls return, and in the
    inventory reached no two records of the sequence share a sku; adding a
    record whose sku is already in the store, or a null pointer, returns
    failure and leaves the inventory, sequence and index, as it was. *)
Theorem add_unique (h : Heap) (path : string) (ps : list Ptr) :
  Forall (fun p => p = nullptr \/ is_Some (deref h p)) ps ->
  exists inv,
    add_all h (Inventory_new path) ps = Some inv
    /\ (forall (i j : nat) (p q : Ptr) (s : string),
          products inv !! i = Some p -> products inv !! j = Some q ->
          sku_at h p = Some s -> sku_at h q = Some s -> i = j)
    /\ (forall (p : Ptr) (o : Product),
          deref h p = Some o -> in_store h inv (getSku o) ->
          addProduct h inv p = Some (false, inv))
    /\ addProduct h inv nullptr = Some (false, inv).
Proof.
  intros Hps. destruct (add_all_total h ps Hps (Inventory_new path)) as [inv Hinv].
  exists inv. split; [done|].
  pose proof (add_all_consistent h ps _ _ (consistent_new path h) Hinv) as Hc.
  split; [|split].
  - intros i j p q s. by apply consistent_unique.
  - intros p o. by apply addProduct_duplicate.
  - reflexivity.
Qed.

Lemma sku_at_inv (h : Heap) (p : Ptr) (s : string) :
  sku_at h p = Some s -> exists a o, p = Some a /\ h !! a = Some o /\ getSku o = s.
Proof.
  destruct p as [a|]; [|done]. unfold sku_at. simpl.
  destruct (h !! a) as [o|] eqn:E; [|done]. simpl. intros Hs. exists a, o. split; [done|]. split; [done|]. congruence.
Qed.

Lemma updated_fields (n : string) (pr : double) (q : Z) (o : Product) :
  getName (updated n pr q o) = (if is_empty n then getName o else n)
  /\ (negative pr -> getPrice (updated n pr q o) = getPrice o)
  /\ (non_negative pr -> getPrice (updated n pr q o) = pr)
  /\ (q < 0 -> getQuantity (updated n pr q o) = getQuantity o)
  /\ (0 <= q -> getQuantity (updated n pr q o) = q)
  /\ getSku (updated n pr q o) = getSku o
  /\ getCategory (updated n pr q o) = getCategory o
  /\ same_extension o (updated n pr q o).
Proof.
  unfold updated, negative, non_negative.
  assert (Hset : forall o1, Double.leb (Double.of_int 0) pr = true ->
            snd (setPrice pr o1)
            = with_base (fun b => mkProductBase (sku b) (name b) pr (quantity b)
                                    (category b)) o1).
  { intros o1 Hle%leb_not_ltb. unfold setPrice.
    destruct o1; simpl; unfold ProductBase.setPrice; by rewrite Hle. }
  assert (Hsetq : forall o2, 0 <= q ->
            snd (setQuantity q o2)
            = with_base (fun b => mkProductBase (sku b) (name b) (price b) q
                                    (category b)) o2).
  { intros o2 Hq. unfold setQuantity.
    destruct o2; simpl; unfold ProductBase.setQuantity;
      by destruct (Z.ltb_spec q 0); [lia|]. }
  destruct (Z.geb_spec q 0) as [Hq|Hq];
    [rewrite Hsetq by lia|];
    (destruct (Double.leb (Double.of_int 0) pr) eqn:Hle;
     [rewrite Hset by done|]);
    destruct (is_empty n); destruct o as [p|dg]; simpl;
    unfold getName, getPrice, getQuantity, getSku, getCategory; simpl;
    (split; [done|]);
    (split; [intros Hlt; try done; apply ltb_not_leb in Hlt; congruence|]);
    (split; [intros Hle'; congruence|]);
    (split; [intros; first [done|lia]|]);
    (split; [intros; first [done|lia]|]); done.
Qed.

(** C6. [updateProduct] fails, changing nothing, exactly when the sku is
    not in the store.  When it is, the call succeeds and changes only the
    record with that sku, each field on its own: an empty name keeps the
    name, a negative price keeps the price, a negative quantity keeps the
    quantity, and a non-empty name, a non-negative price and a
    non-negative quantity replace the current values. *)
Theorem updateProduct_spec (h : Heap) (inv : Inventory) (s n : string)
    (pr : double) (q : Z) :
  consistent h inv ->
  (~ in_store h inv s -> updateProduct h inv s n pr q = Some (false, h))
  /\ (in_store h inv s ->
      exists (a : addr) (o o' : Product),
        Some a ∈ products inv /\ h !! a = Some o /\ getSku o = s
        /\ updateProduct h inv s n pr q = Some (true, <[a := o']> h)
        /\ getName o' = (if is_empty n then getName o else n)
        /\ (negative pr -> getPrice o' = getPrice o)
        /\ (non_negative pr -> getPrice o' = pr)
        /\ (q < 0 -> getQuantity o' = getQuantity o)
        /\ (0 <= q -> getQuantity o' = q)
        /\ getSku o' = getSku o
        /\ getCategory o' = getCategory o
        /\ same_extension o o').
Proof.
  intros Hc. split.
  - intros Hn%(consistent_index_None h inv s Hc).
    unfold updateProduct, getProduct. by rewrite Hn.
  - intros (p & Hin & Hs). destruct (sku_at_inv h p s Hs) as (a & o & -> & Ho & Hsku).
    destruct Hc as (_ & _ & Hidx).
    pose proof (proj2 (Hidx s (Some a)) (conj Hin Hs)) as Hl.
    exists a, o, (updated n pr q o).
    split; [done|]. split; [done|]. split; [done|]. split.
    + unfold updateProduct, getProduct. by rewrite Hl, Ho.
    + apply updated_fields.
Qed.

(** *** The example inventory *)

Lemma rebuildIndex_Some_consistent (h : Heap) (inv inv' : Inventory) :
  Forall (fun p => is_Some (deref h p)) (products inv) ->
  NoDup (sku_at h <$> products inv) ->
  rebuildIndex h inv = Some inv' ->
  consistent h inv'.
Proof.
  intros Hlive Hnd Hre. destruct inv as [l idx path]. simpl in *.
  destruct (rebuildIndex_consistent h l idx path Hlive Hnd) as (inv2 & Hre2 & _ & _ & Hc).
  congruence.
Qed.

(** The example inventory and its reorderings are consistent. *)
Lemma consistent_invABC : consistent Examples.heapABC Examples.invABC.
Proof.
  apply (rebuildIndex_Some_consistent Examples.heapABC
           (mkInventory [Examples.pA; Examples.pB; Examples.pC] ∅ "inventory.csv")).
  - repeat constructor; by eexists.
  - refine (bool_decide_unpack _ _). by vm_compute.
  - by vm_compute.
Qed.


Lemma sortByValue_invBCA :
  sortByValue Examples.heapABC Examples.invABC Examples.invBCA.
Proof.
  apply (sort_with_intro _ _ _ [Examples.pB; Examples.pC; Examples.pA]).
  - apply (std_sort_intro _ _ _ _ [Examples.recB; Examples.recC; Examples.recA]).
    + simpl. etrans; [apply perm_swap|]. apply perm_skip, perm_swap.
    + reflexivity.
    + repeat constructor.
  - by vm_compute.
Qed.

(** Sorting the example by value: every sku is still found. *)
Lemma sort_index_consistent_witness :
  getProduct Examples.invBCA "A" = Examples.pA
  /\ getProduct Examples.invBCA "B" = Examples.pB
  /\ getProduct Examples.invBCA "C" = Examples.pC
  /\ (forall s : string,
        is_Some (skuIndex Examples.invBCA !! s)
        <-> in_store Examples.heapABC Examples.invBCA s).
Proof.
  destruct (sort_index_consistent ByValue Examples.heapABC Examples.invABC
              Examples.invBCA consistent_invABC sortByValue_invBCA)
    as (Hget & Hdom & _).
  split; [|split; [|split]].
  - apply Hget; [|reflexivity]. (simpl; repeat first [apply list_elem_of_here | apply list_elem_of_further]).
  - apply Hget; [|reflexivity]. (simpl; repeat first [apply list_elem_of_here | apply list_elem_of_further]).
  - apply Hget; [|reflexivity]. (simpl; repeat first [apply list_elem_of_here | apply list_elem_of_further]).
  - exact Hdom.
Defined.

(** Five calls on the example heap: the null pointer and the second [A]
    are refused. *)
Lemma add_unique_witness :
  exists inv,
    add_all Examples.heapABC (Inventory_new "inventory.csv")
      [Examples.pA; Examples.pB; nullptr; Examples.pA; Examples.pC] = Some inv
    /\ products inv = [Examples.pA; Examples.pB; Examples.pC]
    /\ addProduct Examples.heapABC inv Examples.pB = Some (false, inv)
    /\ addProduct Examples.heapABC inv nullptr = Some (false, inv).
Proof.
  destruct (add_unique Examples.heapABC "inventory.csv"
              [Examples.pA; Examples.pB; nullptr; Examples.pA; Examples.pC])
    as (inv & Hinv & _ & Hdup & Hnull).
  - repeat (apply Forall_cons; split; [first [by left | by (right; eexists)] |]).
    by apply Forall_nil.
  - exists inv. split; [exact Hinv|].
    assert (Hp : products inv = [Examples.pA; Examples.pB; Examples.pC]).
    { vm_compute in Hinv. injection Hinv as <-. reflexivity. }
    split; [exact Hp|]. split; [|exact Hnull].
    apply (Hdup Examples.pB Examples.recB); [reflexivity|].
    exists Examples.pB. rewrite Hp. split; [(simpl; repeat first [apply list_elem_of_here | apply list_elem_of_further]) | reflexivity].
Defined.

(** An unknown sku fails; updating [B] with an empty name, price 7 and
    quantity -1 changes the price only. *)
Lemma updateProduct_spec_witness :
  updateProduct Examples.heapABC Examples.invABC "Z" "new" (Double.of_int 7) 9
  = Some (false, Examples.heapABC)
  /\ exists o',
       updateProduct Examples.heapABC Examples.invABC "B" "" (Double.of_int 7) (-1)
       = Some (true, <[2%positive := o']> Examples.heapABC)
       /\ getName o' = "b" /\ getPrice o' = Double.of_int 7 /\ getQuantity o' = 1.
Proof.
  split.
  - apply (proj1 (updateProduct_spec Examples.heapABC Examples.invABC "Z" "new"
                    (Double.of_int 7) 9 consistent_invABC)).
    intros (p & Hin & Hs).
    apply elem_of_cons in Hin as [->|Hin]; [discriminate|].
    apply elem_of_cons in Hin as [->|Hin]; [discriminate|].
    apply elem_of_cons in Hin as [->|Hin]; [discriminate|].
    by apply elem_of_nil in Hin.
  - destruct (proj2 (updateProduct_spec Examples.heapABC Examples.invABC "B" ""
                       (Double.of_int 7) (-1) consistent_invABC))
      as (a & o & o' & Hin & Ho & Hsku & Hupd & Hname & _ & Hprice & Hq & _).
    + exists Examples.pB. split; [(simpl; repeat first [apply list_elem_of_here | apply list_elem_of_further]) | reflexivity].
    + assert (a = 2%positive) as ->.
      { apply elem_of_cons in Hin as [[= ->]|Hin].
        { vm_compute in Ho. injection Ho as <-. discriminate. }
        apply elem_of_cons in Hin as [[= ->]|Hin]; [done|].
        apply elem_of_cons in Hin as [[= ->]|Hin].
        { vm_compute in Ho. injection Ho as <-. discriminate. }
        by apply elem_of_nil in Hin. }
      assert (o = Examples.recB) as ->
        by (apply (inj Some); rewrite <- Ho; reflexivity).
      exists o'. split; [exact Hupd|]. split; [exact Hname|].
      split; [by apply Hprice|]. apply Hq. lia.
Defined.

(** ** Sorting *)

(** *** The comparators are strict weak orders *)



Lemma SFcompare_finite_trans (s : bool) (m1 m2 m3 : positive) (e1 e2 e3 : Z) c :
  SFcompare (S754_finite s m1 e1) (S754_finite s m2 e2) = Some c ->
  SFcompare (S754_finite s m2 e2) (S754_finite s m3 e3) = Some c ->
  SFcompare (S754_finite s m1 e1) (S754_finite s m3 e3) = Some c.
Proof.
  simpl. rewrite !Pos.compare_cont_spec. simpl.
  destruct s;
    destruct (Z.compare_spec e1 e2), (Z.compare_spec e2 e3), (Z.compare_spec e1 e3);
    destruct (Pos.compare_spec m1 m2), (Pos.compare_spec m2 m3),
      (Pos.compare_spec m1 m3); simpl;
    intros; subst; try congruence; try lia.
Qed.

Lemma double_not_ltb_trans (a b c : double) :
  Double.is_nan a = false -> Double.is_nan b = false -> Double.is_nan c = false ->
  Double.ltb b a = false -> Double.ltb c b = false -> Double.ltb c a = false.
Proof.
  unfold Double.ltb, SFltb.
  destruct a as [sa|sa| |sa ma ea], b as [sb|sb| |sb mb eb],
    c as [sc|sc| |sc mc ec]; simpl; try discriminate; intros _ _ _;
    repeat match goal with s : bool |- _ => destruct s end; simpl;
    try congruence;
    rewrite ?Pos.compare_cont_spec; simpl;
    destruct (Z.compare_spec eb ea), (Z.compare_spec ec eb), (Z.compare_spec ec ea);
    try congruence; try lia; subst;
    destruct (Pos.compare_spec mb ma), (Pos.compare_spec mc mb),
      (Pos.compare_spec mc ma); simpl; try congruence; try lia.
Qed.




(** *** [std::sort] has a result *)





Lemma rebuildIndex_products (h : Heap) (inv inv' : Inventory) :
  rebuildIndex h inv = Some inv' -> products inv' = products inv.
Proof.
  unfold rebuildIndex. destruct (rebuild_from h (products inv) ∅); [|done].
  by intros [= <-].
Qed.










(** ** The lines of a file *)

Lemma split_delim_length (delim : ascii) (s tok rest : string) :
  split_delim delim s = (tok, Some rest) ->
  (String.length rest < String.length s)%nat.
Proof.
  revert tok rest. induction s as [|c s IH]; intros tok rest; simpl; [done|].
  destruct (Ascii.eqb c delim).
  - intros [= _ <-]. lia.
  - destruct (split_delim delim s) as [tok' [rest'|]] eqn:E; [|done].
    intros [= _ <-]. specialize (IH _ _ eq_refl). lia.
Qed.

Lemma file_lines_split (s : string) :
  file_lines s
  = match s with
    | EmptyString => []
    | _ =>
        match split_delim newline s with
        | (tok, Some rest) => tok :: file_lines rest
        | (tok, None) => [tok]
        end
    end.
Proof.
  induction s as [|c s IH]; [done|]. simpl.
  destruct (Ascii.eqb c newline); [done|].
  rewrite IH. destruct s as [|c' s']; [done|].
  by destruct (split_delim newline (String c' s')) as [tok [rest|]].
Qed.

Lemma getline_loop_file_lines (fuel : nat) :
  forall s : string,
    (String.length s < fuel)%nat ->
    getline_loop fuel (stream_of s) = file_lines s.
Proof.
  induction fuel as [|fuel IH]; intros s Hlen; [lia|].
  rewrite file_lines_split. simpl getline_loop. unfold getline, stream_of. simpl.
  destruct s as [|c s].
  - reflexivity.
  - destruct (split_delim newline (String c s)) as [tok [rest|]] eqn:E; simpl.
    + f_equal. apply IH. apply split_delim_length in E. lia.
    + assert (tok <> EmptyString) as Hne.
      { simpl in E. destruct (Ascii.eqb c newline); [done|].
        destruct (split_delim newline s). by injection E as <- _. }
      destruct tok; [done|]. simpl.
      destruct fuel; [simpl in Hlen; lia|]. reflexivity.
Qed.

(** ** Bulk load and malformed lines *)

Lemma load_lines_app (u : Uninit) (l1 l2 : list string) (st : Heap * Inventory) :
  load_lines u (l1 ++ l2) st = load_lines u l1 st ≫= load_lines u l2.
Proof.
  revert st. induction l1 as [|line l1 IH]; intros st; simpl; [done|].
  destruct (load_line u line st) as [st'|]; [apply IH | done].
Qed.

Lemma make_product_unrecognized (u : Uninit) (line : string) (h : Heap) :
  type_tag line <> "Physical" -> type_tag line <> "Digital" ->
  make_product u line h = (nullptr, h).
Proof.
  intros Hp%String.eqb_neq Hd%String.eqb_neq. unfold make_product.
  by rewrite Hp, Hd.
Qed.

Lemma load_line_unrecognized (u : Uninit) (line : string) (st : Heap * Inventory) :
  type_tag line <> "Physical" -> type_tag line <> "Digital" ->
  load_line u line st = Some st.
Proof.
  intros Hp Hd. destruct st as [h inv]. unfold load_line.
  rewrite (make_product_unrecognized u line h Hp Hd).
  by destruct (is_empty line || starts_with_hash line).
Qed.

Lemma type_tag_first (line : string) (c : ascii) (t : string) :
  type_tag line = String c t ->
  exists rest, line = String c rest /\ c <> comma.
Proof.
  unfold type_tag. destruct line as [|c' rest]; simpl; [done|].
  destruct (Ascii.eqb_spec c' comma) as [->|Hne]; [done|].
  destruct (split_delim comma rest). simpl. intros [= -> _]. by exists rest.
Qed.

Lemma recognized_not_skipped (line : string) :
  type_tag line = "Physical" \/ type_tag line = "Digital" ->
  is_empty line || starts_with_hash line = false.
Proof.
  intros [H|H]; apply type_tag_first in H as (rest & -> & _); reflexivity.
Qed.

(** The record the decoder builds for a line with a recognized tag. *)
Lemma decode_recognized (u : Uninit) (line : string) :
  type_tag line = "Physical" \/ type_tag line = "Digital" ->
  exists o, decode u line = Some o
    /\ forall h, make_product u line h = new o h.
Proof.
  unfold decode, make_product. intros [H|H]; rewrite H; simpl; eauto.
Qed.

Lemma new_fresh (o : Product) (h : Heap) :
  exists a, new o h = (Some a, <[a := o]> h) /\ h !! a = None.
Proof.
  exists (fresh (dom h)). split; [done|].
  apply not_elem_of_dom. apply is_fresh.
Qed.

(** C2 (amended). A line whose leading type tag is neither "Physical" nor
    "Digital" adds no record: the state is unchanged and the load goes on
    with the next line.  A line with one of the two tags is never rejected:
    the decoder always builds a record, whatever the number of fields and
    whatever stands where a number is expected, and the record is added
    unless its sku is already in the store. *)
Theorem unrecognized_tag_skipped (u : Uninit) (line : string) :
  (type_tag line <> "Physical" -> type_tag line <> "Digital" ->
   forall (st : Heap * Inventory) (before after : list string),
     load_line u line st = Some st
     /\ load_lines u (before ++ line :: after) st
        = load_lines u (before ++ after) st)
  /\ (type_tag line = "Physical" \/ type_tag line = "Digital" ->
      exists o, decode u line = Some o
        /\ forall (h : Heap) (inv : Inventory),
             exists a,
               h !! a = None
               /\ load_line u line (h, inv)
                  = Some (<[a := o]> h,
                          match skuIndex inv !! getSku o with
                          | Some _ => inv
                          | None =>
                              mkInventory (products inv ++ [Some a])
                                (<[getSku o := Some a]> (skuIndex inv))
                                (dataFilePath inv)
                          end)).
Proof.
  split.
  - intros Hp Hd st before after.
    split; [by apply load_line_unrecognized|].
    rewrite !load_lines_app. destruct (load_lines u before st) as [st'|]; [|done].
    simpl. by rewrite load_line_unrecognized.
  - intros Htag. destruct (decode_recognized u line Htag) as (o & Hdec & Hmk).
    exists o. split; [done|]. intros h inv.
    destruct (new_fresh o h) as (a & Hnew & Hfresh). exists a. split; [done|].
    unfold load_line. rewrite (recognized_not_skipped line Htag), Hmk, Hnew.
    unfold addProduct. rewrite lookup_insert_eq.
    by destruct (skuIndex inv !! getSku o).
Qed.

(** Malformed lines with a recognized tag are not skipped: a line with
    seven fields and a line whose price is not a number each add a
    record. *)
Lemma malformed_line_counterexample :
  field_count Examples.short_line = 7%nat
  /\ (exists h inv,
        loadFromFile Examples.junk {[ "inventory.csv" := Examples.short_line ]} ∅
          (Inventory_new "inventory.csv") = Some (true, (h, inv))
        /\ products inv = [Some 1%positive]
        /\ getSku <$> h !! 1%positive = Some "A1")
  /\ snd (num_get_double "abc,5,Tools,1.5,Acme") = true
  /\ (exists h inv,
        loadFromFile Examples.junk {[ "inventory.csv" := Examples.bad_price_line ]} ∅
          (Inventory_new "inventory.csv") = Some (true, (h, inv))
        /\ products inv = [Some 1%positive]
        /\ getSku <$> h !! 1%positive = Some "A2").
Proof.
  split; [reflexivity|]. split; [|split; [reflexivity|]].
  - eexists _, _. split; [by vm_compute|]. split; reflexivity.
  - eexists _, _. split; [by vm_compute|]. split; reflexivity.
Qed.

(** A line with the tag "Gadget" changes nothing; the line with the price
    "abc" is decoded. *)
Lemma unrecognized_tag_skipped_witness :
  load_lines Examples.junk ["Gadget,A1,x,1,1,c,1,s"; Examples.short_line]
    (∅, Inventory_new "inventory.csv")
  = load_lines Examples.junk [Examples.short_line] (∅, Inventory_new "inventory.csv")
  /\ exists o, decode Examples.junk Examples.bad_price_line = Some o.
Proof.
  split.
  - apply (proj1 (unrecognized_tag_skipped Examples.junk "Gadget,A1,x,1,1,c,1,s")
             ltac:(discriminate) ltac:(discriminate)
             (∅, Inventory_new "inventory.csv") [] [Examples.short_line]).
  - destruct (proj2 (unrecognized_tag_skipped Examples.junk Examples.bad_price_line))
      as (o & Ho & _); [by left|]. by exists o.
Defined.

(** ** Decimal text *)

Lemma digit_char_spec (d : Z) :
  0 <= d < 10 ->
  is_digit (digit_char d) = true /\ digit_val (digit_char d) = d.
Proof.
  intros Hd.
  assert (Hcases : d = 0 \/ d = 1 \/ d = 2 \/ d = 3 \/ d = 4 \/ d = 5 \/ d = 6
                   \/ d = 7 \/ d = 8 \/ d = 9) by lia.
  destruct Hcases as [->|[->|[->|[->|[->|[->|[->|[->|[->| ->]]]]]]]]];
    by vm_compute.
Qed.

Lemma string_app_cons (c : ascii) (s t : string) :
  String c s ++ t = String c (s ++ t).
Proof. reflexivity. Qed.

Lemma string_app_nil_l (t : string) : "" ++ t = t.
Proof. reflexivity. Qed.

Lemma string_app_assoc (s t u : string) : (s ++ t) ++ u = s ++ (t ++ u).
Proof.
  induction s as [|c s IH]; [done|]. by rewrite !string_app_cons, IH.
Qed.

Lemma string_app_nil_r (s : string) : s ++ "" = s.
Proof. induction s as [|c s IH]; [done|]. by rewrite string_app_cons, IH. Qed.

Lemma string_length_app (s t : string) :
  String.length (s ++ t) = (String.length s + String.length t)%nat.
Proof.
  induction s as [|c s IH]; [done|]. rewrite string_app_cons. simpl. by rewrite IH.
Qed.

Lemma digits_value_app (acc : Z) (s t : string) :
  digits_value acc (s ++ t) = digits_value (digits_value acc s) t.
Proof.
  revert acc. induction s as [|c s IH]; intros acc; [done|].
  rewrite string_app_cons. simpl. apply IH.
Qed.

Lemma all_digits_app (s t : string) :
  all_digits (s ++ t) = all_digits s && all_digits t.
Proof.
  induction s as [|c s IH]; [done|]. rewrite string_app_cons. simpl.
  by rewrite IH, andb_assoc.
Qed.

Lemma span_digits_app (ds rest : string) :
  all_digits ds = true -> no_digit_ahead rest = true ->
  span_digits (ds ++ rest) = (ds, rest).
Proof.
  intros Hds Hrest. induction ds as [|c ds IH].
  - rewrite string_app_nil_l. destruct rest as [|c rest]; [done|].
    simpl in Hrest. simpl. by destruct (is_digit c).
  - simpl in Hds. apply andb_true_iff in Hds as [Hc Hds].
    rewrite string_app_cons. simpl. by rewrite Hc, (IH Hds).
Qed.

(** [dec_aux] writes the digits of [n] in front of [acc]. *)
Lemma dec_aux_spec (fuel : nat) :
  forall (n : Z) (acc : string),
    0 <= n < 2 ^ Z.of_nat fuel ->
    exists ds, dec_aux fuel n acc = ds ++ acc
      /\ all_digits ds = true
      /\ (forall a, digits_value a ds = a * 10 ^ Z.of_nat (String.length ds) + n)
      /\ (fuel <> O -> ds <> EmptyString).
Proof.
  induction fuel as [|fuel IH]; intros n acc Hn.
  - exists EmptyString. simpl in *. repeat split; [|done]. intros a. lia.
  - simpl. pose proof (Z.mod_pos_bound n 10 ltac:(lia)) as Hmod.
    destruct (digit_char_spec (n mod 10) Hmod) as [Hdig Hval].
    destruct (Z.ltb_spec n 10) as [Hlt|Hge].
    + exists (String (digit_char (n mod 10)) EmptyString).
      split; [done|]. split; [by simpl; rewrite Hdig|]. split; [|done].
      intros a. simpl. rewrite Hval, Z.mod_small by lia. lia.
    + assert (Hdiv : 0 <= n / 10 < 2 ^ Z.of_nat fuel).
      { split; [apply Z.div_pos; lia|].
        apply Z.div_lt_upper_bound; [lia|].
        rewrite Nat2Z.inj_succ, Z.pow_succ_r in Hn by lia. lia. }
      destruct (IH (n / 10) (String (digit_char (n mod 10)) acc) Hdiv)
        as (ds & Heq & Hall & Hv & _).
      exists (ds ++ String (digit_char (n mod 10)) EmptyString).
      split; [by rewrite Heq, string_app_assoc|].
      split; [by rewrite all_digits_app, Hall; simpl; rewrite Hdig|].
      split.
      * intros a. rewrite digits_value_app, Hv. simpl. rewrite Hval.
        rewrite string_length_app. simpl String.length.
        rewrite Nat2Z.inj_add, Z.pow_add_r by lia. simpl (Z.of_nat 1).
        rewrite Z.pow_1_r. pose proof (Z.div_mod n 10 ltac:(lia)). lia.
      * intros _. by destruct ds.
Qed.

Lemma dec_spec (n : Z) :
  0 <= n ->
  exists c ds, dec n = String c ds
    /\ all_digits (dec n) = true
    /\ forall a, digits_value a (dec n) = a * 10 ^ Z.of_nat (String.length (dec n)) + n.
Proof.
  intros Hn. unfold dec.
  assert (Hfuel : 0 <= n < 2 ^ Z.of_nat (S (Z.to_nat (Z.log2 n)))).
  { split; [done|]. rewrite Nat2Z.inj_succ, Z2Nat.id by apply Z.log2_nonneg.
    destruct (Z.eq_dec n 0) as [->|Hne]; [done|].
    apply Z.log2_spec. lia. }
  destruct (dec_aux_spec _ n EmptyString Hfuel) as (ds & Heq & Hall & Hv & Hne).
  rewrite Heq, string_app_nil_r.
  destruct ds as [|c ds]; [by destruct Hne|]. by exists c, ds.
Qed.

Lemma dec_fixed_spec (k : nat) :
  forall (n : Z) (acc : string),
    0 <= n ->
    exists ds, dec_fixed k n acc = ds ++ acc
      /\ String.length ds = k
      /\ all_digits ds = true
      /\ forall a, digits_value a ds = a * 10 ^ Z.of_nat k + n mod 10 ^ Z.of_nat k.
Proof.
  induction k as [|k IH]; intros n acc Hn.
  - exists EmptyString. simpl. repeat split. intros a. rewrite Z.mod_1_r. lia.
  - simpl dec_fixed. pose proof (Z.mod_pos_bound n 10 ltac:(lia)) as Hmod.
    destruct (digit_char_spec (n mod 10) Hmod) as [Hdig Hval].
    destruct (IH (n / 10) (String (digit_char (n mod 10)) acc)
                ltac:(apply Z.div_pos; lia)) as (ds & Heq & Hlen & Hall & Hv).
    exists (ds ++ String (digit_char (n mod 10)) EmptyString).
    split; [by rewrite Heq, string_app_assoc|].
    split; [rewrite string_length_app, Hlen; simpl; lia|].
    split; [by rewrite all_digits_app, Hall; simpl; rewrite Hdig|].
    intros a. rewrite digits_value_app, Hv. simpl digits_value. rewrite Hval.
    rewrite Nat2Z.inj_succ, Z.pow_succ_r by lia.
    rewrite (Z.rem_mul_r n 10 (10 ^ Z.of_nat k)) by lia. lia.
Qed.

(** *** The text of a double and its reading *)

Lemma is_digit_not_sign (c : ascii) : is_digit c = true -> is_sign c = false.
Proof.
  unfold is_digit, is_sign. intros H.
  destruct (Ascii.eqb_spec c "+") as [->|_]; [done|].
  destruct (Ascii.eqb_spec c "-") as [->|_]; done.
Qed.

Lemma is_digit_not_space (c : ascii) : is_digit c = true -> is_space c = false.
Proof.
  unfold is_digit, is_space. intros [H1 H2]%andb_true_iff.
  apply N.leb_le in H1, H2.
  destruct (N.eqb_spec (N_of_ascii c) 32) as [E|_]; [lia|]. simpl.
  destruct (N.leb_spec 9 (N_of_ascii c)); [|done].
  destruct (N.leb_spec (N_of_ascii c) 13); [lia|done].
Qed.

Lemma field_end_no_digit (rest : string) : field_end rest -> no_digit_ahead rest = true.
Proof. by intros [->|(rest' & ->)]. Qed.

Lemma field_end_exponent (rest : string) :
  field_end rest -> take_exponent rest = (Some 0, rest).
Proof. by intros [->|(rest' & ->)]. Qed.

Lemma take_sign_digit (ds rest : string) (c : ascii) (ds' : string) :
  ds = String c ds' -> is_digit c = true ->
  take_sign (ds ++ rest) = (false, ds ++ rest).
Proof.
  intros -> Hc. rewrite string_app_cons. simpl. by rewrite (is_digit_not_sign c Hc).
Qed.

Lemma skip_ws_digit (ds rest : string) (c : ascii) (ds' : string) :
  ds = String c ds' -> is_digit c = true ->
  skip_ws (ds ++ rest) = ds ++ rest.
Proof.
  intros -> Hc. rewrite string_app_cons. simpl. by rewrite (is_digit_not_space c Hc).
Qed.

Lemma dec_first (n : Z) :
  0 <= n ->
  exists c ds, dec n = String c ds /\ is_digit c = true /\ is_empty (dec n) = false.
Proof.
  intros Hn. destruct (dec_spec n Hn) as (c & ds & Hdec & Hall & _).
  exists c, ds. rewrite Hdec in Hall |- *. simpl in Hall.
  apply andb_true_iff in Hall as [Hc _]. done.
Qed.

Lemma num_get_int_to_string (z : Z) (rest : string) :
  0 <= z <= INT_MAX -> field_end rest ->
  num_get_int (to_string_int z ++ rest) = (z, rest, false)
  /\ skip_ws (to_string_int z ++ rest) = to_string_int z ++ rest
  /\ is_empty (to_string_int z ++ rest) = false.
Proof.
  intros Hz Hrest. unfold to_string_int.
  destruct (Z.ltb_spec z 0) as [Hneg|_]; [lia|].
  destruct (dec_spec z ltac:(lia)) as (_ & _ & _ & Hall & Hval).
  destruct (dec_first z ltac:(lia)) as (c & ds & Hdec & Hc & Hne).
  split; [|split].
  - unfold num_get_int. rewrite (take_sign_digit _ rest c ds Hdec Hc).
    rewrite (span_digits_app _ _ Hall (field_end_no_digit _ Hrest)).
    rewrite Hne, Hval.
    unfold INT_MIN, INT_MAX in *.
    destruct (Z.ltb_spec (0 * 10 ^ Z.of_nat (String.length (dec z)) + z) (-2147483648));
      [lia|].
    destruct (Z.ltb_spec 2147483647 (0 * 10 ^ Z.of_nat (String.length (dec z)) + z));
      [lia|].
    repeat f_equal; lia.
  - by apply (skip_ws_digit _ rest c ds).
  - by rewrite Hdec, string_app_cons.
Qed.

Lemma num_get_double_fixed6 (s : bool) (n : Z) (rest : string) :
  0 <= n -> field_end rest ->
  num_get_double (fixed6 s n ++ rest)
    = (fst (read_micro s n), rest, snd (read_micro s n))
  /\ skip_ws (fixed6 s n ++ rest) = fixed6 s n ++ rest
  /\ is_empty (fixed6 s n ++ rest) = false.
Proof.
  intros Hn Hrest.
  assert (Hip : 0 <= n / 1000000) by (apply Z.div_pos; lia).
  assert (Hfp : 0 <= n mod 1000000) by (apply Z.mod_pos_bound; lia).
  destruct (dec_spec _ Hip) as (_ & _ & _ & Hall & Hval).
  destruct (dec_first _ Hip) as (c & ds & Hdec & Hc & Hne).
  destruct (dec_fixed_spec 6 _ EmptyString Hfp) as (fp & Hfix & Hlen & Hfall & Hfval).
  rewrite string_app_nil_r in Hfix.
  set (ip := dec (n / 1000000)) in *.
  assert (Hbody : forall neg,
    (let '(ipart, s2) := span_digits ((ip ++ String "." fp) ++ rest) in
     let '(fpart, s3) :=
       match s2 with
       | String "." s2' => span_digits s2'
       | _ => (EmptyString, s2)
       end in
     if is_empty ipart && is_empty fpart then (Double.of_int 0, s3, true)
     else
       match take_exponent s3 with
       | (None, rest0) => (Double.of_int 0, rest0, true)
       | (Some ex, rest0) =>
           let m := digits_value (digits_value 0 ipart) fpart in
           let v := decimal_to_double neg m (ex - Z.of_nat (String.length fpart)) in
           match v with
           | S754_infinity sg =>
               (if sg then SFopp Double.max_value else Double.max_value, rest0, true)
           | _ => (v, rest0, false)
           end
       end)
    = (fst (read_micro neg n), rest, snd (read_micro neg n))).
  { intros neg. rewrite string_app_assoc, string_app_cons.
    rewrite (span_digits_app ip (String "." (fp ++ rest)) Hall eq_refl).
    rewrite (span_digits_app fp rest Hfall (field_end_no_digit _ Hrest)).
    rewrite Hne. simpl andb. cbv iota.
    rewrite (field_end_exponent rest Hrest). cbv zeta.
    rewrite Hval, Hfval, Hlen.
    replace ((0 * 10 ^ Z.of_nat (String.length ip) + n / 1000000) * 10 ^ Z.of_nat 6
             + (n mod 1000000) mod 10 ^ Z.of_nat 6) with n.
    2:{ change (10 ^ Z.of_nat 6) with 1000000.
        rewrite Z.mod_mod by lia. pose proof (Z.div_mod n 1000000 ltac:(lia)). lia. }
    change (0 - Z.of_nat 6) with (-6). unfold read_micro.
    by destruct (decimal_to_double neg n (-6)). }
  unfold fixed6. rewrite Hfix. fold ip.
  destruct s.
  - split; [|split]; [|done..].
    unfold num_get_double.
    change (take_sign (("-" ++ ip ++ String "." fp) ++ rest))
      with (true, (ip ++ String "." fp) ++ rest).
    cbv iota beta. apply Hbody.
  - rewrite string_app_nil_l. split; [|split].
    + unfold num_get_double. rewrite string_app_assoc.
      rewrite (take_sign_digit ip _ c ds Hdec Hc). rewrite <- string_app_assoc.
      cbv iota beta. apply Hbody.
    + rewrite string_app_assoc. by apply (skip_ws_digit ip _ c ds).
    + by rewrite Hdec, !string_app_cons.
Qed.

(** ** Rounding to binary64 *)

Lemma digits2_pos_size (p : positive) : digits2_pos p = Pos.size p.
Proof. induction p as [p IH|p IH|]; simpl; congruence. Qed.

Lemma Zdigits2_log2 (p : positive) : Zdigits2 (Z.pos p) = Z.log2 (Z.pos p) + 1.
Proof.
  simpl Zdigits2. rewrite digits2_pos_size.
  symmetry. apply Z.add_move_r. apply Z.log2_unique.
  - pose proof (Pos2Z.is_pos (Pos.size p)). lia.
  - pose proof (Pos.size_gt p) as Hgt. pose proof (Pos.size_le p) as Hle.
    apply Pos2Z.pos_lt_pos in Hgt. apply Pos2Z.pos_le_pos in Hle.
    rewrite Pos2Z.inj_pow in Hgt, Hle.
    change (Z.pos p~0) with (2 * Z.pos p) in Hle.
    replace (Z.succ (Z.pos (Pos.size p) - 1)) with (Z.pos (Pos.size p)) by lia.
    split; [|done].
    assert (Hpow : 2 ^ Z.pos (Pos.size p) = 2 * 2 ^ (Z.pos (Pos.size p) - 1)).
    { rewrite <- Z.pow_succ_r by lia. f_equal. lia. }
    lia.
Qed.

Lemma Zdigits2_nonneg (m : Z) : 0 <= Zdigits2 m.
Proof. destruct m; simpl; lia. Qed.

Lemma Zdigits2_bound (m : Z) : 0 <= m -> m < 2 ^ Zdigits2 m.
Proof.
  destruct m as [|p|p]; [done| |lia]. intros _.
  rewrite Zdigits2_log2. apply Z.log2_spec. lia.
Qed.

Lemma Zdigits2_le (m k : Z) : 0 <= k -> 0 <= m < 2 ^ k -> Zdigits2 m <= k.
Proof.
  intros Hk [Hm Hlt]. destruct m as [|p|p]; [done| |lia].
  rewrite Zdigits2_log2.
  pose proof (Z.log2_lt_pow2 (Z.pos p) k ltac:(lia)) as [H _]. specialize (H Hlt). lia.
Qed.

Lemma Zdigits2_shift (p : positive) (k : Z) :
  0 <= k -> Zdigits2 (Z.pos p * 2 ^ k) = Zdigits2 (Z.pos p) + k.
Proof.
  intros Hk.
  assert (Hpos : 0 < Z.pos p * 2 ^ k) by (apply Z.mul_pos_pos; lia).
  destruct (Z.pos p * 2 ^ k) as [|q|q] eqn:E; try lia.
  rewrite !Zdigits2_log2, <- E, Z.log2_mul_pow2 by lia. lia.
Qed.

(** *** Shifting the mantissa *)

Lemma iter_pos_nat {A : Type} (f : A -> A) (p : positive) (x : A) :
  SpecFloat.iter_pos f p x = Nat.iter (Pos.to_nat p) f x.
Proof.
  revert x. induction p as [p IH|p IH|]; intros x; simpl SpecFloat.iter_pos.
  - rewrite !IH, Pos2Nat.inj_xI. rewrite <- Nat.iter_add, <- Nat.iter_succ_r.
    f_equal. lia.
  - rewrite !IH, Pos2Nat.inj_xO. rewrite <- Nat.iter_add. f_equal. lia.
  - reflexivity.
Qed.

Lemma shr_1_m (mrs : shr_record) :
  0 <= shr_m mrs -> shr_m (shr_1 mrs) = shr_m mrs / 2.
Proof.
  destruct mrs as [m r s]. simpl. intros Hm.
  destruct m as [|[p|p|]|p]; simpl; try lia; try done.
  - rewrite Pos2Z.inj_xI. apply (Z.div_unique _ _ _ 1); lia.
  - rewrite Pos2Z.inj_xO. apply (Z.div_unique _ _ _ 0); lia.
Qed.

Lemma iter_shr_1_m (n : nat) (mrs : shr_record) :
  0 <= shr_m mrs ->
  shr_m (Nat.iter n shr_1 mrs) = shr_m mrs / 2 ^ Z.of_nat n.
Proof.
  intros Hm. induction n as [|n IH].
  - simpl. by rewrite Z.div_1_r.
  - rewrite Nat.iter_succ, shr_1_m, IH.
    + rewrite Nat2Z.inj_succ, Z.pow_succ_r by lia.
      rewrite Z.div_div by lia. f_equal. lia.
    + rewrite IH. apply Z.div_pos; lia.
Qed.

Lemma shr_1_exact (m : Z) :
  0 <= m ->
  shr_1 (Build_shr_record (2 * m) false false) = Build_shr_record m false false.
Proof. destruct m as [|p|p]; simpl; try done; lia. Qed.

Lemma iter_shr_1_exact (n : nat) (m : Z) :
  0 <= m ->
  Nat.iter n shr_1 (Build_shr_record (m * 2 ^ Z.of_nat n) false false)
  = Build_shr_record m false false.
Proof.
  intros Hm. revert m Hm. induction n as [|n IH]; intros m Hm.
  - simpl. by rewrite Z.mul_1_r.
  - rewrite Nat.iter_succ_r, Nat2Z.inj_succ, Z.pow_succ_r by lia.
    replace (m * (2 * 2 ^ Z.of_nat n)) with (2 * (m * 2 ^ Z.of_nat n)) by lia.
    rewrite shr_1_exact by (apply Z.mul_nonneg_nonneg; lia). by apply IH.
Qed.

(** The mantissa after [shr], and its exponent. *)
Lemma shr_spec (mrs : shr_record) (e n : Z) :
  0 <= shr_m mrs ->
  shr_m (fst (shr mrs e n)) = shr_m mrs / 2 ^ Z.max n 0
  /\ snd (shr mrs e n) = e + Z.max n 0.
Proof.
  intros Hm. destruct n as [|p|p]; simpl.
  - rewrite Z.div_1_r. split; [done | lia].
  - rewrite iter_pos_nat, iter_shr_1_m, positive_nat_Z by done. done.
  - rewrite Z.div_1_r. split; [done | lia].
Qed.

Lemma shr_exact (m e n : Z) :
  0 <= m -> 0 <= n ->
  shr (Build_shr_record (m * 2 ^ n) false false) e n
  = (Build_shr_record m false false, e + n).
Proof.
  intros Hm Hn. destruct n as [|p|p]; [| |lia].
  - simpl. rewrite Z.mul_1_r. f_equal. lia.
  - simpl shr. rewrite iter_pos_nat.
    rewrite <- (positive_nat_Z p) at 1. by rewrite iter_shr_1_exact.
Qed.

Lemma fexp_double (k : Z) :
  fexp Double.prec Double.emax k = Z.max (k - 53) (-1074).
Proof. reflexivity. Qed.

Lemma bounded_inv (m : positive) (e : Z) :
  bounded Double.prec Double.emax m e = true ->
  fexp Double.prec Double.emax (Zdigits2 (Z.pos m) + e) = e /\ e <= 971
  /\ Zdigits2 (Z.pos m) <= 53.
Proof.
  unfold bounded, canonical_mantissa. intros [Hc He]%andb_true_iff.
  apply Z.eqb_eq in Hc. apply Z.leb_le in He.
  change (Z.pos (digits2_pos m)) with (Zdigits2 (Z.pos m)) in Hc.
  split; [done|]. split; [done|]. rewrite fexp_double in Hc. lia.
Qed.

(** A mantissa with trailing zero bits rounds to itself. *)
Lemma binary_round_aux_exact (s : bool) (m : positive) (e k : Z) :
  bounded Double.prec Double.emax m e = true -> 0 <= k ->
  binary_round_aux Double.prec Double.emax s (Z.pos m * 2 ^ k) (e - k) loc_Exact
  = S754_finite s m e.
Proof.
  intros Hb Hk. destruct (bounded_inv m e Hb) as (Hcanon & He & _).
  unfold binary_round_aux, shr_fexp.
  rewrite (Zdigits2_shift m k Hk).
  replace (Zdigits2 (Z.pos m) + k + (e - k)) with (Zdigits2 (Z.pos m) + e) by lia.
  rewrite Hcanon. replace (e - (e - k)) with k by lia.
  change (shr_record_of_loc (Z.pos m * 2 ^ k) loc_Exact)
    with (Build_shr_record (Z.pos m * 2 ^ k) false false).
  rewrite (shr_exact (Z.pos m) (e - k) k ltac:(lia) Hk).
  cbv beta iota zeta.
  change (loc_of_shr_record (Build_shr_record (Z.pos m) false false)) with loc_Exact.
  change (shr_m (Build_shr_record (Z.pos m) false false)) with (Z.pos m).
  change (round_nearest_even (Z.pos m) loc_Exact) with (Z.pos m).
  replace (e - k + k) with e by lia. rewrite Hcanon, Z.sub_diag.
  change (shr (shr_record_of_loc (Z.pos m) loc_Exact) e 0)
    with (Build_shr_record (Z.pos m) false false, e).
  cbv beta iota zeta.
  change (shr_m (Build_shr_record (Z.pos m) false false)) with (Z.pos m).
  cbv iota. unfold Double.emax, Double.prec.
  destruct (Z.leb_spec e (1024 - 53)); [done | lia].
Qed.

Lemma div_eucl_div_mod (a b : Z) : Z.div_eucl a b = (a / b, a mod b).
Proof. unfold Z.div, Z.modulo. by destruct (Z.div_eucl a b). Qed.

(** The quotient handed to the rounding, for a positive [n] over [10^6]. *)
Lemma div_core_micro (n : Z) :
  0 < n ->
  exists k, 0 <= k
    /\ k = - Z.min (fexp Double.prec Double.emax (Zdigits2 n - 20)) 0
    /\ SFdiv_core_binary Double.prec Double.emax n 0 1000000 0
       = (n * 2 ^ k / 1000000, - k, new_location 1000000 ((n * 2 ^ k) mod 1000000)).
Proof.
  intros Hn.
  exists (- Z.min (fexp Double.prec Double.emax (Zdigits2 n - 20)) 0).
  split; [lia|]. split; [done|].
  unfold SFdiv_core_binary.
  change (Zdigits2 1000000) with 20. rewrite !Z.add_0_r.
  change (0 - 0) with 0.
  set (e' := Z.min (fexp Double.prec Double.emax (Zdigits2 n - 20)) 0).
  replace (0 - e') with (- e') by lia.
  assert (He' : 0 <= - e') by (unfold e'; lia).
  replace (match - e' with
           | 0 => n
           | Z.pos _ => Z.shiftl n (- e')
           | Z.neg _ => 0
           end) with (n * 2 ^ (- e')).
  2:{ destruct (- e') as [|p|p] eqn:E; [lia| |lia].
      by rewrite Z.shiftl_mul_pow2 by lia. }
  rewrite div_eucl_div_mod. do 2 f_equal. lia.
Qed.

Lemma decimal_to_double_micro (s : bool) (p : positive) :
  decimal_to_double s (Z.pos p) (-6)
  = let '(q, e', l) :=
      SFdiv_core_binary Double.prec Double.emax (Z.pos p) 0 1000000 0 in
    binary_round_aux Double.prec Double.emax s q e' l.
Proof. reflexivity. Qed.

(** A double that is an integer is read back as it was. *)
Lemma decimal_exact (s : bool) (m : positive) (e : Z) :
  bounded Double.prec Double.emax m e = true -> 0 <= e ->
  decimal_to_double s (Z.pos m * 2 ^ e * 1000000) (-6) = S754_finite s m e.
Proof.
  intros Hb He.
  assert (Hpos : 0 < Z.pos m * 2 ^ e * 1000000).
  { apply Z.mul_pos_pos; [|lia]. apply Z.mul_pos_pos; lia. }
  destruct (Z.pos m * 2 ^ e * 1000000) as [|p|p] eqn:E; [lia| |lia].
  rewrite decimal_to_double_micro.
  destruct (div_core_micro (Z.pos p) ltac:(lia)) as (k & Hk & _ & ->).
  rewrite <- E.
  replace (Z.pos m * 2 ^ e * 1000000 * 2 ^ k)
    with (Z.pos m * 2 ^ (e + k) * 1000000)
    by (rewrite Z.pow_add_r by lia; lia).
  rewrite Z.div_mul, Z.mod_mul by lia.
  change (new_location 1000000 0) with loc_Exact.
  replace (- k) with (e - (e + k)) by lia.
  apply binary_round_aux_exact; [done | lia].
Qed.

Lemma round_nearest_even_bounds (m : Z) (l : location) :
  m <= round_nearest_even m l <= m + 1.
Proof.
  destruct l as [|[]]; simpl; try lia. destruct (Z.even m); lia.
Qed.

Lemma shr_record_of_loc_m (m : Z) (l : location) : shr_m (shr_record_of_loc m l) = m.
Proof. by destruct l as [|[]]. Qed.

Lemma shr_fexp_spec (m e : Z) (l : location) :
  0 <= m ->
  let a := Z.max (fexp Double.prec Double.emax (Zdigits2 m + e) - e) 0 in
  shr_m (fst (shr_fexp Double.prec Double.emax m e l)) = m / 2 ^ a
  /\ snd (shr_fexp Double.prec Double.emax m e l) = e + a.
Proof.
  intros Hm a. unfold shr_fexp.
  pose proof (shr_spec (shr_record_of_loc m l) e
                (fexp Double.prec Double.emax (Zdigits2 m + e) - e)) as Hs.
  rewrite shr_record_of_loc_m in Hs. by apply Hs.
Qed.

(** A value below [2^1023] does not round to infinity. *)
Lemma binary_round_aux_finite (sx : bool) (mx ex : Z) (lx : location) :
  0 <= mx -> ex <= 970 -> Zdigits2 mx + ex <= 1023 ->
  finite_with_sign sx (binary_round_aux Double.prec Double.emax sx mx ex lx).
Proof.
  intros Hmx Hex HD. unfold binary_round_aux.
  destruct (shr_fexp_spec mx ex lx Hmx) as [Hm1 He1].
  destruct (shr_fexp Double.prec Double.emax mx ex lx) as [mrs1 e1].
  simpl fst in Hm1. simpl snd in He1.
  set (a := Z.max (fexp Double.prec Double.emax (Zdigits2 mx + ex) - ex) 0) in *.
  assert (Ha : 0 <= a) by (unfold a; lia).
  assert (Hm1pos : 0 <= shr_m mrs1) by (rewrite Hm1; apply Z.div_pos; lia).
  pose proof (round_nearest_even_bounds (shr_m mrs1) (loc_of_shr_record mrs1)) as Hr.
  set (m2 := round_nearest_even (shr_m mrs1) (loc_of_shr_record mrs1)) in *.
  assert (Hm2 : 0 <= m2) by lia.
  destruct (shr_fexp_spec m2 e1 loc_Exact Hm2) as [Hm3 He2].
  destruct (shr_fexp Double.prec Double.emax m2 e1 loc_Exact) as [mrs2 e2].
  simpl fst in Hm3. simpl snd in He2.
  assert (He1' : e1 <= 970).
  { rewrite He1. unfold a. rewrite fexp_double. lia. }
  assert (HD2 : Zdigits2 m2 + e1 <= 1024).
  { pose proof (Zdigits2_bound mx Hmx) as Hb.
    pose proof (Zdigits2_nonneg mx) as Hd0.
    destruct (Z.le_gt_cases a (Zdigits2 mx)) as [Hle|Hgt].
    - assert (shr_m mrs1 < 2 ^ (Zdigits2 mx - a)).
      { rewrite Hm1. apply Z.div_lt_upper_bound; [lia|].
        rewrite <- Z.pow_add_r by lia. by replace (a + (Zdigits2 mx - a))
          with (Zdigits2 mx) by lia. }
      assert (Zdigits2 m2 <= Zdigits2 mx - a + 1).
      { apply Zdigits2_le; [lia|]. split; [done|].
        rewrite Z.pow_add_r, Z.pow_1_r by lia. lia. }
      lia.
    - assert (shr_m mrs1 = 0).
      { rewrite Hm1. apply Z.div_small. split; [done|].
        apply (Z.lt_le_trans _ _ _ Hb). apply Z.pow_le_mono_r; lia. }
      assert (Zdigits2 m2 <= 1) by (apply Zdigits2_le; lia).
      lia. }
  assert (He2' : e2 <= 971).
  { rewrite He2, fexp_double. lia. }
  assert (Hm3pos : 0 <= shr_m mrs2) by (rewrite Hm3; apply Z.div_pos; lia).
  destruct (shr_m mrs2) as [|p|p]; [done| |lia].
  unfold Double.emax, Double.prec.
  destruct (Z.leb_spec e2 (1024 - 53)); [done | lia].
Qed.

Lemma div_round_even_bounds (num den : Z) :
  0 <= num -> 0 < den -> 0 <= div_round_even num den <= num / den + 1.
Proof.
  intros Hn Hd. unfold div_round_even.
  pose proof (Z.div_pos num den Hn Hd).
  destruct (2 * (num mod den) ?= den); [destruct (Z.even _)|..]; lia.
Qed.

Lemma micro_units_small (m : positive) (e : Z) :
  bounded Double.prec Double.emax m e = true -> e < 0 ->
  0 <= micro_units m e < 2 ^ 73.
Proof.
  intros Hb He. destruct (bounded_inv m e Hb) as (_ & _ & Hd).
  unfold micro_units. destruct (Z.leb_spec 0 e); [lia|].
  pose proof (div_round_even_bounds (Z.pos m * 1000000) (2 ^ (- e))
                ltac:(lia) ltac:(lia)) as Hr.
  pose proof (Zdigits2_bound (Z.pos m) ltac:(lia)) as Hm.
  assert (Z.pos m < 2 ^ 53).
  { apply (Z.lt_le_trans _ _ _ Hm). apply Z.pow_le_mono_r; lia. }
  assert (Z.pos m * 1000000 / 2 ^ (- e) <= Z.pos m * 1000000 / 2).
  { apply Z.div_le_compat_l; [lia|]. split; [lia|].
    change 2 with (2 ^ 1) at 1. apply Z.pow_le_mono_r; lia. }
  assert (Z.pos m * 1000000 / 2 < Z.pos m * 1000000).
  { apply Z.div_lt; lia. }
  change (2 ^ 73) with (2 ^ 53 * 2 ^ 20). lia.
Qed.

Lemma decimal_to_double_small (s : bool) (n : Z) :
  0 <= n < 2 ^ 73 -> finite_with_sign s (decimal_to_double s n (-6)).
Proof.
  intros [Hn Hlt]. destruct n as [|p|p]; [done| |lia].
  rewrite decimal_to_double_micro.
  destruct (div_core_micro (Z.pos p) ltac:(lia)) as (k & Hk & Hkdef & ->).
  assert (Hq : 0 <= Z.pos p * 2 ^ k / 1000000 < 2 ^ (73 + k)).
  { split; [apply Z.div_pos; lia|].
    apply Z.div_lt_upper_bound; [lia|]. rewrite Z.pow_add_r by lia.
    assert (0 < 2 ^ k) by lia. nia. }
  apply binary_round_aux_finite; [lia | lia |].
  pose proof (Zdigits2_le _ (73 + k) ltac:(lia) Hq). lia.
Qed.

(** ** The round trip of the codec *)

(** ** Reading a number back *)

Lemma read_micro_valid (s : bool) (m : positive) (e : Z) :
  bounded Double.prec Double.emax m e = true ->
  snd (read_micro s (micro_units m e)) = false
  /\ finite_with_sign s (fst (read_micro s (micro_units m e)))
  /\ (0 <= e -> fst (read_micro s (micro_units m e)) = S754_finite s m e).
Proof.
  intros Hb. destruct (Z.le_gt_cases 0 e) as [He|He].
  - unfold micro_units. destruct (Z.leb_spec 0 e); [|lia].
    unfold read_micro. by rewrite (decimal_exact s m e Hb He).
  - pose proof (decimal_to_double_small s _ (micro_units_small m e Hb He)) as Hf.
    unfold read_micro. split; [|split; [|lia]].
    + by destruct (decimal_to_double s (micro_units m e) (-6)).
    + by destruct (decimal_to_double s (micro_units m e) (-6)).
Qed.

(** What is read from the text of a valid number followed by a comma or by
    nothing: the number read back, no error, and the rest. *)
Lemma num_get_double_to_string (x : double) (rest : string) :
  valid_binary Double.prec Double.emax x = true -> Double.is_finite x = true ->
  field_end rest ->
  num_get_double (to_string_double x ++ rest) = (read_back x, rest, false)
  /\ skip_ws (to_string_double x ++ rest) = to_string_double x ++ rest
  /\ is_empty (to_string_double x ++ rest) = false.
Proof.
  intros Hv Hf Hrest.
  assert (Hgen : forall s n, 0 <= n -> snd (read_micro s n) = false ->
            num_get_double (fixed6 s n ++ rest) = (fst (read_micro s n), rest, false)
            /\ fst (fst (num_get_double (fixed6 s n))) = fst (read_micro s n)).
  { intros s n Hn Hok.
    destruct (num_get_double_fixed6 s n rest Hn Hrest) as (H1 & _).
    destruct (num_get_double_fixed6 s n "" Hn (or_introl eq_refl)) as (H2 & _).
    rewrite string_app_nil_r in H2. rewrite H1, H2, Hok. done. }
  destruct x as [s|s| |s m e]; try discriminate; simpl in Hv;
    unfold read_back, to_string_double.
  - destruct (Hgen s 0 ltac:(lia) eq_refl) as [H1 H2]. rewrite H2.
    destruct (num_get_double_fixed6 s 0 rest ltac:(lia) Hrest) as (_ & H3 & H4).
    done.
  - assert (Hn : 0 <= micro_units m e).
    { unfold micro_units. destruct (Z.leb_spec 0 e); [lia|].
      apply div_round_even_bounds; lia. }
    destruct (read_micro_valid s m e Hv) as (Hok & _).
    destruct (Hgen s _ Hn Hok) as [H1 H2]. rewrite H2.
    destruct (num_get_double_fixed6 s _ rest Hn Hrest) as (_ & H3 & H4).
    done.
Qed.

(** A valid number is read back as a number that the constructors keep. *)
Lemma read_back_kept (x : double) :
  valid_number x ->
  (if Double.leb (Double.of_int 0) (read_back x) then read_back x
   else Double.of_int 0) = read_back x.
Proof.
  intros (Hv & Hf & Hpos).
  destruct (num_get_double_to_string x "" Hv Hf (or_introl eq_refl)) as (Hnum & _).
  assert (Hle : Double.leb (Double.of_int 0) (read_back x) = true).
  { destruct x as [s|s| |s m e]; try discriminate.
    - unfold read_back, to_string_double.
      destruct (num_get_double_fixed6 s 0 "" ltac:(lia) (or_introl eq_refl)) as (H & _).
      rewrite string_app_nil_r in H. rewrite H. by destruct s.
    - assert (s = false) as -> by (by destruct s).
      assert (Hn : 0 <= micro_units m e).
      { unfold micro_units. destruct (Z.leb_spec 0 e); [lia|].
        apply div_round_even_bounds; lia. }
      unfold read_back, to_string_double.
      destruct (num_get_double_fixed6 false _ "" Hn (or_introl eq_refl)) as (H & _).
      rewrite string_app_nil_r in H. rewrite H. simpl fst.
      destruct (read_micro_valid false m e Hv) as (_ & Hsign & _).
      by destruct (fst (read_micro false (micro_units m e))) as [s|s| |s m' e'];
        try done; simpl in Hsign; subst. }
  by rewrite Hle.
Qed.

(** A double that is an integer, or zero, is read back as it is. *)
Lemma read_back_integer (x : double) :
  valid_binary Double.prec Double.emax x = true ->
  match x with
  | S754_zero _ => read_back x = x
  | S754_finite _ _ e => 0 <= e -> read_back x = x
  | _ => True
  end.
Proof.
  intros Hv. destruct x as [s|s| |s m e]; try done.
  - unfold read_back, to_string_double.
    destruct (num_get_double_fixed6 s 0 "" ltac:(lia) (or_introl eq_refl)) as (H & _).
    rewrite string_app_nil_r in H. by rewrite H.
  - intros He. simpl in Hv.
    assert (Hn : 0 <= micro_units m e).
    { unfold micro_units. destruct (Z.leb_spec 0 e); lia. }
    unfold read_back, to_string_double.
    destruct (num_get_double_fixed6 s _ "" Hn (or_introl eq_refl)) as (H & _).
    rewrite string_app_nil_r in H. rewrite H. simpl fst.
    by apply read_micro_valid.
Qed.

(** ** Reading the fields of a line *)

Lemma split_delim_field (delim : ascii) (tok rest : string) :
  contains delim tok = false ->
  split_delim delim (tok ++ String delim rest) = (tok, Some rest).
Proof.
  intros Hno. induction tok as [|c tok IH].
  - rewrite string_app_nil_l. simpl. by rewrite Ascii.eqb_refl.
  - simpl in Hno. apply orb_false_iff in Hno as [Hc Hno].
    rewrite string_app_cons. simpl. by rewrite Hc, (IH Hno).
Qed.

Lemma split_delim_last (delim : ascii) (tok : string) :
  contains delim tok = false -> split_delim delim tok = (tok, None).
Proof.
  intros Hno. induction tok as [|c tok IH]; [done|].
  simpl in Hno. apply orb_false_iff in Hno as [Hc Hno].
  simpl. by rewrite Hc, (IH Hno).
Qed.

Lemma getline_field (tok rest old : string) :
  contains comma tok = false ->
  getline comma old (mkStream (tok ++ String comma rest) false false)
  = (tok, mkStream rest false false).
Proof. intros Hno. unfold getline. simpl. by rewrite split_delim_field. Qed.

Lemma getline_last (tok old : string) :
  contains newline tok = false ->
  fst (getline newline old (mkStream tok false false)) = tok.
Proof. intros Hno. unfold getline. simpl. by rewrite split_delim_last. Qed.

Lemma extract_double_field (x old : double) (rest : string) :
  valid_binary Double.prec Double.emax x = true -> Double.is_finite x = true ->
  extract_double old (mkStream (to_string_double x ++ String comma rest) false false)
  = (read_back x, mkStream (String comma rest) false false).
Proof.
  intros Hv Hf.
  destruct (num_get_double_to_string x (String comma rest) Hv Hf)
    as (Hnum & Hws & Hne); [right; by eexists|].
  unfold extract_double, extract. simpl good. cbv iota. simpl buffer.
  rewrite Hws.
  destruct (to_string_double x ++ String comma rest) eqn:E; [done|].
  by rewrite Hnum.
Qed.

Lemma extract_int_field (z old : Z) (rest : string) :
  0 <= z <= INT_MAX ->
  extract_int old (mkStream (to_string_int z ++ String comma rest) false false)
  = (z, mkStream (String comma rest) false false).
Proof.
  intros Hz.
  destruct (num_get_int_to_string z (String comma rest) Hz)
    as (Hnum & Hws & Hne); [right; by eexists|].
  unfold extract_int, extract. simpl good. cbv iota. simpl buffer.
  rewrite Hws.
  destruct (to_string_int z ++ String comma rest) eqn:E; [done|].
  by rewrite Hnum.
Qed.

Lemma ignore1_comma (rest : string) :
  ignore1 (mkStream (String comma rest) false false) = mkStream rest false false.
Proof. reflexivity. Qed.

(** The line of a record, field after field. *)
Lemma PhysicalProduct_toCSV_fields (p : PhysicalProduct) :
  PhysicalProduct_toCSV p
  = "Physical" ++ String comma (sku (physical_base p) ++ String comma
      (name (physical_base p) ++ String comma
        (to_string_double (price (physical_base p)) ++ String comma
          (to_string_int (quantity (physical_base p)) ++ String comma
            (category (physical_base p) ++ String comma
              (to_string_double (weight p) ++ String comma (supplier p))))))).
Proof.
  unfold PhysicalProduct_toCSV, ProductBase_toCSV, sep.
  by rewrite !string_app_assoc, !string_app_cons, !string_app_nil_l.
Qed.

Lemma DigitalProduct_toCSV_fields (d : DigitalProduct) :
  DigitalProduct_toCSV d
  = "Digital" ++ String comma (sku (digital_base d) ++ String comma
      (name (digital_base d) ++ String comma
        (to_string_double (price (digital_base d)) ++ String comma
          (to_string_int (quantity (digital_base d)) ++ String comma
            (category (digital_base d) ++ String comma
              (downloadLink d ++ String comma
                (to_string_double (fileSizeMB d) ++ String comma
                   (licenseType d)))))))).
Proof.
  unfold DigitalProduct_toCSV, ProductBase_toCSV, sep.
  by rewrite !string_app_assoc, !string_app_cons, !string_app_nil_l.
Qed.

Lemma clamp_quantity (q : Z) : 0 <= q -> (if q >=? 0 then q else 0) = q.
Proof. intros Hq. destruct (Z.geb_spec q 0); [done | lia]. Qed.

Lemma PhysicalProduct_round_trip (u : Uninit) (p : PhysicalProduct) :
  valid_record (Physical p) ->
  contains comma (sku (physical_base p)) = false ->
  contains comma (name (physical_base p)) = false ->
  contains comma (category (physical_base p)) = false ->
  contains newline (supplier p) = false ->
  Physical (PhysicalProduct_fromCSV u (PhysicalProduct_toCSV p))
  = rounded (Physical p).
Proof.
  intros [[Hprice Hq] Hweight] Hsku Hname Hcat Hsup. simpl in *.
  rewrite PhysicalProduct_toCSV_fields. unfold PhysicalProduct_fromCSV, stream_of.
  rewrite (getline_field "Physical") by reflexivity. cbv beta iota zeta.
  rewrite getline_field by done. cbv beta iota zeta.
  rewrite getline_field by done. cbv beta iota zeta.
  rewrite extract_double_field by apply Hprice. cbv beta iota zeta.
  rewrite ignore1_comma.
  rewrite extract_int_field by done. cbv beta iota zeta.
  rewrite ignore1_comma.
  rewrite getline_field by done. cbv beta iota zeta.
  rewrite extract_double_field by apply Hweight. cbv beta iota zeta.
  rewrite ignore1_comma.
  pose proof (getline_last (supplier p) "" Hsup) as Hlast.
  destruct (getline newline "" (mkStream (supplier p) false false)) as [sup ss].
  simpl in Hlast. subst sup.
  unfold PhysicalProduct.make, ProductBase.make. simpl.
  unfold rounded_base.
  by rewrite !read_back_kept, clamp_quantity by (done || lia).
Qed.

Lemma DigitalProduct_round_trip (u : Uninit) (d : DigitalProduct) :
  valid_record (Digital d) ->
  contains comma (sku (digital_base d)) = false ->
  contains comma (name (digital_base d)) = false ->
  contains comma (category (digital_base d)) = false ->
  contains comma (downloadLink d) = false ->
  contains newline (licenseType d) = false ->
  Digital (DigitalProduct_fromCSV u (DigitalProduct_toCSV d))
  = rounded (Digital d).
Proof.
  intros [[Hprice Hq] Hsize] Hsku Hname Hcat Hlink Hlic. simpl in *.
  rewrite DigitalProduct_toCSV_fields. unfold DigitalProduct_fromCSV, stream_of.
  rewrite (getline_field "Digital") by reflexivity. cbv beta iota zeta.
  rewrite getline_field by done. cbv beta iota zeta.
  rewrite getline_field by done. cbv beta iota zeta.
  rewrite extract_double_field by apply Hprice. cbv beta iota zeta.
  rewrite ignore1_comma.
  rewrite extract_int_field by done. cbv beta iota zeta.
  rewrite ignore1_comma.
  rewrite getline_field by done. cbv beta iota zeta.
  rewrite getline_field by done. cbv beta iota zeta.
  rewrite extract_double_field by apply Hsize. cbv beta iota zeta.
  rewrite ignore1_comma.
  pose proof (getline_last (licenseType d) "" Hlic) as Hlast.
  destruct (getline newline "" (mkStream (licenseType d) false false)) as [lic ss].
  simpl in Hlast. subst lic.
  unfold DigitalProduct.make, ProductBase.make. simpl.
  unfold rounded_base.
  by rewrite !read_back_kept, clamp_quantity by (done || lia).
Qed.

Lemma type_tag_toCSV (o : Product) : type_tag (toCSV o) = getType o.
Proof.
  destruct o as [p|d]; simpl; unfold type_tag.
  - rewrite PhysicalProduct_toCSV_fields.
    by rewrite (split_delim_field comma "Physical").
  - rewrite DigitalProduct_toCSV_fields.
    by rewrite (split_delim_field comma "Digital").
Qed.

(** C4 (amended). For every valid record whose text fields contain no
    comma and whose last field (supplier, license type) contains no line
    feed, decoding the line that encodes it yields a record of the same
    variant with the same sku, name, category and variant-specific strings
    and the same quantity; the price and the variant's number are each the
    double read back from their text with six decimals, which is the number
    itself when it is an integer or zero. *)
Theorem csv_round_trip (u : Uninit) (o : Product) :
  valid_record o ->
  Forall (fun t => contains comma t = false) (text_fields o) ->
  contains newline (last_field o) = false ->
  exists o',
    decode u (toCSV o) = Some o'
    /\ o' = rounded o
    /\ getType o' = getType o
    /\ text_fields o' = text_fields o
    /\ getQuantity o' = getQuantity o
    /\ getPrice o' = read_back (getPrice o)
    /\ (integral (getPrice o) -> getPrice o' = getPrice o)
    /\ match o, o' with
       | Physical p, Physical p' =>
           weight p' = read_back (weight p)
           /\ (integral (weight p) -> weight p' = weight p)
       | Digital d, Digital d' =>
           fileSizeMB d' = read_back (fileSizeMB d)
           /\ (integral (fileSizeMB d) -> fileSizeMB d' = fileSizeMB d)
       | _, _ => False
       end.
Proof.
  intros Hvalid Htext Hlast. exists (rounded o).
  assert (Hint : forall x, valid_number x -> integral x -> read_back x = x).
  { intros x (Hv & _ & _) Hi. pose proof (read_back_integer x Hv) as H.
    destruct x; try done. by apply H. }
  split.
  - unfold decode. rewrite type_tag_toCSV.
    destruct o as [p|d]; simpl in Htext, Hlast |- *.
    + apply Forall_cons in Htext as [Hsku Htext].
      apply Forall_cons in Htext as [Hname Htext].
      apply Forall_cons in Htext as [Hcat _].
      by rewrite (PhysicalProduct_round_trip u p Hvalid Hsku Hname Hcat Hlast).
    + apply Forall_cons in Htext as [Hsku Htext].
      apply Forall_cons in Htext as [Hname Htext].
      apply Forall_cons in Htext as [Hcat Htext].
      apply Forall_cons in Htext as [Hlink _].
      by rewrite (DigitalProduct_round_trip u d Hvalid Hsku Hname Hcat Hlink Hlast).
  - destruct Hvalid as [[Hprice _] Hext].
    destruct o as [p|d]; simpl in *; repeat split; try done;
      intros Hi; by apply Hint.
Qed.

(** Without commas the round trip can still fail: a supplier that contains
    a line feed is cut at the line feed. *)
Lemma round_trip_counterexample :
  valid_record (Physical Examples.two_lines)
  /\ Forall (fun t => contains comma t = false) (text_fields (Physical Examples.two_lines))
  /\ exists o',
       decode Examples.junk (toCSV (Physical Examples.two_lines)) = Some o'
       /\ last_field o' = "Acme"
       /\ last_field o' <> last_field (Physical Examples.two_lines).
Proof.
  split; [|split].
  - repeat split; try reflexivity; try discriminate.
  - repeat constructor.
  - eexists. split; [by vm_compute|]. split; [reflexivity | discriminate].
Qed.

(** A physical record priced 9.99 and a digital record are decoded as
    they were. *)
Lemma csv_round_trip_witness :
  decode Examples.junk (toCSV (Physical Examples.widget))
  = Some (Physical Examples.widget)
  /\ decode Examples.junk (toCSV (Digital Examples.ebook))
     = Some (Digital Examples.ebook).
Proof.
  split.
  - destruct (csv_round_trip Examples.junk (Physical Examples.widget))
      as (o' & Hdec & -> & _).
    + repeat split; try reflexivity; try discriminate.
    + repeat constructor.
    + reflexivity.
    + rewrite Hdec. by vm_compute.
  - destruct (csv_round_trip Examples.junk (Digital Examples.ebook))
      as (o' & Hdec & -> & _).
    + repeat split; try reflexivity; try discriminate.
    + repeat constructor.
    + reflexivity.
    + rewrite Hdec. by vm_compute.
Defined.

(** Six decimals are kept and no more: 9.99 is read back as it is, and
    0.1234567 as the double of 0.123457. *)
Example read_back_examples :
  read_back (fst (fst (num_get_double "9.99"))) = fst (fst (num_get_double "9.99"))
  /\ read_back (fst (fst (num_get_double "0.1234567")))
     = fst (fst (num_get_double "0.123457")).
Proof. split; by vm_compute. Qed.

(** ** The invariant of the store *)

Lemma is_Some_sku_at (h : Heap) (p : Ptr) :
  is_Some (deref h p) <-> is_Some (sku_at h p).
Proof. unfold sku_at. by rewrite fmap_is_Some. Qed.

(** Consistency only depends on the skus read through the sequence. *)
Lemma consistent_ext (h h' : Heap) (inv inv' : Inventory) :
  products inv' = products inv -> skuIndex inv' = skuIndex inv ->
  (forall p, p ∈ products inv -> sku_at h' p = sku_at h p) ->
  consistent h inv -> consistent h' inv'.
Proof.
  intros Hp Hi Hext (Hlive & Hnd & Hidx). unfold consistent. rewrite Hp, Hi.
  split; [|split].
  - apply Forall_forall. intros p Hin. apply is_Some_sku_at. rewrite (Hext p Hin).
    apply is_Some_sku_at. by apply (proj1 (Forall_forall _ _) Hlive).
  - replace (sku_at h' <$> products inv) with (sku_at h <$> products inv); [done|].
    apply list_fmap_ext. intros i p Hi'. symmetry. apply Hext.
    by apply list_elem_of_lookup_2 in Hi'.
  - intros s p. rewrite Hidx. split; intros [Hin Hs]; (split; [done|]).
    + by rewrite (Hext p Hin).
    + by rewrite <- (Hext p Hin).
Qed.

Lemma sku_at_insert_ne (h : Heap) (a : addr) (o : Product) (p : Ptr) :
  p <> Some a -> sku_at (<[a := o]> h) p = sku_at h p.
Proof.
  intros Hne. destruct p as [b|]; [|done]. unfold sku_at. simpl.
  rewrite lookup_insert_ne; [done | congruence].
Qed.

Lemma sku_at_delete_ne (h : Heap) (a : addr) (p : Ptr) :
  p <> Some a -> sku_at (delete a h) p = sku_at h p.
Proof.
  intros Hne. destruct p as [b|]; [|done]. unfold sku_at. simpl.
  rewrite lookup_delete_ne; [done | congruence].
Qed.

Lemma consistent_live (h : Heap) (inv : Inventory) (p : Ptr) :
  consistent h inv -> p ∈ products inv -> is_Some (deref h p).
Proof. intros (Hlive & _) Hin. by apply (proj1 (Forall_forall _ _) Hlive). Qed.

Lemma new_consistent (h : Heap) (inv : Inventory) (o : Product) :
  consistent h inv -> consistent (snd (new o h)) inv.
Proof.
  intros Hc. destruct (new_fresh o h) as (a & Hnew & Hfresh). rewrite Hnew. simpl.
  apply (consistent_ext h _ inv); [done..| |done].
  intros p Hin. apply sku_at_insert_ne. intros ->.
  destruct (consistent_live h inv _ Hc Hin) as [o' Ho']. simpl in Ho'. congruence.
Qed.

Lemma discard_consistent (h : Heap) (inv : Inventory) (a : addr) :
  Some a ∉ products inv -> consistent h inv -> consistent (delete a h) inv.
Proof.
  intros Hnot Hc. apply (consistent_ext h _ inv); [done..| |done].
  intros p Hin. apply sku_at_delete_ne. by intros ->.
Qed.

Lemma updateProduct_consistent (h h' : Heap) (inv : Inventory) (s n : string)
    (pr : double) (q : Z) (b : bool) :
  consistent h inv -> updateProduct h inv s n pr q = Some (b, h') ->
  consistent h' inv.
Proof.
  intros Hc Hupd. unfold updateProduct in Hupd.
  destruct (getProduct inv s) as [a|]; [|by injection Hupd as <- <-].
  destruct (h !! a) as [o|] eqn:Ho; [|done]. injection Hupd as <- <-.
  apply (consistent_ext h _ inv); [done..| |done].
  intros p _. destruct (decide (p = Some a)) as [->|Hne].
  - unfold sku_at. simpl. rewrite lookup_insert_eq, Ho. simpl. f_equal.
    apply (updated_fields n pr q o).
  - by apply sku_at_insert_ne.
Qed.

Lemma sort_with_consistent (op : sort_op) (h : Heap) (inv inv' : Inventory) :
  consistent h inv -> sort_with (comparator op) h inv inv' -> consistent h inv'.
Proof.
  intros (Hlive & Hnd & _) Hsort. destruct Hsort as [l' inv1 Hsort Hre].
  pose proof (std_sort_perm _ _ _ _ Hsort) as Hperm.
  refine (rebuildIndex_Some_consistent h _ _ _ _ Hre); simpl;
    by rewrite <- Hperm.
Qed.

Lemma clearAll_consistent (h : Heap) (inv : Inventory) (st' : Heap * Inventory) :
  clearAll h inv = Some st' -> consistent (fst st') (snd st').
Proof.
  unfold clearAll. destruct (delete_all (products inv) h) as [h'|]; [|done].
  intros [= <-]. simpl. apply consistent_new.
Qed.

Lemma load_line_consistent (u : Uninit) (line : string) (st st' : Heap * Inventory) :
  consistent (fst st) (snd st) -> load_line u line st = Some st' ->
  consistent (fst st') (snd st').
Proof.
  destruct st as [h inv]. simpl. intros Hc. unfold load_line.
  destruct (is_empty line || starts_with_hash line); [by intros [= <-]|].
  unfold make_product.
  destruct (String.eqb (type_tag line) "Physical");
    [|destruct (String.eqb (type_tag line) "Digital"); [|by intros [= <-]]].
  - pose proof (new_consistent h inv (Physical (PhysicalProduct_fromCSV u line)) Hc)
      as Hc'.
    destruct (new_fresh (Physical (PhysicalProduct_fromCSV u line)) h) as (a & Hnew & _).
    rewrite Hnew in Hc' |- *. simpl snd in Hc'. cbv iota beta.
    destruct (addProduct _ inv (Some a)) as [[b inv1]|] eqn:E; [|done].
    intros [= <-]. simpl. by apply (addProduct_consistent _ inv inv1 (Some a) b).
  - pose proof (new_consistent h inv (Digital (DigitalProduct_fromCSV u line)) Hc)
      as Hc'.
    destruct (new_fresh (Digital (DigitalProduct_fromCSV u line)) h) as (a & Hnew & _).
    rewrite Hnew in Hc' |- *. simpl snd in Hc'. cbv iota beta.
    destruct (addProduct _ inv (Some a)) as [[b inv1]|] eqn:E; [|done].
    intros [= <-]. simpl. by apply (addProduct_consistent _ inv inv1 (Some a) b).
Qed.

Lemma load_lines_consistent (u : Uninit) (lines : list string) :
  forall st st', consistent (fst st) (snd st) -> load_lines u lines st = Some st' ->
  consistent (fst st') (snd st').
Proof.
  induction lines as [|line lines IH]; intros st st' Hc; simpl.
  - by intros [= <-].
  - destruct (load_line u line st) as [st1|] eqn:E; [|done].
    apply IH. by apply (load_line_consistent u line st).
Qed.

Lemma loadFromFile_consistent (u : Uninit) (fs : Files) (h : Heap) (inv : Inventory)
    (b : bool) (st' : Heap * Inventory) :
  consistent h inv -> loadFromFile u fs h inv = Some (b, st') ->
  consistent (fst st') (snd st').
Proof.
  intros Hc. unfold loadFromFile.
  destruct (fs !! dataFilePath inv) as [content|]; [|by intros [= <- <-]].
  destruct (clearAll h inv) as [st|] eqn:Hclear; [|done].
  destruct (load_lines u (file_lines content) st) as [st1|] eqn:Hload; [|done].
  intros [= <- <-]. apply (load_lines_consistent u (file_lines content) st); [|done].
  by apply (clearAll_consistent h inv).
Qed.

Lemma elem_of_remove_nth {A : Type} (l : list A) (i : nat) (p q : A) :
  NoDup l -> l !! i = Some p ->
  q ∈ (take i l ++ drop (S i) l)%list <-> q ∈ l /\ q <> p.
Proof.
  revert i. induction l as [|x l IH]; intros i Hnd Hi; [by rewrite lookup_nil in Hi|].
  apply NoDup_cons in Hnd as [Hx Hnd]. destruct i as [|i]; simpl in *.
  - injection Hi as ->. rewrite drop_0, elem_of_cons. split.
    + intros Hq. split; [by right|]. by intros ->.
    + by intros [[->|Hq] Hne].
  - rewrite !elem_of_cons, (IH i Hnd Hi). split.
    + intros [->|[Hq Hne]]; [|by split; [right|]].
      split; [by left|]. intros ->. apply Hx. by apply list_elem_of_lookup_2 in Hi.
    + intros [[->|Hq] Hne]; [by left | by right].
Qed.

Lemma find_sku_spec (h : Heap) (s : string) (ps : list Ptr) :
  Forall (fun p => is_Some (deref h p)) ps ->
  match find_sku h s ps with
  | Some (Some i) => exists p, ps !! i = Some p /\ sku_at h p = Some s
  | Some None => forall p, p ∈ ps -> sku_at h p <> Some s
  | None => False
  end.
Proof.
  induction 1 as [|p ps [o Ho] _ IH]; simpl.
  - intros p Hp. by apply elem_of_nil in Hp.
  - rewrite Ho. destruct (String.eqb_spec (getSku o) s) as [Hs|Hs].
    + exists p. split; [done|]. unfold sku_at. by rewrite Ho; simpl; rewrite Hs.
    + destruct (find_sku h s ps) as [[i|]|]; [done| |done].
      intros q [->|Hq]%elem_of_cons; [|by apply IH].
      unfold sku_at. rewrite Ho. simpl. congruence.
Qed.

Lemma removeProduct_consistent (h h' : Heap) (inv inv' : Inventory) (s : string)
    (b : bool) :
  consistent h inv -> removeProduct h inv s = Some (b, h', inv') ->
  consistent h' inv'.
Proof.
  intros Hc Hrem. unfold removeProduct in Hrem.
  destruct (skuIndex inv !! s) as [p0|] eqn:Hidx0; [|by injection Hrem as <- <- <-].
  pose proof Hc as (Hlive & Hnd & Hidx).
  pose proof (find_sku_spec h s (products inv) Hlive) as Hfind.
  apply Hidx in Hidx0 as [Hin0 Hs0].
  destruct (find_sku h s (products inv)) as [[i|]|]; [| |done].
  2:{ exfalso. by apply (Hfind p0). }
  destruct Hfind as (p & Hi & Hsp). rewrite Hi in Hrem.
  destruct (sku_at_inv h p s Hsp) as (a & o & -> & Ho & Hsku).
  simpl in Hrem. rewrite Ho in Hrem. injection Hrem as <- <- <-.
  assert (Hndl : NoDup (products inv)) by by apply NoDup_fmap_1 in Hnd.
  pose proof (elem_of_remove_nth (products inv) i (Some a)) as Hmem.
  assert (Hext : forall q, q ∈ (take i (products inv) ++ drop (S i) (products inv))%list ->
                   sku_at (delete a h) q = sku_at h q).
  { intros q Hq. apply sku_at_delete_ne. by apply (Hmem q Hndl Hi). }
  split; [|split]; simpl.
  - apply Forall_forall. intros q Hq. apply is_Some_sku_at. rewrite (Hext q Hq).
    apply is_Some_sku_at. apply (proj1 (Forall_forall _ _) Hlive).
    by apply (Hmem q Hndl Hi).
  - replace (sku_at (delete a h) <$> (take i (products inv) ++ drop (S i) (products inv))%list)
      with (sku_at h <$> (take i (products inv) ++ drop (S i) (products inv))%list).
    2:{ apply list_fmap_ext. intros j q Hj. symmetry. apply Hext.
        by apply list_elem_of_lookup_2 in Hj. }
    rewrite <- delete_take_drop.
    apply (sublist_NoDup _ (sku_at h <$> products inv)); [exact Hnd|].
    rewrite list_fmap_delete. apply sublist_delete.
  - intros s' q. split.
    + intros Hl. apply lookup_delete_Some in Hl as [Hne Hl].
      apply Hidx in Hl as [Hq Hsq].
      assert (q ∈ (take i (products inv) ++ drop (S i) (products inv))%list) as Hq'.
      { apply (Hmem q Hndl Hi). split; [done|]. intros ->. congruence. }
      split; [done|]. by rewrite (Hext q Hq').
    + intros [Hq Hsq]. rewrite (Hext q Hq) in Hsq.
      apply (Hmem q Hndl Hi) in Hq as [Hq Hne].
      apply lookup_delete_Some. split; [|by apply Hidx].
      intros <-. apply Hne.
      apply list_elem_of_lookup_1 in Hq as [j Hj].
      assert (j = i) as ->; [|congruence].
      by apply (consistent_unique h inv j i q (Some a) s Hc).
Qed.

Lemma step_consistent (st st' : Heap * Inventory) :
  step st st' -> consistent (fst st) (snd st) -> consistent (fst st') (snd st').
Proof.
  intros Hstep. destruct Hstep; simpl; intros Hc.
  - by apply new_consistent.
  - by apply discard_consistent.
  - by apply (addProduct_consistent h inv inv' p b).
  - by apply (removeProduct_consistent h h' inv inv' s b).
  - by apply (updateProduct_consistent h h' inv s n pr q b).
  - by apply (sort_with_consistent op h inv).
  - by apply (clearAll_consistent h inv).
  - by apply (loadFromFile_consistent u fs h inv b).
  - by apply (consistent_ext h h inv).
Qed.

Lemma steps_consistent (st st' : Heap * Inventory) :
  rtc step st st' -> consistent (fst st) (snd st) -> consistent (fst st') (snd st').
Proof.
  induction 1 as [|x y z Hstep _ IH]; [done|].
  intros Hc. apply IH. by apply (step_consistent x y).
Qed.

(** X7. In every state reached from the empty inventory by the operations of
    the store, the sequence holds live records with pairwise distinct skus
    and the index maps exactly their skus to them. *)
Lemma reachable_consistent (st : Heap * Inventory) :
  reachable st -> consistent (fst st) (snd st).
Proof.
  intros [path Hrtc]. apply (steps_consistent _ _ Hrtc). apply consistent_new.
Qed.

(** ** Lookup, removal and clearing *)

Lemma consistent_index_Some (h : Heap) (inv : Inventory) (s : string) :
  consistent h inv -> in_store h inv s ->
  exists a o, skuIndex inv !! s = Some (Some a : Ptr) /\ Some a ∈ products inv
              /\ h !! a = Some o /\ getSku o = s.
Proof.
  intros Hc (p & Hin & Hs). pose proof Hc as (_ & _ & Hidx).
  destruct (sku_at_inv h p s Hs) as (a & o & -> & Ho & Hsku).
  exists a, o. split; [|done]. by apply Hidx.
Qed.

(** X1. On a consistent inventory [getProduct] returns the record that has the
    sku, and [nullptr] when no record has it; [skuExists] tells which. *)
Theorem getProduct_spec (h : Heap) (inv : Inventory) (s : string) :
  consistent h inv ->
  (in_store h inv s ->
     exists a o, getProduct inv s = Some a /\ Some a ∈ products inv
                 /\ h !! a = Some o /\ getSku o = s /\ skuExists inv s = true)
  /\ (~ in_store h inv s -> getProduct inv s = nullptr /\ skuExists inv s = false).
Proof.
  intros Hc. split.
  - intros Hin. destruct (consistent_index_Some h inv s Hc Hin) as (a & o & Hi & Hp & Ho & Hs).
    exists a, o. unfold getProduct, skuExists. rewrite Hi.
    split; [done|]. split; [done|]. split; [done|]. split; [done|].
    by apply bool_decide_eq_true.
  - intros Hn%(consistent_index_None h inv s Hc). unfold getProduct, skuExists.
    rewrite Hn. split; [done|]. apply bool_decide_eq_false. by intros [x Hx].
Qed.

Lemma find_sku_first (h : Heap) (s : string) (ps : list Ptr) (i : nat) (p : Ptr) :
  Forall (fun p => is_Some (deref h p)) ps -> NoDup (sku_at h <$> ps) ->
  ps !! i = Some p -> sku_at h p = Some s -> find_sku h s ps = Some (Some i).
Proof.
  intros Hlive Hnd Hi Hs. pose proof (find_sku_spec h s ps Hlive) as Hf.
  destruct (find_sku h s ps) as [[j|]|]; [| |done].
  - destruct Hf as (q & Hj & Hq). do 2 f_equal.
    apply (NoDup_lookup _ j i (Some s) Hnd); rewrite list_lookup_fmap.
    + by rewrite Hj; simpl; rewrite Hq.
    + by rewrite Hi; simpl; rewrite Hs.
  - exfalso. apply (Hf p); [|done]. by apply list_elem_of_lookup_2 in Hi.
Qed.

Lemma removeProduct_found (h : Heap) (inv : Inventory) (s : string) (i : nat)
    (a : addr) :
  consistent h inv -> products inv !! i = Some (Some a : Ptr) ->
  sku_at h (Some a) = Some s ->
  removeProduct h inv s
  = Some (true, delete a h,
          mkInventory (take i (products inv) ++ drop (S i) (products inv))
            (delete s (skuIndex inv)) (dataFilePath inv)).
Proof.
  intros Hc Hi Hs. pose proof Hc as (Hlive & Hnd & Hidx).
  destruct (sku_at_inv h _ s Hs) as (a' & o & [= <-] & Ho & Hsku).
  assert (Hin : Some a ∈ products inv) by by apply list_elem_of_lookup_2 in Hi.
  assert (Hix : skuIndex inv !! s = Some (Some a : Ptr)) by by apply Hidx.
  pose proof (find_sku_first h s (products inv) i (Some a) Hlive Hnd Hi Hs) as Hf.
  unfold removeProduct. rewrite Hix, Hf, Hi. simpl. by rewrite Ho.
Qed.

(** X2. [removeProduct] of a sku that no record has returns failure and changes
    nothing.  Of the sku of a record it returns success: that object is
    freed, its pointer leaves the sequence (the others keep their order),
    the sku is no longer found, every other lookup is as before, and the
    inventory stays consistent. *)
Theorem removeProduct_spec (h : Heap) (inv : Inventory) (s : string) :
  consistent h inv ->
  (~ in_store h inv s -> removeProduct h inv s = Some (false, h, inv))
  /\ (forall (i : nat) (p : Ptr),
        products inv !! i = Some p -> sku_at h p = Some s ->
        exists a inv',
          p = Some a
          /\ removeProduct h inv s = Some (true, delete a h, inv')
          /\ products inv' = delete i (products inv)
          /\ skuExists inv' s = false
          /\ getProductCount inv' = pred (getProductCount inv)
          /\ (forall s', s' <> s -> getProduct inv' s' = getProduct inv s')
          /\ consistent (delete a h) inv').
Proof.
  intros Hc. split.
  - intros Hn%(consistent_index_None h inv s Hc). unfold removeProduct. by rewrite Hn.
  - intros i p Hi Hs.
    destruct (sku_at_inv h p s Hs) as (a & o & -> & Ho & Hsku).
    pose proof (removeProduct_found h inv s i a Hc Hi Hs) as Hrem.
    eexists a, _. split; [done|]. split; [exact Hrem|]. simpl.
    split; [by rewrite delete_take_drop|]. split; [|split; [|split]].
    + unfold skuExists. simpl. apply bool_decide_eq_false.
      rewrite lookup_delete_eq. by intros [x Hx].
    + unfold getProductCount. simpl. rewrite <- delete_take_drop.
      rewrite length_delete; [lia|by eexists].
    + intros s' Hne. unfold getProduct. simpl. by rewrite lookup_delete_ne.
    + by apply (removeProduct_consistent h _ inv _ s true Hc Hrem).
Qed.

(** X3. Adding a record and then removing its sku gives the inventory back as
    it was, and frees the record. *)
Theorem add_then_remove (h : Heap) (inv : Inventory) (a : addr) (o : Product) :
  consistent h inv -> h !! a = Some o -> ~ in_store h inv (getSku o) ->
  exists inv1,
    addProduct h inv (Some a) = Some (true, inv1)
    /\ removeProduct h inv1 (getSku o) = Some (true, delete a h, inv).
Proof.
  intros Hc Ho Hn. pose proof (proj2 (consistent_index_None h inv _ Hc) Hn) as Hix.
  pose proof (addProduct_fresh h inv a o Ho Hix) as Hadd.
  eexists. split; [exact Hadd|].
  destruct (addProduct_consistent h inv _ (Some a) true Hc Hadd) as [Hc1 _].
  rewrite (removeProduct_found h _ (getSku o) (length (products inv)) a Hc1).
  - simpl. rewrite take_app_length.
    rewrite drop_ge by (rewrite length_app; simpl; lia).
    rewrite app_nil_r, delete_insert_id by done. by destruct inv.
  - simpl. by rewrite list_lookup_middle.
  - by apply sku_at_Some.
Qed.

Lemma delete_all_spec (h : Heap) (ps : list Ptr) :
  Forall (fun p => is_Some (deref h p)) ps -> NoDup ps ->
  exists h', delete_all ps h = Some h'
    /\ forall a, h' !! a = if bool_decide (Some a ∈ ps) then None else h !! a.
Proof.
  revert h. induction ps as [|p ps IH]; intros h Hlive Hnd.
  - exists h. split; [done|]. intros a. rewrite bool_decide_eq_false_2; [done|].
    apply not_elem_of_nil.
  - apply Forall_cons in Hlive as [[o Ho] Hlive]. apply NoDup_cons in Hnd as [Hp Hnd].
    destruct p as [b|]; [|done]. simpl in Ho. simpl. rewrite Ho.
    destruct (IH (delete b h)) as (h' & Hdel & Hh'); [|done|].
    { apply Forall_forall. intros q Hq.
      destruct q as [c|]; [|by apply (proj1 (Forall_forall _ _) Hlive) in Hq].
      simpl. rewrite lookup_delete_ne; [|by intros ->].
      by apply (proj1 (Forall_forall _ _) Hlive) in Hq. }
    exists h'. split; [done|]. intros a. rewrite Hh'.
    destruct (decide (a = b)) as [->|Hne].
    + rewrite lookup_delete_eq. rewrite (bool_decide_eq_true_2 (Some b ∈ Some b :: ps));
        [|by left]. by destruct (bool_decide _).
    + rewrite lookup_delete_ne by done.
      destruct (bool_decide (Some a ∈ ps)) eqn:E.
      * apply bool_decide_eq_true in E. rewrite bool_decide_eq_true_2; [done|by right].
      * apply bool_decide_eq_false in E. rewrite bool_decide_eq_false_2; [done|].
        by intros [[= ->]|?]%elem_of_cons.
Qed.

(** X4. [clearAll] (and with it the destructor) on a consistent inventory frees every record of the
    sequence exactly once and nothing else, and leaves the empty
    inventory with the same file path. *)
Theorem clearAll_spec (h : Heap) (inv : Inventory) :
  consistent h inv ->
  exists h',
    clearAll h inv = Some (h', Inventory_new (dataFilePath inv))
    /\ (forall a, h' !! a = if bool_decide (Some a ∈ products inv) then None else h !! a)
    /\ (forall s, skuExists (Inventory_new (dataFilePath inv)) s = false)
    /\ getTotalValue h' (Inventory_new (dataFilePath inv)) = Some (Double.of_int 0).
Proof.
  intros (Hlive & Hnd & _). apply NoDup_fmap_1 in Hnd.
  destruct (delete_all_spec h (products inv) Hlive Hnd) as (h' & Hdel & Hh').
  exists h'. unfold clearAll. rewrite Hdel. split; [done|]. split; [done|].
  split; [|done]. intros s. apply bool_decide_eq_false. simpl. rewrite lookup_empty.
  by intros [x Hx].
Qed.


Lemma total_from_live (h : Heap) (ps : list Ptr) (t : double) :
  Forall (fun p => is_Some (deref h p)) ps -> is_Some (total_from h ps t).
Proof.
  intros Hlive. revert t. induction Hlive as [|p ps [o Ho] _ IH]; intros t; simpl.
  - by eexists.
  - rewrite Ho. apply IH.
Qed.


(** X6. A sort changes neither what a lookup returns nor the number of
    records: the index after the sort is the index before it. *)
Theorem sort_keeps_lookup (op : sort_op) (h : Heap) (inv inv' : Inventory) :
  consistent h inv -> sort_with (comparator op) h inv inv' ->
  skuIndex inv' = skuIndex inv
  /\ (forall s, getProduct inv' s = getProduct inv s)
  /\ (forall s, skuExists inv' s = skuExists inv s)
  /\ getProductCount inv' = getProductCount inv
  /\ dataFilePath inv' = dataFilePath inv.
Proof.
  intros Hc Hsort. pose proof (sort_with_consistent op h inv inv' Hc Hsort) as Hc'.
  destruct Hsort as [l' inv1 Hsort Hre].
  pose proof (std_sort_perm _ _ _ _ Hsort) as Hperm.
  pose proof (rebuildIndex_products _ _ _ Hre) as Hprod. simpl in Hprod.
  assert (Hidx : skuIndex inv1 = skuIndex inv).
  { apply map_eq. intros s. apply option_eq. intros p.
    destruct Hc as (_ & _ & Hi), Hc' as (_ & _ & Hi').
    rewrite Hi, Hi', Hprod. by rewrite <- Hperm. }
  split; [done|]. unfold getProduct, skuExists, getProductCount. rewrite Hidx, Hprod.
  split; [done|]. split; [done|]. split; [by rewrite <- Hperm|].
  unfold rebuildIndex in Hre. simpl in Hre.
  destruct (rebuild_from h l' ∅); [|done]. by injection Hre as <-.
Qed.

(** *** The properties on the example inventory *)

Lemma in_store_invABC_B : in_store Examples.heapABC Examples.invABC "B".
Proof.
  exists Examples.pB. split; [|reflexivity].
  simpl; repeat first [apply list_elem_of_here | apply list_elem_of_further].
Qed.

Lemma not_in_store_invABC_Z : ~ in_store Examples.heapABC Examples.invABC "Z".
Proof.
  intros (p & Hin & Hs).
  apply elem_of_cons in Hin as [->|Hin]; [discriminate|].
  apply elem_of_cons in Hin as [->|Hin]; [discriminate|].
  apply elem_of_cons in Hin as [->|Hin]; [discriminate|].
  by apply elem_of_nil in Hin.
Qed.

(** [B] is found, [Z] is not. *)
Lemma getProduct_spec_witness :
  (exists a o, getProduct Examples.invABC "B" = Some a
               /\ Some a ∈ products Examples.invABC
               /\ Examples.heapABC !! a = Some o /\ getSku o = "B"
               /\ skuExists Examples.invABC "B" = true)
  /\ getProduct Examples.invABC "Z" = nullptr
  /\ skuExists Examples.invABC "Z" = false.
Proof.
  split.
  - exact (proj1 (getProduct_spec Examples.heapABC Examples.invABC "B"
                    consistent_invABC) in_store_invABC_B).
  - exact (proj2 (getProduct_spec Examples.heapABC Examples.invABC "Z"
                    consistent_invABC) not_in_store_invABC_Z).
Defined.

(** Removing [Z] fails; removing [B] frees it and leaves [A; C]. *)
Lemma removeProduct_spec_witness :
  removeProduct Examples.heapABC Examples.invABC "Z"
  = Some (false, Examples.heapABC, Examples.invABC)
  /\ exists a inv',
       Examples.pB = Some a
       /\ removeProduct Examples.heapABC Examples.invABC "B"
          = Some (true, delete a Examples.heapABC, inv')
       /\ products inv' = [Examples.pA; Examples.pC]
       /\ skuExists inv' "B" = false.
Proof.
  split.
  - exact (proj1 (removeProduct_spec Examples.heapABC Examples.invABC "Z"
                    consistent_invABC) not_in_store_invABC_Z).
  - destruct (proj2 (removeProduct_spec Examples.heapABC Examples.invABC "B"
                       consistent_invABC) 1%nat Examples.pB eq_refl eq_refl)
      as (a & inv' & Ha & Hrem & Hp & Hex & _).
    exists a, inv'. split; [exact Ha|]. split; [exact Hrem|]. split; [exact Hp|].
    exact Hex.
Defined.

(** Adding [A] to the empty inventory and removing it again. *)
Lemma add_then_remove_witness :
  exists inv1,
    addProduct Examples.heapABC (Inventory_new "inventory.csv") Examples.pA
    = Some (true, inv1)
    /\ removeProduct Examples.heapABC inv1 "A"
       = Some (true, delete 1%positive Examples.heapABC, Inventory_new "inventory.csv").
Proof.
  apply (add_then_remove Examples.heapABC (Inventory_new "inventory.csv") 1%positive
           Examples.recA).
  - apply consistent_new.
  - reflexivity.
  - intros (p & Hin & _). by apply elem_of_nil in Hin.
Defined.

(** Clearing the example inventory frees the three records. *)
Lemma clearAll_spec_witness :
  exists h',
    clearAll Examples.heapABC Examples.invABC = Some (h', Inventory_new "inventory.csv")
    /\ h' !! 2%positive = None.
Proof.
  destruct (clearAll_spec Examples.heapABC Examples.invABC consistent_invABC)
    as (h' & Hclear & Hh' & _).
  exists h'. split; [exact Hclear|]. pose proof (Hh' 2%positive) as H2.
  rewrite bool_decide_eq_true_2 in H2; [exact H2|].
  simpl; repeat first [apply list_elem_of_here | apply list_elem_of_further].
Defined.


(** Sorting the example by value keeps the index. *)
Lemma sort_keeps_lookup_witness :
  skuIndex Examples.invBCA = skuIndex Examples.invABC
  /\ (forall s, getProduct Examples.invBCA s = getProduct Examples.invABC s)
  /\ (forall s, skuExists Examples.invBCA s = skuExists Examples.invABC s)
  /\ getProductCount Examples.invBCA = getProductCount Examples.invABC
  /\ dataFilePath Examples.invBCA = dataFilePath Examples.invABC.
Proof.
  exact (sort_keeps_lookup ByValue Examples.heapABC Examples.invABC Examples.invBCA
           consistent_invABC sortByValue_invBCA).
Defined.

(** The shop and its state after a run are consistent. *)
Lemma consistent_invShop : consistent Examples.heapShop Examples.invShop.
Proof.
  apply (rebuildIndex_Some_consistent Examples.heapShop
           (mkInventory [Examples.pA; Examples.pB; Examples.pC] ∅ "inventory.csv")).
  - repeat constructor; by eexists.
  - refine (bool_decide_unpack _ _). by vm_compute.
  - by vm_compute.
Qed.

(** A run of the store: a file of one line is loaded and the store is
    cleared; three records are created and added; the price of the atlas is
    updated to 15; the sequence is sorted by price; the digital product is
    removed. *)
Lemma reachable_run : reachable (Examples.heapRun, Examples.invRun).
Proof.
  exists "inventory.csv".
  eapply rtc_l.
  { eapply (step_load Examples.junk
              {[ "inventory.csv" := "Physical,A1,Widget,9.99,5,Tools,1.5,Acme" ]}).
    vm_compute. reflexivity. }
  eapply rtc_l. { eapply step_clear. vm_compute. reflexivity. }
  eapply rtc_l. { apply (step_new _ _ (Physical Examples.widget)). }
  eapply rtc_l. { eapply (step_add _ _ _ Examples.pA). vm_compute. reflexivity. }
  eapply rtc_l. { apply (step_new _ _ (Digital Examples.ebook)). }
  eapply rtc_l. { eapply (step_add _ _ _ Examples.pB). vm_compute. reflexivity. }
  eapply rtc_l. { apply (step_new _ _ (Physical Examples.atlas)). }
  eapply rtc_l. { eapply (step_add _ _ _ Examples.pC). vm_compute. reflexivity. }
  eapply rtc_l.
  { eapply (step_update _ _ _ "P2" "" (Examples.d 15) (-1)). vm_compute. reflexivity. }
  eapply rtc_l.
  { apply (step_sort ByPrice).
    eapply (sort_with_intro _ _ _ [Examples.pA; Examples.pC; Examples.pB]).
    - apply (std_sort_intro _ _ _ _
               [Physical Examples.widget; Physical Examples.atlas15;
                Digital Examples.ebook]).
      + apply perm_skip, perm_swap.
      + by vm_compute.
      + repeat constructor.
    - vm_compute. reflexivity. }
  eapply rtc_l. { eapply (step_remove _ _ _ _ "D1"). vm_compute. reflexivity. }
  vm_compute. apply rtc_refl.
Qed.

(** The state after a run of the operations on the shop. *)
Lemma reachable_consistent_witness :
  reachable (Examples.heapRun, Examples.invRun)
  /\ consistent Examples.heapRun Examples.invRun.
Proof.
  split; [exact reachable_run|].
  exact (reachable_consistent (Examples.heapRun, Examples.invRun) reachable_run).
Defined.

(** ** Searching *)

Lemma transform_tolower_ascii (s : string) :
  is_ascii s = true -> transform_tolower s = Some (lower s).
Proof.
  unfold lower. induction s as [|c s IH]; simpl; [done|].
  intros [Hc Hs]%andb_prop. rewrite (IH Hs). simpl.
  unfold tolower. rewrite Hc. simpl. by destruct (_ && _)%N.
Qed.

Lemma starts_with_spec (n hay : string) :
  starts_with n hay = true <-> exists post, hay = n ++ post.
Proof.
  revert hay. induction n as [|c n IH]; intros hay; simpl.
  - split; [|done]. intros _. exists hay. by rewrite string_app_nil_l.
  - destruct hay as [|d hay].
    + split; [done|]. intros [post H]. by rewrite string_app_cons in H.
    + destruct (Ascii.eqb_spec c d) as [->|Hne]; simpl.
      * rewrite IH. split; intros [post H]; exists post.
        -- by rewrite string_app_cons, H.
        -- rewrite string_app_cons in H. by injection H.
      * split; [done|]. intros [post H]. rewrite string_app_cons in H. congruence.
Qed.

Lemma string_find_occurs (n hay : string) :
  is_Some (string_find n hay) <-> occurs_in n hay.
Proof.
  induction hay as [|c hay IH]; simpl.
  - destruct (starts_with n "") eqn:E.
    + split; [|by eexists]. intros _. apply starts_with_spec in E as [post E].
      exists "", post. by rewrite string_app_nil_l.
    + split; [by intros [x Hx]|]. intros (pre & post & H).
      destruct pre as [|d pre]; [|by rewrite string_app_cons in H].
      rewrite string_app_nil_l in H.
      assert (starts_with n "" = true) by (apply starts_with_spec; by exists post).
      congruence.
  - destruct (starts_with n (String c hay)) eqn:E.
    + split; [|by eexists]. intros _. apply starts_with_spec in E as [post E].
      exists "", post. by rewrite string_app_nil_l.
    + rewrite fmap_is_Some, IH. split.
      * intros (pre & post & ->). exists (String c pre), post.
        by rewrite string_app_cons.
      * intros (pre & post & H). destruct pre as [|d pre].
        -- rewrite string_app_nil_l in H.
           assert (starts_with n (String c hay) = true)
             by (apply starts_with_spec; by exists post).
           congruence.
        -- rewrite string_app_cons in H. injection H as _ ->. by exists pre, post.
Qed.

Lemma string_find_empty (hay : string) : string_find "" hay = Some O.
Proof. by destruct hay. Qed.

(** The records a test selects. *)
Lemma search_loop_filter (h : Heap) (test : Product -> option bool)
    (sel : Product -> bool) (ps : list Ptr) :
  Forall (fun p => exists o, deref h p = Some o /\ test o = Some (sel o)) ps ->
  search_loop h test ps
  = Some (filter (fun p => from_option sel false (deref h p) = true) ps).
Proof.
  induction 1 as [|p ps (o & Ho & Ht) _ IH]; simpl; [done|].
  rewrite Ho, Ht, IH. rewrite filter_cons. simpl.
  destruct (decide (from_option sel false (deref h p) = true)) as [E|E];
    rewrite Ho in E; simpl in E.
  - by rewrite E.
  - by apply not_true_is_false in E as ->.
Qed.

Lemma filter_all {A : Type} (P : A -> Prop) `{!forall x, Decision (P x)} (l : list A) :
  Forall P l -> filter P l = l.
Proof.
  induction 1 as [|x l Hx _ IH]; [done|]. rewrite filter_cons.
  destruct (decide (P x)); [by rewrite IH | done].
Qed.

Lemma found_in_ascii (lt field : string) :
  is_ascii field = true ->
  found_in lt field = Some (bool_decide (is_Some (string_find lt (lower field)))).
Proof. intros H. unfold found_in. by rewrite (transform_tolower_ascii _ H). Qed.

(** The common part of the searches by name and by category. *)
Lemma search_text_spec (h : Heap) (field : Product -> string) (ps : list Ptr)
    (lt : string) :
  Forall (fun p => exists o, deref h p = Some o /\ is_ascii (field o) = true) ps ->
  exists res,
    search_loop h (fun o => found_in lt (field o)) ps = Some res
    /\ res `sublist_of` ps
    /\ (forall p, p ∈ res <->
          p ∈ ps /\ exists o, deref h p = Some o /\ occurs_in lt (lower (field o)))
    /\ (lt = "" -> res = ps).
Proof.
  intros Hall.
  set (sel := fun o => bool_decide (is_Some (string_find lt (lower (field o))))).
  eexists. split; [|split; [|split]].
  - apply (search_loop_filter h _ sel). apply (Forall_impl _ _ _ Hall).
    intros p (o & Ho & Ha). exists o. split; [done|]. by apply found_in_ascii.
  - apply sublist_filter.
  - intros p. rewrite list_elem_of_filter. split.
    + intros [Hs Hin]. split; [done|]. destruct (deref h p) as [o|]; [|done].
      exists o. split; [done|]. simpl in Hs. unfold sel in Hs.
      apply bool_decide_eq_true in Hs. by apply string_find_occurs.
    + intros [Hin (o & Ho & Hocc)]. split; [|done]. rewrite Ho. simpl.
      apply bool_decide_eq_true. by apply string_find_occurs.
  - intros ->. apply filter_all. apply (Forall_impl _ _ _ Hall).
    intros p (o & Ho & _). rewrite Ho. simpl. unfold sel.
    by rewrite string_find_empty.
Qed.



(** X9. [searchByCategory] matches on a part of the category: for a store
    whose categories are texts of 7-bit characters and a term of 7-bit
    characters it returns, in the order of the sequence, exactly the
    records whose category contains the term, letter case apart; the empty
    term selects every record. *)
Theorem searchByCategory_spec (h : Heap) (inv : Inventory) (term : string) :
  consistent h inv -> ascii_categories h inv -> is_ascii term = true ->
  exists res,
    searchByCategory h inv term = Some res
    /\ res `sublist_of` products inv
    /\ (forall p, p ∈ res <->
          p ∈ products inv
          /\ exists o, deref h p = Some o
                       /\ occurs_in (lower term) (lower (getCategory o)))
    /\ (term = "" -> res = products inv).
Proof.
  intros Hc Ha Ht.
  assert (Hn : Forall (fun p => exists o, deref h p = Some o
                                  /\ is_ascii (getCategory o) = true)
                 (products inv)).
  { apply Forall_forall. intros p Hin.
    destruct (consistent_live h inv p Hc Hin) as [o Ho]. exists o.
    split; [done|]. by apply (Ha p o Hin Ho). }
  destruct (search_text_spec h getCategory (products inv) (lower term) Hn)
    as (res & Hres & Hsub & Hmem & Hall).
  exists res. unfold searchByCategory. rewrite (transform_tolower_ascii _ Ht).
  split; [done|]. split; [done|]. split; [done|]. intros ->. by apply Hall.
Qed.

Lemma type_test (lt : string) (o : Product) :
  match transform_tolower (getType o) with
  | Some lowerProdType => Some (String.eqb lowerProdType lt)
  | None => None
  end = Some (String.eqb (lower (getType o)) lt)
  /\ (String.eqb (lower (getType o)) lt = true <-> of_type lt o).
Proof.
  destruct o as [p|d]; (split; [done|]).
  - change (lower (getType (Physical p))) with "physical".
    rewrite String.eqb_eq. by split.
  - change (lower (getType (Digital d))) with "digital".
    rewrite String.eqb_eq. by split.
Qed.

Lemma search_type_filter (h : Heap) (inv : Inventory) (type : string) :
  consistent h inv -> is_ascii type = true ->
  searchByType h inv type
  = Some (filter (fun p => from_option (fun o => String.eqb (lower (getType o))
                                                   (lower type)) false
                             (deref h p) = true) (products inv)).
Proof.
  intros Hc Ht. unfold searchByType. rewrite (transform_tolower_ascii _ Ht).
  apply (search_loop_filter h _ (fun o => String.eqb (lower (getType o)) (lower type))).
  apply Forall_forall. intros p Hin.
  destruct (consistent_live h inv p Hc Hin) as [o Ho]. exists o. split; [done|].
  apply type_test.
Qed.

(** X10. For a type name of 7-bit characters [searchByType] returns, in the
    order of the sequence, exactly the records of the variant named, letter
    case apart: the physical ones for "physical", the digital ones for
    "digital", and none for any other such name. *)
Theorem searchByType_spec (h : Heap) (inv : Inventory) (type : string) :
  consistent h inv -> is_ascii type = true ->
  exists res,
    searchByType h inv type = Some res
    /\ res `sublist_of` products inv
    /\ (forall p, p ∈ res <->
          p ∈ products inv
          /\ exists o, deref h p = Some o /\ of_type (lower type) o)
    /\ (lower type <> "physical" -> lower type <> "digital" -> res = []).
Proof.
  intros Hc Ht. eexists. split; [by apply search_type_filter|].
  split; [apply sublist_filter|].
  assert (Hmem : forall p,
    p ∈ filter (fun p => from_option (fun o => String.eqb (lower (getType o))
                                                 (lower type)) false
                           (deref h p) = true) (products inv)
    <-> p ∈ products inv /\ exists o, deref h p = Some o /\ of_type (lower type) o).
  { intros p. rewrite list_elem_of_filter. split.
    - intros [Hs Hin]. split; [done|]. destruct (deref h p) as [o|]; [|done].
      exists o. split; [done|]. by apply type_test.
    - intros [Hin (o & Ho & Hty)]. split; [|done]. rewrite Ho. simpl.
      by apply type_test. }
  split; [done|]. intros Hp Hd.
  match goal with |- ?x = [] => destruct x as [|p l] eqn:E end; [done|].
  assert (Hin : p ∈ p :: l) by by left.
  apply Hmem in Hin as (_ & o & _ & Hty). by destruct o.
Qed.

Lemma search_loop_partition (h : Heap) (t1 t2 : Product -> option bool)
    (ps r1 r2 : list Ptr) :
  (forall o b, t1 o = Some b -> t2 o = Some (negb b)) ->
  search_loop h t1 ps = Some r1 -> search_loop h t2 ps = Some r2 ->
  r1 ++ r2 ≡ₚ ps.
Proof.
  intros Hneg. revert r1 r2. induction ps as [|p ps IH]; intros r1 r2; simpl.
  - by intros [= <-] [= <-].
  - destruct (deref h p) as [o|]; [|done].
    destruct (t1 o) as [b|] eqn:E1; [|done]. rewrite (Hneg o b E1).
    destruct (search_loop h t1 ps) as [r1'|]; [|done].
    destruct (search_loop h t2 ps) as [r2'|]; [|done].
    intros [= <-] [= <-]. specialize (IH r1' r2' eq_refl eq_refl).
    destruct b; simpl.
    + by rewrite IH.
    + by rewrite <- Permutation_middle, IH.
Qed.

(** X11. Every record is of one of the two types: the physical and the digital
    records together are the whole sequence. *)
Theorem searchByType_partition (h : Heap) (inv : Inventory) :
  consistent h inv ->
  exists ph dg,
    searchByType h inv "Physical" = Some ph
    /\ searchByType h inv "Digital" = Some dg
    /\ ph ++ dg ≡ₚ products inv.
Proof.
  intros Hc.
  pose proof (search_type_filter h inv "Physical" Hc eq_refl) as Hp.
  pose proof (search_type_filter h inv "Digital" Hc eq_refl) as Hd.
  eexists _, _. split; [exact Hp|]. split; [exact Hd|].
  unfold searchByType in Hp, Hd. simpl in Hp, Hd.
  refine (search_loop_partition h _ _ _ _ _ _ Hp Hd).
  intros o b. by destruct o; intros [= <-].
Qed.

(** *** The searches on the example inventory *)



Lemma ascii_categories_invShop :
  ascii_categories Examples.heapShop Examples.invShop.
Proof.
  intros p o Hin Ho.
  apply elem_of_cons in Hin as [->|Hin]; [by injection Ho as <-|].
  apply elem_of_cons in Hin as [->|Hin]; [by injection Ho as <-|].
  apply elem_of_cons in Hin as [->|Hin]; [by injection Ho as <-|].
  by apply elem_of_nil in Hin.
Qed.

(** The term [BOOK] selects the ebook (category Books) and the atlas
    (category Textbooks) of the shop, and not the widget (category
    Tools). *)
Lemma searchByCategory_spec_witness :
  searchByCategory Examples.heapShop Examples.invShop "BOOK"
  = Some [Examples.pB; Examples.pC]
  /\ (forall p, p ∈ [Examples.pB; Examples.pC] <->
        p ∈ products Examples.invShop
        /\ exists o, deref Examples.heapShop p = Some o
                     /\ occurs_in "book" (lower (getCategory o))).
Proof.
  destruct (searchByCategory_spec Examples.heapShop Examples.invShop "BOOK"
              consistent_invShop ascii_categories_invShop eq_refl)
    as (res & Hres & _ & Hmem & _).
  vm_compute in Hres. injection Hres as <-.
  split; [reflexivity|exact Hmem].
Defined.

(** The term [DIGITAL] selects the ebook of the shop and neither of its
    two physical products; the term [Service] selects nothing. *)
Lemma searchByType_spec_witness :
  searchByType Examples.heapShop Examples.invShop "DIGITAL" = Some [Examples.pB]
  /\ (forall p, p ∈ [Examples.pB] <->
        p ∈ products Examples.invShop
        /\ exists o, deref Examples.heapShop p = Some o /\ of_type "digital" o)
  /\ searchByType Examples.heapShop Examples.invShop "Service" = Some [].
Proof.
  destruct (searchByType_spec Examples.heapShop Examples.invShop "DIGITAL"
              consistent_invShop eq_refl)
    as (res & Hres & _ & Hmem & _).
  vm_compute in Hres. injection Hres as <-.
  split; [reflexivity|]. split; [exact Hmem|].
  destruct (searchByType_spec Examples.heapShop Examples.invShop "Service"
              consistent_invShop eq_refl)
    as (res & Hres & _ & _ & Hnone).
  rewrite Hres, Hnone; [reflexivity|discriminate|discriminate].
Defined.

(** The physical and the digital records of the example. *)
Lemma searchByType_partition_witness :
  exists ph dg,
    searchByType Examples.heapABC Examples.invABC "Physical" = Some ph
    /\ searchByType Examples.heapABC Examples.invABC "Digital" = Some dg
    /\ ph ++ dg ≡ₚ products Examples.invABC.
Proof.
  exact (searchByType_partition Examples.heapABC Examples.invABC consistent_invABC).
Defined.

(** ** Saving and loading *)

Lemma contains_app (c : ascii) (s t : string) :
  contains c (s ++ t) = contains c s || contains c t.
Proof.
  induction s as [|d s IH]; [by rewrite string_app_nil_l|].
  rewrite string_app_cons. simpl. by rewrite IH, orb_assoc.
Qed.

Lemma all_digits_contains (c : ascii) (s : string) :
  is_digit c = false -> all_digits s = true -> contains c s = false.
Proof.
  intros Hc. induction s as [|d s IH]; [done|]. simpl.
  intros [Hd Hs]%andb_prop. rewrite (IH Hs), orb_false_r.
  destruct (Ascii.eqb_spec d c) as [->|]; [congruence|done].
Qed.

Lemma dec_no_newline (n : Z) : 0 <= n -> contains newline (dec n) = false.
Proof.
  intros Hn. destruct (dec_spec n Hn) as (_ & _ & _ & Hall & _).
  by apply all_digits_contains.
Qed.

Lemma to_string_int_no_newline (z : Z) : contains newline (to_string_int z) = false.
Proof.
  unfold to_string_int. destruct (Z.ltb_spec z 0); simpl.
  - apply dec_no_newline. lia.
  - by apply dec_no_newline.
Qed.

Lemma fixed6_no_newline (s : bool) (n : Z) :
  0 <= n -> contains newline (fixed6 s n) = false.
Proof.
  intros Hn. unfold fixed6. rewrite !contains_app.
  destruct (dec_fixed_spec 6 (n mod 1000000) "" ltac:(apply Z.mod_pos_bound; lia))
    as (ds & -> & _ & Hall & _).
  rewrite string_app_nil_r. simpl.
  rewrite (dec_no_newline _ (Z.div_pos n 1000000 Hn ltac:(lia))).
  rewrite (all_digits_contains newline ds eq_refl Hall). by destruct s.
Qed.

Lemma micro_units_nonneg (m : positive) (e : Z) : 0 <= micro_units m e.
Proof.
  unfold micro_units. destruct (Z.leb_spec 0 e); [lia|].
  apply div_round_even_bounds; lia.
Qed.

Lemma to_string_double_no_newline (x : double) :
  contains newline (to_string_double x) = false.
Proof.
  destruct x as [s|[|]| |s m e]; simpl; try done.
  - by apply fixed6_no_newline.
  - apply fixed6_no_newline, micro_units_nonneg.
Qed.

Lemma storable_fields (o : Product) :
  storable o ->
  plain_text (getSku o) /\ plain_text (getName o) /\ plain_text (getCategory o)
  /\ match o with
     | Physical p => plain_text (supplier p)
     | Digital d => plain_text (downloadLink d) /\ plain_text (licenseType d)
     end.
Proof.
  intros [_ H]. destruct o as [p|d]; simpl in H;
    repeat (apply Forall_cons in H as [? H]); done.
Qed.

Lemma toCSV_no_newline (o : Product) :
  storable o -> contains newline (toCSV o) = false.
Proof.
  intros Hs. destruct (storable_fields o Hs) as ([_ H1] & [_ H2] & [_ H3] & H4).
  destruct o as [p|d]; unfold toCSV, getSku, getName, getCategory in *; simpl in H1, H2, H3.
  - destruct H4 as [_ H4]. rewrite PhysicalProduct_toCSV_fields.
    repeat (rewrite contains_app; simpl contains).
    by rewrite !to_string_double_no_newline, to_string_int_no_newline, H1, H2, H3, H4.
  - destruct H4 as [[_ H4] [_ H5]]. rewrite DigitalProduct_toCSV_fields.
    repeat (rewrite contains_app; simpl contains).
    by rewrite !to_string_double_no_newline, to_string_int_no_newline, H1, H2, H3, H4, H5.
Qed.

Lemma toCSV_not_skipped (o : Product) :
  is_empty (toCSV o) || starts_with_hash (toCSV o) = false.
Proof.
  destruct o as [p|d]; unfold toCSV.
  - by rewrite PhysicalProduct_toCSV_fields.
  - by rewrite DigitalProduct_toCSV_fields.
Qed.

Lemma make_product_toCSV (u : Uninit) (o : Product) (h : Heap) :
  storable o -> make_product u (toCSV o) h = new (rounded o) h.
Proof.
  intros Hs. destruct (storable_fields o Hs) as ([H1 _] & [H2 _] & [H3 _] & H4).
  destruct Hs as [Hv _]. unfold make_product. rewrite type_tag_toCSV.
  destruct o as [p|d]; simpl.
  - destruct H4 as [_ H4]. by rewrite (PhysicalProduct_round_trip u p Hv H1 H2 H3 H4).
  - destruct H4 as [[H4 _] [_ H5]].
    by rewrite (DigitalProduct_round_trip u d Hv H1 H2 H3 H4 H5).
Qed.

Lemma getSku_rounded (o : Product) : getSku (rounded o) = getSku o.
Proof. by destruct o. Qed.

Lemma file_lines_line (line rest : string) :
  contains newline line = false ->
  file_lines (line ++ String newline rest) = line :: file_lines rest.
Proof.
  intros Hno. rewrite file_lines_split, (split_delim_field newline line rest Hno).
  destruct line; [by rewrite string_app_nil_l | by rewrite string_app_cons].
Qed.

Lemma csv_lines_objects (h : Heap) (ps : list Ptr) (objs : list Product) :
  objects h ps = Some objs ->
  csv_lines h ps
  = Some (foldr (fun o rest => toCSV o ++ String newline rest) "" objs).
Proof.
  unfold objects. rewrite mapM_Some. induction 1 as [|p o ps objs Ho _ IH]; simpl.
  - done.
  - by rewrite Ho, IH.
Qed.

Lemma file_lines_records (objs : list Product) :
  Forall storable objs ->
  file_lines (foldr (fun o rest => toCSV o ++ String newline rest) "" objs)
  = toCSV <$> objs.
Proof.
  induction 1 as [|o objs Ho _ IH]; simpl; [done|].
  rewrite file_lines_line by by apply toCSV_no_newline. by rewrite IH.
Qed.

Lemma objects_insert_fresh (h : Heap) (a : addr) (o : Product) (ps : list Ptr)
    (objs : list Product) :
  h !! a = None -> objects h ps = Some objs -> objects (<[a := o]> h) ps = Some objs.
Proof.
  intros Ha. unfold objects. rewrite !mapM_Some. intros H.
  apply (Forall2_impl _ _ _ _ H). intros [b|] x Hb; [|done]. simpl in *.
  rewrite lookup_insert_ne; [done|]. intros <-. congruence.
Qed.

Lemma objects_skus (h : Heap) (ps : list Ptr) (objs : list Product) :
  objects h ps = Some objs -> sku_at h <$> ps = Some <$> (getSku <$> objs).
Proof.
  unfold objects. rewrite mapM_Some. induction 1 as [|p o ps objs Ho _ IH]; [done|].
  rewrite !fmap_cons, IH. unfold sku_at. by rewrite Ho.
Qed.

(** The loop of [loadFromFile] on the lines of storable records with
    skus that are new and pairwise distinct: each line adds its record. *)
Lemma load_lines_records (u : Uninit) (objs : list Product) :
  forall (h : Heap) (inv : Inventory) (acc : list Product),
    consistent h inv -> objects h (products inv) = Some acc ->
    Forall storable objs ->
    NoDup ((getSku <$> acc) ++ (getSku <$> objs))%list ->
    exists h' inv',
      load_lines u (toCSV <$> objs) (h, inv) = Some (h', inv')
      /\ objects h' (products inv') = Some (acc ++ (rounded <$> objs))%list
      /\ consistent h' inv'
      /\ dataFilePath inv' = dataFilePath inv.
Proof.
  induction objs as [|o objs IH]; intros h inv acc Hc Hobj Hst Hnd.
  - exists h, inv. simpl. by rewrite app_nil_r.
  - apply Forall_cons in Hst as [Ho Hst]. simpl.
    unfold load_line. rewrite toCSV_not_skipped, (make_product_toCSV u o h Ho).
    destruct (new_fresh (rounded o) h) as (a & Hnew & Hfresh). rewrite Hnew.
    pose proof (new_consistent h inv (rounded o) Hc) as Hc1.
    rewrite Hnew in Hc1. simpl in Hc1.
    pose proof (objects_insert_fresh h a (rounded o) _ _ Hfresh Hobj) as Hobj1.
    assert (Hnot : ~ in_store (<[a := rounded o]> h) inv (getSku (rounded o))).
    { intros (p & Hin & Hs). rewrite getSku_rounded in Hs.
      pose proof (objects_skus _ _ _ Hobj1) as Hsk.
      assert (Some (getSku o) ∈ Some <$> (getSku <$> acc)) as Hin'.
      { rewrite <- Hsk, <- Hs. by apply list_elem_of_fmap_2. }
      apply list_elem_of_fmap in Hin' as (s & [= <-] & Hin').
      simpl in Hnd. apply NoDup_app in Hnd as (_ & Hdis & _).
      apply (Hdis _ Hin'). by left. }
    apply (consistent_index_None _ inv _ Hc1) in Hnot.
    rewrite (addProduct_fresh _ inv a (rounded o) (lookup_insert_eq _ _ _) Hnot).
    destruct (addProduct_consistent _ inv _ (Some a) true Hc1
                (addProduct_fresh _ inv a (rounded o) (lookup_insert_eq _ _ _) Hnot))
      as [Hc2 _].
    destruct (IH (<[a := rounded o]> h)
                (mkInventory (products inv ++ [Some a])
                   (<[getSku (rounded o) := Some a]> (skuIndex inv)) (dataFilePath inv))
                (acc ++ [rounded o])%list Hc2) as (h' & inv' & Hload & Hobj' & Hc' & Hpath).
    + simpl. unfold objects in *. rewrite mapM_Some in *.
      apply Forall2_app; [done|]. constructor; [|constructor]. simpl.
      by rewrite lookup_insert_eq.
    + done.
    + rewrite fmap_app. simpl. rewrite getSku_rounded, <- app_assoc. done.
    + exists h', inv'. split; [done|]. split; [|done].
      rewrite Hobj'. by rewrite <- app_assoc.
Qed.

Lemma file_lines_two (l1 l2 body : string) :
  contains newline l1 = false -> contains newline l2 = false ->
  file_lines ((l1 ++ String newline (l2 ++ String newline "")) ++ body)
  = l1 :: l2 :: file_lines body.
Proof.
  intros H1 H2.
  rewrite (string_app_assoc l1), (string_app_cons newline), (string_app_assoc l2).
  rewrite (string_app_cons newline ""), string_app_nil_l.
  by rewrite !file_lines_line.
Qed.

Lemma file_header_lines (body : string) :
  exists l1 l2, file_lines (file_header ++ body) = l1 :: l2 :: file_lines body
    /\ starts_with_hash l1 = true /\ starts_with_hash l2 = true.
Proof.
  eexists _, _. split; [unfold file_header; by apply file_lines_two|done].
Qed.

Lemma load_line_comment (u : Uninit) (line : string) (st : Heap * Inventory) :
  is_empty line || starts_with_hash line = true -> load_line u line st = Some st.
Proof. intros H. unfold load_line. destruct st as [h inv]. by rewrite H. Qed.

Lemma load_lines_comment (u : Uninit) (line : string) (lines : list string)
    (st : Heap * Inventory) :
  is_empty line || starts_with_hash line = true ->
  load_lines u (line :: lines) st = load_lines u lines st.
Proof. intros H. simpl. by rewrite (load_line_comment u line st H). Qed.

(** X12. Saving a consistent inventory of storable records and loading
    the file, into the same inventory or into any other consistent one with
    the same path, gives the saved records in the saved order, each with
    its doubles read back from their six-decimal text; the inventory
    loaded is consistent, and what the loading inventory held before is
    gone. *)
Theorem save_then_load (u : Uninit) (fs : Files) (h : Heap) (inv : Inventory)
    (objs : list Product) :
  consistent h inv -> objects h (products inv) = Some objs ->
  Forall storable objs ->
  exists fs',
    saveToFile true fs h inv = Some (true, fs')
    /\ forall (h0 : Heap) (inv0 : Inventory),
         consistent h0 inv0 -> dataFilePath inv0 = dataFilePath inv ->
         exists h' inv',
           loadFromFile u fs' h0 inv0 = Some (true, (h', inv'))
           /\ objects h' (products inv') = Some (rounded <$> objs)
           /\ consistent h' inv'
           /\ dataFilePath inv' = dataFilePath inv.
Proof.
  intros Hc Hobj Hst. unfold saveToFile. rewrite (csv_lines_objects _ _ _ Hobj).
  eexists. split; [done|]. intros h0 inv0 Hc0 Hpath.
  destruct Hc0 as (Hlive0 & Hnd0 & _). apply NoDup_fmap_1 in Hnd0.
  destruct (delete_all_spec h0 (products inv0) Hlive0 Hnd0) as (h1 & Hdel & _).
  unfold loadFromFile, clearAll. rewrite Hpath, lookup_insert_eq, Hdel.
  destruct (file_header_lines
              (foldr (fun o rest => toCSV o ++ String newline rest) "" objs))
    as (l1 & l2 & -> & Hl1 & Hl2).
  rewrite (file_lines_records objs Hst).
  destruct (load_lines_records u objs h1 (mkInventory [] ∅ (dataFilePath inv)) [])
    as (h' & inv' & Hload & Hobj' & Hc' & Hp').
  - apply consistent_new.
  - done.
  - done.
  - simpl. pose proof (objects_skus _ _ _ Hobj) as Hsk.
    destruct Hc as (_ & Hnd & _). rewrite Hsk in Hnd.
    by apply NoDup_fmap in Hnd; [|apply _].
  - exists h', inv'.
    rewrite load_lines_comment by (by rewrite Hl1, orb_true_r).
    rewrite load_lines_comment by (by rewrite Hl2, orb_true_r).
    by rewrite Hload.
Qed.

(** *** What a load leaves in the store *)

Lemma index_skus (h : Heap) (inv : Inventory) (acc : list Product) (s : string) :
  consistent h inv -> objects h (products inv) = Some acc ->
  skuIndex inv !! s = None <-> s ∉ getSku <$> acc.
Proof.
  intros Hc Hobj. rewrite (consistent_index_None h inv s Hc).
  pose proof (objects_skus _ _ _ Hobj) as Hsk. split.
  - intros Hn Hin. apply Hn.
    assert (Some s ∈ sku_at h <$> products inv) as Hin'.
    { rewrite Hsk. by apply list_elem_of_fmap_2. }
    apply list_elem_of_fmap in Hin' as (p & Hp & Hin'). by exists p.
  - intros Hn (p & Hin & Hs). apply Hn.
    assert (Some s ∈ Some <$> (getSku <$> acc)) as Hin'.
    { rewrite <- Hsk, <- Hs. by apply list_elem_of_fmap_2. }
    by apply list_elem_of_fmap in Hin' as (s' & [= <-] & Hin').
Qed.

Lemma decoded_cons (u : Uninit) (line : string) (lines : list string) :
  decoded u (line :: lines)
  = match (if is_empty line || starts_with_hash line then None else decode u line) with
    | Some o => o :: decoded u lines
    | None => decoded u lines
    end.
Proof. reflexivity. Qed.

Lemma decode_None (u : Uninit) (line : string) :
  decode u line = None -> type_tag line <> "Physical" /\ type_tag line <> "Digital".
Proof.
  unfold decode. destruct (String.eqb_spec (type_tag line) "Physical"); [done|].
  by destruct (String.eqb_spec (type_tag line) "Digital").
Qed.

Lemma decode_Some (u : Uninit) (line : string) (o : Product) :
  decode u line = Some o ->
  forall h, make_product u line h = new o h.
Proof.
  unfold decode, make_product.
  destruct (String.eqb (type_tag line) "Physical"); [by intros [= <-]|].
  by destruct (String.eqb (type_tag line) "Digital"); [intros [= <-]|].
Qed.

Lemma load_lines_cons (u : Uninit) (line : string) (lines : list string)
    (st : Heap * Inventory) :
  load_lines u (line :: lines) st
  = match load_line u line st with
    | Some st' => load_lines u lines st'
    | None => None
    end.
Proof. reflexivity. Qed.

(** The loop of [loadFromFile] on any lines, from a consistent store. *)
Lemma load_lines_spec (u : Uninit) (lines : list string) :
  forall (h : Heap) (inv : Inventory) (acc : list Product),
    consistent h inv -> objects h (products inv) = Some acc ->
    exists h' inv',
      load_lines u lines (h, inv) = Some (h', inv')
      /\ objects h' (products inv')
         = Some (acc ++ first_by_sku (getSku <$> acc) (decoded u lines))%list
      /\ consistent h' inv'
      /\ dataFilePath inv' = dataFilePath inv
      /\ size h' = (size h + length (decoded u lines))%nat.
Proof.
  induction lines as [|line lines IH]; intros h inv acc Hc Hobj.
  - exists h, inv. simpl. rewrite app_nil_r.
    split; [done|]. split; [done|]. split; [done|]. split; [done|]. lia.
  - rewrite decoded_cons.
    destruct (is_empty line || starts_with_hash line) eqn:Hskip.
    { rewrite (load_lines_comment u line lines (h, inv) Hskip). by apply IH. }
    destruct (decode u line) as [o|] eqn:Hdec.
    2:{ destruct (decode_None u line Hdec) as [Hp Hd].
        rewrite load_lines_cons, (load_line_unrecognized u line (h, inv) Hp Hd).
        by apply IH. }
    rewrite load_lines_cons. unfold load_line. rewrite Hskip, (decode_Some u line o Hdec h).
    destruct (new_fresh o h) as (a & Hnew & Hfresh). rewrite Hnew.
    pose proof (new_consistent h inv o Hc) as Hc1. rewrite Hnew in Hc1. simpl in Hc1.
    pose proof (objects_insert_fresh h a o _ _ Hfresh Hobj) as Hobj1.
    pose proof (index_skus _ inv acc (getSku o) Hc1 Hobj1) as Hidx.
    assert (Hsize : size (<[a := o]> h) = S (size h)) by (apply map_size_insert_None; exact Hfresh).
    unfold addProduct. rewrite lookup_insert_eq. simpl first_by_sku.
    destruct (skuIndex inv !! getSku o) as [q|] eqn:E.
    + rewrite bool_decide_eq_true_2.
      2:{ destruct (decide (getSku o ∈ getSku <$> acc)) as [Hin|Hn]; [done|].
          apply Hidx in Hn. congruence. }
      destruct (IH _ inv acc Hc1 Hobj1) as (h' & inv' & Hload & Hobj' & Hc' & Hp & Hs).
      exists h', inv'. rewrite Hload.
      split; [done|]. split; [done|]. split; [done|]. split; [done|].
      rewrite Hs, Hsize. simpl. lia.
    + rewrite bool_decide_eq_false_2 by by apply Hidx.
      pose proof (addProduct_fresh (<[a := o]> h) inv a o (lookup_insert_eq h a o) E) as Hadd.
      destruct (addProduct_consistent _ inv _ (Some a) true Hc1 Hadd) as [Hc2 _].
      destruct (IH (<[a := o]> h)
                  (mkInventory (products inv ++ [Some a])
                     (<[getSku o := Some a]> (skuIndex inv)) (dataFilePath inv))
                  (acc ++ [o])%list Hc2) as (h' & inv' & Hload & Hobj' & Hc' & Hp & Hs).
      { simpl. unfold objects in *. rewrite mapM_Some in *.
        apply Forall2_app; [done|]. constructor; [|constructor]. simpl.
        by rewrite lookup_insert_eq. }
      exists h', inv'. split; [exact Hload|]. split.
      { rewrite Hobj'. rewrite fmap_app. simpl. by rewrite <- app_assoc. }
      split; [done|]. split; [done|]. rewrite Hs, Hsize. simpl. lia.
Qed.

Lemma delete_all_size (h : Heap) (ps : list Ptr) (h' : Heap) :
  Forall (fun p => is_Some (deref h p)) ps -> NoDup ps ->
  delete_all ps h = Some h' -> (size h' + length ps = size h)%nat.
Proof.
  revert h. induction ps as [|p ps IH]; intros h Hlive Hnd; simpl.
  - intros [= <-]. lia.
  - apply Forall_cons in Hlive as [[o Ho] Hlive]. apply NoDup_cons in Hnd as [Hp Hnd].
    destruct p as [b|]; [|done]. simpl in Ho. simpl. rewrite Ho. intros Hdel.
    apply IH in Hdel; [|..|done].
    + rewrite map_size_delete, Ho in Hdel. simpl in Hdel.
      assert (size h <> 0%nat).
      { intros Hz. apply map_size_empty_inv in Hz. subst h. by rewrite lookup_empty in Ho. }
      lia.
    + apply Forall_forall. intros q Hq.
      destruct q as [c|]; [|by apply (proj1 (Forall_forall _ _) Hlive) in Hq].
      simpl. rewrite lookup_delete_ne; [|by intros ->].
      by apply (proj1 (Forall_forall _ _) Hlive) in Hq.
Qed.

(** X13. [loadFromFile] on a consistent inventory whose file can be
    opened always succeeds.  It deletes the records held before; the store
    then holds, in the order of the file, the records decoded from the
    lines that are not empty, not comments and carry a recognized tag,
    keeping for each sku the first line only.  Every such line allocates one
    object: the objects of the lines that repeat a sku are not added and are
    not deleted either. *)
Theorem loadFromFile_spec (u : Uninit) (fs : Files) (h : Heap) (inv : Inventory)
    (content : string) :
  consistent h inv -> fs !! dataFilePath inv = Some content ->
  exists h' inv',
    loadFromFile u fs h inv = Some (true, (h', inv'))
    /\ objects h' (products inv')
       = Some (first_by_sku [] (decoded u (file_lines content)))
    /\ consistent h' inv'
    /\ dataFilePath inv' = dataFilePath inv
    /\ (size h' + length (products inv)
        = size h + length (decoded u (file_lines content)))%nat.
Proof.
  intros Hc Hfile. pose proof Hc as (Hlive & Hnd & _). apply NoDup_fmap_1 in Hnd.
  destruct (delete_all_spec h (products inv) Hlive Hnd) as (h1 & Hdel & _).
  pose proof (delete_all_size h (products inv) h1 Hlive Hnd Hdel) as Hsz.
  destruct (load_lines_spec u (file_lines content) h1
              (mkInventory [] ∅ (dataFilePath inv)) [] (consistent_new _ _) eq_refl)
    as (h' & inv' & Hload & Hobj & Hc' & Hp & Hs).
  exists h', inv'. unfold loadFromFile, clearAll. rewrite Hfile, Hdel, Hload.
  split; [done|]. split; [done|]. split; [done|]. split; [done|]. lia.
Qed.

(** *** Saving and loading the example inventory *)

Lemma storable_invABC :
  Forall storable [Examples.recA; Examples.recB; Examples.recC].
Proof.
  repeat (apply Forall_cons; split; [|]); [..|by apply Forall_nil];
    (split; [by vm_compute|]);
    repeat (apply Forall_cons; split; [by vm_compute|]); by apply Forall_nil.
Qed.

(** The example inventory, saved and loaded by a new inventory. *)
Lemma save_then_load_witness :
  exists fs',
    saveToFile true ∅ Examples.heapABC Examples.invABC = Some (true, fs')
    /\ exists h' inv',
         loadFromFile Examples.junk fs' ∅ (Inventory_new "inventory.csv")
         = Some (true, (h', inv'))
         /\ objects h' (products inv')
            = Some (rounded <$> [Examples.recA; Examples.recB; Examples.recC])
         /\ consistent h' inv'
         /\ dataFilePath inv' = "inventory.csv".
Proof.
  destruct (save_then_load Examples.junk ∅ Examples.heapABC Examples.invABC
              [Examples.recA; Examples.recB; Examples.recC]
              consistent_invABC eq_refl storable_invABC) as (fs' & Hsave & Hload).
  exists fs'. split; [exact Hsave|].
  exact (Hload ∅ (Inventory_new "inventory.csv") (consistent_new _ _) eq_refl).
Defined.

(** A file with a comment, an empty line, two lines with the sku [A1] and
    a line with an unknown tag: one record is kept, two objects are
    allocated. *)
Lemma loadFromFile_spec_witness :
  exists h' inv',
    loadFromFile Examples.junk
      (<["inventory.csv" := Examples.file_with_duplicate]> ∅) ∅
      (Inventory_new "inventory.csv")
    = Some (true, (h', inv'))
    /\ objects h' (products inv') = Some [Physical Examples.widget]
    /\ size h' = 2%nat.
Proof.
  destruct (loadFromFile_spec Examples.junk
              (<["inventory.csv" := Examples.file_with_duplicate]> ∅) ∅
              (Inventory_new "inventory.csv") Examples.file_with_duplicate
              (consistent_new _ _) (lookup_insert_eq _ _ _))
    as (h' & inv' & Hload & Hobj & _ & _ & Hsize).
  exists h', inv'. split; [exact Hload|]. split; [exact Hobj|].
  rewrite map_size_empty in Hsize. simpl in Hsize. lia.
Defined.

(** ** The tolerance of the six-decimal text *)

Lemma placed_shr_1 (mrs : shr_record) (Y D : Z) :
  0 < D -> 0 <= shr_m mrs -> placed mrs Y D -> placed (shr_1 mrs) Y (2 * D).
Proof.
  destruct mrs as [m r s]. unfold placed. simpl. intros HD Hm.
  destruct m as [|[p|p|]|p]; try lia; destruct r, s; simpl;
    try change (Z.pos p~0) with (2 * Z.pos p);
    try change (Z.pos p~1) with (2 * Z.pos p + 1); lia.
Qed.

Lemma placed_iter (n : nat) (mrs : shr_record) (Y D : Z) :
  0 < D -> 0 <= shr_m mrs -> placed mrs Y D ->
  placed (Nat.iter n shr_1 mrs) Y (D * 2 ^ Z.of_nat n).
Proof.
  intros HD Hm Hp. induction n as [|n IH].
  - simpl. by rewrite Z.mul_1_r.
  - rewrite Nat.iter_succ, Nat2Z.inj_succ, Z.pow_succ_r by lia.
    replace (D * (2 * 2 ^ Z.of_nat n)) with (2 * (D * 2 ^ Z.of_nat n)) by lia.
    apply placed_shr_1; [lia| |done].
    rewrite iter_shr_1_m by done. apply Z.div_pos; lia.
Qed.

Lemma placed_shr (mrs : shr_record) (e n Y D : Z) :
  0 < D -> 0 <= shr_m mrs -> placed mrs Y D ->
  placed (fst (shr mrs e n)) Y (D * 2 ^ Z.max n 0).
Proof.
  intros HD Hm Hp. destruct n as [|p|p].
  - simpl. by rewrite Z.mul_1_r.
  - unfold shr. cbn [fst]. rewrite iter_pos_nat.
    replace (Z.max (Z.pos p) 0) with (Z.of_nat (Pos.to_nat p)) by lia.
    by apply placed_iter.
  - simpl. by rewrite Z.mul_1_r.
Qed.

Lemma placed_division (n r : Z) :
  0 <= r < 1000000 ->
  placed (shr_record_of_loc n (new_location 1000000 r)) (n * 1000000 + r) 1000000.
Proof.
  intros Hr. unfold new_location. change (Z.even 1000000) with true. cbv iota.
  unfold new_location_even. destruct (Z.eqb_spec r 0) as [->|Hne].
  - unfold placed. simpl. lia.
  - destruct (Z.compare_spec (2 * r) 1000000); unfold placed; simpl; lia.
Qed.

(** Rounding to nearest picks an integer nearest to the quotient. *)
Lemma placed_round (mrs : shr_record) (Y D j : Z) :
  0 < D -> placed mrs Y D ->
  Z.abs (round_nearest_even (shr_m mrs) (loc_of_shr_record mrs) * D - Y)
  <= Z.abs (j * D - Y).
Proof.
  destruct mrs as [m r s]. unfold placed. simpl. intros HD Hp.
  assert (Hj : j <= m - 1 \/ j = m \/ j = m + 1 \/ m + 2 <= j) by lia.
  assert (Hlow : j <= m - 1 -> j * D <= m * D - D) by nia.
  assert (Hhigh : m + 2 <= j -> m * D + 2 * D <= j * D) by nia.
  destruct r, s; simpl.
  - destruct Hj as [H|[->|[->|H]]]; try specialize (Hlow H);
      try specialize (Hhigh H); lia.
  - destruct (Z.even m);
      destruct Hj as [H|[->|[->|H]]]; try specialize (Hlow H);
        try specialize (Hhigh H); lia.
  - destruct Hj as [H|[->|[->|H]]]; try specialize (Hlow H);
      try specialize (Hhigh H); lia.
  - destruct Hj as [H|[->|[->|H]]]; try specialize (Hlow H);
      try specialize (Hhigh H); lia.
Qed.

Lemma placed_lower (mrs : shr_record) (Y D : Z) :
  0 < D -> placed mrs Y D -> shr_m mrs * D <= Y.
Proof. destruct mrs as [m [] []]; unfold placed; simpl; lia. Qed.

Lemma Zdigits2_div_pow2 (m a : Z) :
  0 <= m -> 0 <= a -> Zdigits2 (m / 2 ^ a) <= Z.max (Zdigits2 m - a) 0.
Proof.
  intros Hm Ha. pose proof (Zdigits2_bound m Hm) as Hb.
  pose proof (Zdigits2_nonneg m) as Hd.
  destruct (Z.le_gt_cases a (Zdigits2 m)) as [Hle|Hgt].
  - assert (Zdigits2 (m / 2 ^ a) <= Zdigits2 m - a); [|lia].
    apply Zdigits2_le; [lia|]. split; [apply Z.div_pos; lia|].
    apply Z.div_lt_upper_bound; [lia|]. rewrite <- Z.pow_add_r by lia.
    by replace (a + (Zdigits2 m - a)) with (Zdigits2 m) by lia.
  - rewrite Z.div_small; [simpl; lia|]. split; [done|].
    apply (Z.lt_le_trans _ _ _ Hb). apply Z.pow_le_mono_r; lia.
Qed.

Lemma Zdigits2_succ_pow2 (m m2 : Z) :
  0 <= m -> m <= m2 <= m + 1 ->
  Zdigits2 m2 <= Zdigits2 m \/ (Zdigits2 m2 = Zdigits2 m + 1 /\ m2 = 2 ^ Zdigits2 m).
Proof.
  intros Hm Hm2. pose proof (Zdigits2_bound m Hm) as Hb.
  pose proof (Zdigits2_nonneg m) as Hd.
  destruct (Z.lt_ge_cases m2 (2 ^ Zdigits2 m)) as [Hlt|Hge].
  - left. apply Zdigits2_le; lia.
  - right. assert (m2 = 2 ^ Zdigits2 m) as -> by lia. split; [|done].
    assert (Zdigits2 (2 ^ Zdigits2 m) <= Zdigits2 m + 1).
    { apply Zdigits2_le; [lia|]. rewrite Z.pow_add_r, Z.pow_1_r by lia. lia. }
    assert (Zdigits2 m < Zdigits2 (2 ^ Zdigits2 m)); [|lia].
    apply Z.nle_gt. intros Hle.
    pose proof (Zdigits2_bound (2 ^ Zdigits2 m) ltac:(lia)) as Hb2.
    assert (2 ^ Zdigits2 (2 ^ Zdigits2 m) <= 2 ^ Zdigits2 m)
      by (apply Z.pow_le_mono_r; [lia|done]).
    lia.
Qed.

(** The result of rounding is the multiple of [2^e1] nearest to the value
    placed by the mantissa and the location, [e1] being the exponent the
    format gives to that value. *)
Lemma binary_round_aux_nearest (mx ex : Z) (lx : location) (Y D : Z) :
  0 <= mx -> 0 < D -> placed (shr_record_of_loc mx lx) Y D ->
  -1074 <= ex <= 970 -> Zdigits2 mx + ex <= 1023 ->
  let a := Z.max (fexp Double.prec Double.emax (Zdigits2 mx + ex) - ex) 0 in
  exists m2,
    (forall j, Z.abs (m2 * (D * 2 ^ a) - Y) <= Z.abs (j * (D * 2 ^ a) - Y))
    /\ mx / 2 ^ a <= m2
    /\ represents (binary_round_aux Double.prec Double.emax false mx ex lx) m2 (ex + a).
Proof.
  intros Hmx HD Hplaced Hex HD0 a.
  assert (Ha : 0 <= a) by (unfold a; lia).
  unfold binary_round_aux.
  destruct (shr_fexp_spec mx ex lx Hmx) as [Hm1 He1]. fold a in Hm1, He1.
  assert (Hp1 : placed (fst (shr_fexp Double.prec Double.emax mx ex lx)) Y (D * 2 ^ a)).
  { unfold shr_fexp. apply placed_shr; [done| |done].
    by rewrite shr_record_of_loc_m. }
  destruct (shr_fexp Double.prec Double.emax mx ex lx) as [mrs1 e1].
  simpl fst in Hm1, Hp1. simpl snd in He1.
  assert (Hm1pos : 0 <= shr_m mrs1) by (rewrite Hm1; apply Z.div_pos; lia).
  pose proof (round_nearest_even_bounds (shr_m mrs1) (loc_of_shr_record mrs1)) as Hr.
  assert (HD' : 0 < D * 2 ^ a) by (apply Z.mul_pos_pos; lia).
  pose proof (fun j => placed_round mrs1 Y (D * 2 ^ a) j HD' Hp1) as Hnear.
  set (m2 := round_nearest_even (shr_m mrs1) (loc_of_shr_record mrs1)) in *.
  assert (Hm2 : 0 <= m2) by lia.
  exists m2. split; [done|]. split; [lia|]. rewrite <- He1.
  (* the second normalisation *)
  pose proof (Zdigits2_div_pow2 mx a Hmx Ha) as Hd1. rewrite <- Hm1 in Hd1.
  pose proof (Zdigits2_nonneg (shr_m mrs1)) as Hd1pos.
  pose proof (Zdigits2_nonneg mx) as Hdxpos.
  assert (He1min : -1074 <= e1) by (rewrite He1; lia).
  assert (HF : fexp Double.prec Double.emax (Zdigits2 (shr_m mrs1) + e1) <= e1).
  { rewrite fexp_double. unfold a in *. rewrite fexp_double in *. lia. }
  destruct (shr_fexp_spec m2 e1 loc_Exact Hm2) as [Hm3 He2].
  unfold shr_fexp in Hm3, He2 |- *.
  change (shr_record_of_loc m2 loc_Exact) with (Build_shr_record m2 false false)
    in Hm3, He2 |- *.
  set (n2 := fexp Double.prec Double.emax (Zdigits2 m2 + e1) - e1) in *.
  assert (He1max : e1 <= 970).
  { rewrite He1. unfold a. rewrite fexp_double. lia. }
  destruct (Zdigits2_succ_pow2 (shr_m mrs1) m2 Hm1pos Hr) as [Hd2|[Hd2 Hpow]].
  - assert (Hn2 : n2 <= 0).
    { unfold n2. rewrite fexp_double in *. lia. }
    replace (shr (Build_shr_record m2 false false) e1 n2)
      with (Build_shr_record m2 false false, e1)
      by (destruct n2; try done; lia).
    simpl. destruct m2 as [|p|p]; [done| |lia].
    unfold Double.emax, Double.prec.
    destruct (Z.leb_spec e1 (1024 - 53)); [|lia].
    simpl. split; [lia|]. rewrite Z.sub_diag. lia.
  - assert (Hn2 : n2 <= 1).
    { unfold n2. rewrite fexp_double in *. lia. }
    destruct (Z.le_gt_cases n2 0) as [Hle|Hgt].
    + replace (shr (Build_shr_record m2 false false) e1 n2)
        with (Build_shr_record m2 false false, e1)
        by (destruct n2; try done; lia).
      simpl. destruct m2 as [|p|p]; [done| |lia].
      unfold Double.emax, Double.prec.
      destruct (Z.leb_spec e1 (1024 - 53)); [|lia].
      simpl. split; [lia|]. rewrite Z.sub_diag. lia.
    + assert (n2 = 1) as Hn2' by lia.
      assert (Hd1ge : 1 <= Zdigits2 (shr_m mrs1)).
      { destruct (Z.le_gt_cases 1 (Zdigits2 (shr_m mrs1))) as [|Hz]; [done|].
        exfalso. assert (Zdigits2 (shr_m mrs1) = 0) as Hz0 by lia.
        unfold n2 in Hn2'. rewrite fexp_double, Hd2, Hz0 in Hn2'. lia. }
      assert (Heven : m2 = 2 ^ (Zdigits2 (shr_m mrs1) - 1) * 2 ^ 1).
      { rewrite <- Z.pow_add_r by lia. rewrite Hpow. f_equal. lia. }
      rewrite Hn2'. rewrite Heven.
      rewrite (shr_exact (2 ^ (Zdigits2 (shr_m mrs1) - 1)) e1 1) by lia.
      simpl fst. simpl snd. simpl shr_m.
      assert (Hp : 0 < 2 ^ (Zdigits2 (shr_m mrs1) - 1)) by lia.
      destruct (2 ^ (Zdigits2 (shr_m mrs1) - 1)) as [|p|p] eqn:Ep; [lia| |lia].
      unfold Double.emax, Double.prec.
      destruct (Z.leb_spec (e1 + 1) (1024 - 53)); [|lia].
      simpl. split; [lia|]. replace (e1 + 1 - e1) with 1 by lia. done.
Qed.

Lemma div_round_even_near (num den : Z) :
  0 <= num -> 0 < den ->
  2 * Z.abs (div_round_even num den * den - num) <= den.
Proof.
  intros Hn Hd. unfold div_round_even.
  pose proof (Z.div_mod num den ltac:(lia)) as Hdm.
  pose proof (Z.mod_pos_bound num den Hd) as Hr.
  destruct (Z.compare_spec (2 * (num mod den)) den);
    [destruct (Z.even (num / den))|..]; nia.
Qed.

Lemma Zdigits2_lower (m : Z) : 0 < m -> 2 ^ (Zdigits2 m - 1) <= m.
Proof.
  intros Hm. destruct m as [|p|p]; try lia. rewrite Zdigits2_log2.
  replace (Z.log2 (Z.pos p) + 1 - 1) with (Z.log2 (Z.pos p)) by lia.
  apply Z.log2_spec. lia.
Qed.

Lemma Zdigits2_ge (m k : Z) : 0 <= k -> 2 ^ k <= m -> k + 1 <= Zdigits2 m.
Proof.
  intros Hk Hle. assert (Hm : 0 <= m) by lia.
  pose proof (Zdigits2_bound m Hm) as Hb. pose proof (Zdigits2_nonneg m).
  destruct (Z.le_gt_cases (k + 1) (Zdigits2 m)) as [|Hgt]; [done|].
  assert (2 ^ Zdigits2 m <= 2 ^ k) by (apply Z.pow_le_mono_r; lia). lia.
Qed.

(** The shape of the division for a decimal below [2^73 / 10^6]. *)
Lemma div_core_small (n : Z) :
  0 < n < 2 ^ 73 ->
  let k := 73 - Zdigits2 n in
  let q := n * 2 ^ k / 1000000 in
  let a := Zdigits2 q - 53 in
  0 <= k <= 72 /\ 0 <= a <= 1 /\ 2 ^ 52 <= q / 2 ^ a
  /\ SFdiv_core_binary Double.prec Double.emax n 0 1000000 0
     = (q, - k, new_location 1000000 ((n * 2 ^ k) mod 1000000))
  /\ Z.max (fexp Double.prec Double.emax (Zdigits2 q + - k) - - k) 0 = a.
Proof.
  intros [Hn Hlt] k q a.
  pose proof (Zdigits2_le n 73 ltac:(lia) ltac:(lia)) as Hd.
  pose proof (Zdigits2_ge n 0 ltac:(lia) ltac:(lia)) as Hd1.
  assert (Hk : 0 <= k <= 72) by (unfold k; lia).
  destruct (div_core_micro n Hn) as (k' & _ & Hk' & Hcore).
  assert (k' = k) as ->.
  { rewrite Hk', fexp_double. unfold k. lia. }
  pose proof (Zdigits2_lower n Hn) as Hlow.
  pose proof (Zdigits2_bound n ltac:(lia)) as Hup.
  assert (Hpow : 2 ^ (Zdigits2 n - 1) * 2 ^ k = 2 ^ 72).
  { rewrite <- Z.pow_add_r by lia. f_equal. unfold k. lia. }
  assert (Hpow' : 2 ^ Zdigits2 n * 2 ^ k = 2 ^ 73).
  { rewrite <- Z.pow_add_r by lia. f_equal. unfold k. lia. }
  assert (H2k : 0 < 2 ^ k) by lia.
  assert (Hq : 2 ^ 52 <= q < 2 ^ 54).
  { unfold q. split.
    - apply Z.div_le_lower_bound; [lia|].
      assert (2 ^ 72 <= n * 2 ^ k) by nia.
      change (1000000 * 2 ^ 52) with 4503599627370496000000.
      change (2 ^ 72) with 4722366482869645213696 in *. lia.
    - apply Z.div_lt_upper_bound; [lia|].
      assert (n * 2 ^ k < 2 ^ 73) by nia.
      change (2 ^ 73) with 9444732965739290427392 in *.
      change (1000000 * 2 ^ 54) with 18014398509481984000000. lia. }
  pose proof (Zdigits2_ge q 52 ltac:(lia) ltac:(lia)) as Hdq1.
  pose proof (Zdigits2_le q 54 ltac:(lia) ltac:(lia)) as Hdq2.
  split; [done|]. split; [unfold a; lia|]. split; [|split; [done|]].
  - assert (Ha : a = 0 \/ a = 1) by (unfold a; lia).
    destruct Ha as [Ha|Ha]; rewrite Ha.
    + rewrite Z.div_1_r. lia.
    + pose proof (Zdigits2_lower q ltac:(lia)) as Hql.
      replace (Zdigits2 q - 1) with 53 in Hql by (unfold a in Ha; lia).
      apply Z.div_le_lower_bound; [lia|].
      change (2 ^ 1 * 2 ^ 52) with (2 ^ 53). lia.
  - rewrite fexp_double. unfold a. lia.
Qed.

Lemma pow2_split (x y : Z) : 0 <= x -> 0 <= y -> 2 ^ (x + y) = 2 ^ x * 2 ^ y.
Proof. intros. by apply Z.pow_add_r. Qed.

(** The bound may be checked on any finer scale. *)
Lemma within_micro_scale (m m' : positive) (e e' t0 : Z) :
  t0 <= e -> t0 <= e' -> t0 <= 0 ->
  Z.abs (Z.pos m' * 2 ^ (e' - t0) - Z.pos m * 2 ^ (e - t0)) * 1000000 <= 2 ^ (- t0) ->
  within_micro (S754_finite false m e) (S754_finite false m' e').
Proof.
  intros He He' Ht0 Hclose. split; [done|]. split; [done|]. simpl.
  set (t := Z.min (Z.min e e') 0).
  assert (Ht : t0 <= t) by (unfold t; lia).
  assert (Hte : t <= e /\ t <= e' /\ t <= 0) by (unfold t; lia).
  set (c := 2 ^ (t - t0)). assert (Hc : 0 < c) by (unfold c; lia).
  assert (H1 : 2 ^ (e' - t0) = 2 ^ (e' - t) * c).
  { unfold c. rewrite <- pow2_split by lia. f_equal. lia. }
  assert (H2 : 2 ^ (e - t0) = 2 ^ (e - t) * c).
  { unfold c. rewrite <- pow2_split by lia. f_equal. lia. }
  assert (H3 : 2 ^ (- t0) = 2 ^ (- t) * c).
  { unfold c. rewrite <- pow2_split by lia. f_equal. lia. }
  rewrite H1, H2, H3 in Hclose.
  rewrite !Z.mul_1_l.
  set (X' := Z.pos m' * 2 ^ (e' - t)) in *. set (X := Z.pos m * 2 ^ (e - t)) in *.
  replace (Z.pos m' * (2 ^ (e' - t) * c) - Z.pos m * (2 ^ (e - t) * c))
    with ((X' - X) * c) in Hclose by (unfold X, X'; lia).
  rewrite Z.abs_mul, (Z.abs_eq c) in Hclose by lia.
  apply (Z.mul_le_mono_pos_r _ _ c Hc). lia.
Qed.

Lemma micro_units_near (m : positive) (e : Z) :
  e < 0 ->
  0 <= micro_units m e
  /\ 2 * Z.abs (micro_units m e * 2 ^ (- e) - Z.pos m * 1000000) <= 2 ^ (- e).
Proof.
  intros He. unfold micro_units. destruct (Z.leb_spec 0 e); [lia|].
  split.
  - apply div_round_even_bounds; lia.
  - apply div_round_even_near; lia.
Qed.

(** A number below [2^52] that is not an integer is read back within
    [10^-6]. *)
Lemma decimal_small_within (m : positive) (e : Z) :
  bounded Double.prec Double.emax m e = true -> e < 0 -> 0 < micro_units m e ->
  within_micro (S754_finite false m e)
    (decimal_to_double false (micro_units m e) (-6)).
Proof.
  intros Hb He HN.
  destruct (bounded_inv m e Hb) as (_ & _ & Hdm).
  pose proof (micro_units_small m e Hb He) as [_ HN73].
  destruct (micro_units_near m e He) as [_ Hnear].
  set (N := micro_units m e) in *.
  destruct (div_core_small N (conj HN HN73)) as (Hk & Ha & Hm1 & Hcore & Hamax).
  set (k := 73 - Zdigits2 N) in *.
  set (q := N * 2 ^ k / 1000000) in *.
  set (a := Zdigits2 q - 53) in *.
  assert (HNpos : exists p, N = Z.pos p) by (destruct N; try lia; eauto).
  destruct HNpos as [p HNp].
  rewrite HNp at 1. rewrite decimal_to_double_micro, <- HNp, Hcore.
  set (r := (N * 2 ^ k) mod 1000000) in *.
  assert (Hr : 0 <= r < 1000000) by (apply Z.mod_pos_bound; lia).
  pose proof (placed_division q r Hr) as Hplaced.
  assert (HY : q * 1000000 + r = N * 2 ^ k).
  { unfold q, r. pose proof (Z.div_mod (N * 2 ^ k) 1000000 ltac:(lia)). lia. }
  rewrite HY in Hplaced.
  assert (Hq : 0 <= q) by (apply Z.div_pos; lia).
  assert (Hdq : Zdigits2 q <= 54) by (unfold a in Ha; lia).
  destruct (binary_round_aux_nearest q (- k) (new_location 1000000 r)
              (N * 2 ^ k) 1000000 Hq ltac:(lia) Hplaced ltac:(lia) ltac:(lia))
    as (m2 & Hnearest & Hm2 & Hrep).
  rewrite Hamax in Hnearest, Hm2, Hrep.
  set (Pa := 2 ^ a) in *. set (Pk := 2 ^ k) in *. set (Pe := 2 ^ (- e)) in *.
  assert (HPa : 0 < Pa) by (unfold Pa; lia).
  assert (HPk : 0 < Pk) by (unfold Pk; lia).
  assert (HPe : 0 < Pe) by (unfold Pe; lia).
  assert (HYlow : 2 ^ 52 * (1000000 * Pa) <= N * Pk).
  { pose proof (Z.mul_div_le q Pa HPa). nia. }
  assert (Hmlt : Z.pos m < 2 ^ 53).
  { pose proof (Zdigits2_bound (Z.pos m) ltac:(lia)) as Hbm.
    apply (Z.lt_le_trans _ _ _ Hbm). apply Z.pow_le_mono_r; lia. }
  destruct (binary_round_aux Double.prec Double.emax false q (- k)
              (new_location 1000000 r)) as [[|]| | |[|] m3 e2];
    simpl in Hrep; try done; [lia|].
  destruct Hrep as [He2 Hm3].
  destruct (Z.le_gt_cases (- k + a) e) as [Hle|Hgt].
  - (* the number is a multiple of the unit of the result *)
    apply (within_micro_scale m m3 e e2 (- k + a)); [lia..|].
    rewrite Hm3.
    set (Pj := 2 ^ (e - (- k + a))).
    set (Pke := 2 ^ (k + e)).
    assert (HPke : 0 < Pke) by (unfold Pke; lia).
    assert (E1 : Pj * Pa = Pke).
    { unfold Pj, Pa, Pke. rewrite <- pow2_split by lia. f_equal. lia. }
    assert (E2 : Pe * Pke = Pk).
    { unfold Pe, Pke, Pk. rewrite <- pow2_split by lia. f_equal. lia. }
    assert (E3 : 2 ^ (- (- k + a)) * Pa = Pk).
    { unfold Pa, Pk. rewrite <- pow2_split by lia. f_equal. lia. }
    set (j := Z.pos m * Pj).
    pose proof (Hnearest j) as Hn.
    assert (HjD : j * (1000000 * Pa) = Z.pos m * 1000000 * Pke).
    { unfold j. rewrite <- E1. ring. }
    assert (HF : 2 * Z.abs (j * (1000000 * Pa) - N * Pk) <= Pk).
    { rewrite HjD, <- E2.
      replace (Z.pos m * 1000000 * Pke - N * (Pe * Pke))
        with ((Z.pos m * 1000000 - N * Pe) * Pke) by ring.
      rewrite Z.abs_mul, (Z.abs_eq Pke) by lia.
      assert (Z.abs (Z.pos m * 1000000 - N * Pe) = Z.abs (N * Pe - Z.pos m * 1000000))
        as -> by lia.
      rewrite Z.mul_assoc. apply Z.mul_le_mono_nonneg_r; [lia|exact Hnear]. }
    apply (Z.mul_le_mono_pos_r _ _ Pa HPa). rewrite E3.
    replace (Z.abs (m2 - j) * 1000000 * Pa)
      with (Z.abs (m2 * (1000000 * Pa) - j * (1000000 * Pa))).
    2:{ replace (m2 * (1000000 * Pa) - j * (1000000 * Pa))
          with ((m2 - j) * (1000000 * Pa)) by ring.
        rewrite Z.abs_mul, (Z.abs_eq (1000000 * Pa)) by lia. ring. }
    lia.
  - (* the result lies in the next binade *)
    apply (within_micro_scale m m3 e e2 e); [lia..|].
    rewrite Z.sub_diag, Z.pow_0_r, Z.mul_1_r.
    set (Ps := 2 ^ (- k + a - e)).
    set (G := 2 ^ (- k - e)).
    assert (HG : 0 < G) by (unfold G; lia).
    assert (E1 : Ps = Pa * G).
    { unfold Ps, Pa, G. rewrite <- pow2_split by lia. f_equal. lia. }
    assert (E2 : Pe = Pk * G).
    { unfold Pe, Pk, G. rewrite <- pow2_split by lia. f_equal. lia. }
    assert (E3 : 2 ^ (e2 - e) = 2 ^ (e2 - (- k + a)) * Ps).
    { unfold Ps. rewrite <- pow2_split by lia. f_equal. lia. }
    assert (HPs : 2 <= Ps).
    { unfold Ps. change 2 with (2 ^ 1) at 1. apply Z.pow_le_mono_r; lia. }
    rewrite E3, Z.mul_assoc, Hm3.
    pose proof (Hnearest (2 ^ 52)) as Hn.
    set (Dp := 1000000 * Pa) in *.
    assert (HA : m2 * Ps * 1000000 = m2 * Dp * G) by (rewrite E1; unfold Dp; ring).
    assert (HYG : N * Pe = N * Pk * G) by (rewrite E2; ring).
    assert (HnG : Z.abs (m2 * Dp * G - N * Pk * G)
                  <= N * Pk * G - 2 ^ 52 * Dp * G).
    { replace (m2 * Dp * G - N * Pk * G) with ((m2 * Dp - N * Pk) * G) by ring.
      rewrite Z.abs_mul, (Z.abs_eq G) by lia.
      replace (N * Pk * G - 2 ^ 52 * Dp * G) with ((N * Pk - 2 ^ 52 * Dp) * G) by ring.
      apply Z.mul_le_mono_nonneg_r; [lia|]. lia. }
    assert (HXB : Z.pos m * 1000000 < 2 ^ 52 * Dp * G).
    { replace (2 ^ 52 * Dp * G) with (2 ^ 52 * 1000000 * Ps) by (rewrite E1; unfold Dp; ring).
      assert (2 ^ 52 * 1000000 * 2 <= 2 ^ 52 * 1000000 * Ps)
        by (apply Z.mul_le_mono_nonneg_l; lia).
      lia. }
    replace (Z.abs (m2 * Ps - Z.pos m) * 1000000)
      with (Z.abs (m2 * Ps * 1000000 - Z.pos m * 1000000)).
    2:{ replace (m2 * Ps * 1000000 - Z.pos m * 1000000)
          with ((m2 * Ps - Z.pos m) * 1000000) by ring.
        rewrite Z.abs_mul. lia. }
    rewrite HA. rewrite HYG in Hnear. lia.
Qed.

(** The double read back from the six-decimal text of a valid number
    differs from the number by at most [10^-6]. *)
Lemma read_back_within_micro (x : double) :
  valid_number x -> within_micro x (read_back x).
Proof.
  intros (Hv & Hf & Hpos). pose proof (read_back_integer x Hv) as Hint.
  destruct x as [s|s| |s m e]; try done.
  - rewrite Hint. split; [done|]. split; [done|]. simpl. lia.
  - assert (s = false) as -> by by destruct s.
    destruct (Z.le_gt_cases 0 e) as [He|He].
    + rewrite (Hint He). split; [done|]. split; [done|]. simpl.
      rewrite Z.sub_diag. simpl. assert (0 < 2 ^ (- Z.min (Z.min e e) 0)); lia.
    + simpl in Hv. destruct (micro_units_near m e He) as [HN Hnear].
      assert (Hread : read_back (S754_finite false m e)
                      = decimal_to_double false (micro_units m e) (-6)).
      { unfold read_back, to_string_double.
        destruct (num_get_double_fixed6 false _ "" HN (or_introl eq_refl)) as (H & _).
        rewrite string_app_nil_r in H. rewrite H. simpl fst.
        pose proof (decimal_to_double_small false _ (micro_units_small m e Hv He)) as Hfin.
        unfold read_micro.
        by destruct (decimal_to_double false (micro_units m e) (-6)). }
      rewrite Hread.
      destruct (Z.eq_dec (micro_units m e) 0) as [Hz|Hnz].
      * rewrite Hz in Hnear |- *. simpl decimal_to_double.
        split; [done|]. split; [done|]. simpl.
        replace (Z.min (Z.min e 0) 0) with e by lia.
        rewrite Z.sub_diag. simpl in Hnear |- *. lia.
      * apply decimal_small_within; [done|done|lia].
Qed.

Lemma decode_toCSV (u : Uninit) (o : Product) :
  storable o -> decode u (toCSV o) = Some (rounded o).
Proof.
  intros Hs. destruct (storable_fields o Hs) as ([H1 _] & [H2 _] & [H3 _] & H4).
  destruct Hs as [Hv _]. unfold decode. rewrite type_tag_toCSV.
  destruct o as [p|d]; simpl.
  - destruct H4 as [_ H4]. by rewrite (PhysicalProduct_round_trip u p Hv H1 H2 H3 H4).
  - destruct H4 as [[H4 _] [_ H5]].
    by rewrite (DigitalProduct_round_trip u d Hv H1 H2 H3 H4 H5).
Qed.

(** X14. Encoding a storable record and decoding the line changes its
    price and its weight or file size by at most [10^-6] each. *)
Theorem csv_round_trip_tolerance (u : Uninit) (o : Product) :
  storable o ->
  exists o',
    decode u (toCSV o) = Some o'
    /\ within_micro (getPrice o) (getPrice o')
    /\ match o, o' with
       | Physical p, Physical p' => within_micro (weight p) (weight p')
       | Digital d, Digital d' => within_micro (fileSizeMB d) (fileSizeMB d')
       | _, _ => False
       end.
Proof.
  intros Hs. exists (rounded o). split; [by apply decode_toCSV|].
  destruct Hs as [[[Hprice _] Hnum] _].
  destruct o as [p|d]; simpl in *; split; by apply read_back_within_micro.
Qed.

(** The price 9.99 and the weight 1.5 of the example widget. *)
Lemma csv_round_trip_tolerance_witness :
  exists o',
    decode Examples.junk (toCSV (Physical Examples.widget)) = Some o'
    /\ within_micro (getPrice (Physical Examples.widget)) (getPrice o')
    /\ match o' with
       | Physical p' => within_micro (weight Examples.widget) (weight p')
       | Digital _ => False
       end.
Proof.
  apply (csv_round_trip_tolerance Examples.junk (Physical Examples.widget)).
  split; [by vm_compute|].
  repeat (apply Forall_cons; split; [by vm_compute|]). by apply Forall_nil.
Defined.

(** ** Bounds of rounded results *)

Lemma placed_upper (mrs : shr_record) (Y D : Z) :
  0 < D -> placed mrs Y D -> Y < (shr_m mrs + 1) * D.
Proof. destruct mrs as [m [] []]; unfold placed; simpl; lia. Qed.

(** Rounding keeps the mantissa, or takes the next one when the value is
    above the mantissa. *)
Lemma placed_round_cases (mrs : shr_record) (Y D : Z) :
  0 < D -> placed mrs Y D ->
  round_nearest_even (shr_m mrs) (loc_of_shr_record mrs) = shr_m mrs
  \/ (round_nearest_even (shr_m mrs) (loc_of_shr_record mrs) = shr_m mrs + 1
      /\ shr_m mrs * D < Y).
Proof.
  destruct mrs as [m [] []]; unfold placed; simpl; intros HD Hp.
  - right. split; lia.
  - destruct (Z.even m); [by left|]. right. split; lia.
  - by left.
  - by left.
Qed.

Lemma pow2_digits (k : Z) : 0 <= k -> Zdigits2 (2 ^ k) = k + 1.
Proof.
  intros Hk. apply Z.le_antisymm.
  - apply Zdigits2_le; [lia|]. split; [lia|].
    rewrite Z.pow_add_r, Z.pow_1_r by lia. lia.
  - by apply Zdigits2_ge.
Qed.

(** The result of rounding a value given by a mantissa with enough digits
    and a location: the mantissa [m2] at the exponent [e1] of the format
    lies on the side of every multiple of the unit that the value lies on;
    the result is [m2 * 2^e1] in normal form, or infinity when that is too
    large. *)
Lemma binary_round_aux_spec (mx ex : Z) (lx : location) (Y D : Z) :
  0 <= mx -> 0 < D -> placed (shr_record_of_loc mx lx) Y D ->
  ex <= fexp Double.prec Double.emax (Zdigits2 mx + ex) ->
  let e1 := fexp Double.prec Double.emax (Zdigits2 mx + ex) in
  let G := D * 2 ^ (e1 - ex) in
  exists m2,
    0 <= m2
    /\ (forall b, b * G <= Y -> b <= m2)
    /\ (forall b, Y <= b * G -> m2 <= b)
    /\ (-1074 < e1 -> 2 ^ 52 <= m2)
    /\ match binary_round_aux Double.prec Double.emax false mx ex lx with
       | S754_zero false => m2 = 0
       | S754_finite false m3 e3 =>
           bounded Double.prec Double.emax m3 e3 = true
           /\ ((e3 = e1 /\ Z.pos m3 = m2)
               \/ (e3 = e1 + 1 /\ m2 = 2 ^ 53 /\ Z.pos m3 = 2 ^ 52))
       | S754_infinity false => 971 < e1 \/ (e1 = 971 /\ 2 ^ 53 <= m2)
       | _ => False
       end.
Proof.
  intros Hmx HD Hplaced Hdig e1 G.
  assert (Ha : Z.max (e1 - ex) 0 = e1 - ex) by (unfold e1; lia).
  assert (He1min : -1074 <= e1) by (unfold e1; rewrite fexp_double; lia).
  unfold binary_round_aux.
  destruct (shr_fexp_spec mx ex lx Hmx) as [Hm1 He1]. fold e1 in Hm1, He1.
  rewrite Ha in Hm1, He1. replace (ex + (e1 - ex)) with e1 in He1 by lia.
  assert (Hp1 : placed (fst (shr_fexp Double.prec Double.emax mx ex lx)) Y G).
  { pose proof (placed_shr (shr_record_of_loc mx lx) ex (e1 - ex) Y D HD
                  ltac:(by rewrite shr_record_of_loc_m) Hplaced) as H.
    by rewrite Ha in H. }
  destruct (shr_fexp Double.prec Double.emax mx ex lx) as [mrs1 e1'].
  simpl fst in Hm1, Hp1. simpl snd in He1. subst e1'.
  assert (HG : 0 < G) by (unfold G; apply Z.mul_pos_pos; lia).
  assert (Hm1pos : 0 <= shr_m mrs1) by (rewrite Hm1; apply Z.div_pos; lia).
  pose proof (round_nearest_even_bounds (shr_m mrs1) (loc_of_shr_record mrs1)) as Hr.
  pose proof (placed_round_cases mrs1 Y G HG Hp1) as Hcases.
  pose proof (placed_lower mrs1 Y G HG Hp1) as Hlow.
  pose proof (placed_upper mrs1 Y G HG Hp1) as Hupp.
  set (m1 := shr_m mrs1) in *.
  set (m2 := round_nearest_even m1 (loc_of_shr_record mrs1)) in *.
  assert (Hm2 : 0 <= m2) by lia.
  assert (Hnormal : -1074 < e1 -> 2 ^ 52 <= m1).
  { intros Hn. assert (He1eq : e1 = Zdigits2 mx + ex - 53)
      by (unfold e1 in *; rewrite fexp_double in *; lia).
    assert (Hmxpos : 0 < mx).
    { destruct (Z.eq_dec mx 0) as [->|]; [|lia]. simpl in He1eq. lia. }
    pose proof (Zdigits2_lower mx Hmxpos) as Hlo.
    rewrite Hm1. apply Z.div_le_lower_bound; [lia|].
    rewrite <- Z.pow_add_r by lia.
    replace (e1 - ex + 52) with (Zdigits2 mx - 1) by lia. done. }
  exists m2. clearbody m2. split; [done|]. split; [|split; [|split]].
  { intros b Hb. assert (b < m1 + 1); [|lia].
    apply (Z.mul_lt_mono_pos_r G); lia. }
  { intros b Hb. destruct Hcases as [->|[-> Hlt]].
    - apply (Z.mul_le_mono_pos_r _ _ G); lia.
    - assert (m1 < b); [|lia]. apply (Z.mul_lt_mono_pos_r G); lia. }
  { intros Hn. specialize (Hnormal Hn). lia. }
  (* the digits of the mantissas *)
  pose proof (Zdigits2_nonneg mx) as Hdxpos.
  pose proof (Zdigits2_div_pow2 mx (e1 - ex) Hmx ltac:(lia)) as Hd1.
  rewrite <- Hm1 in Hd1. fold m1 in Hd1.
  assert (Hd1' : Zdigits2 m1 <= 53).
  { unfold e1 in Hd1 |- *. rewrite fexp_double in *. lia. }
  pose proof (Zdigits2_nonneg m1) as Hd1pos.
  destruct (shr_fexp_spec m2 e1 loc_Exact Hm2) as [Hm3 He2].
  unfold shr_fexp in Hm3, He2 |- *.
  change (shr_record_of_loc m2 loc_Exact) with (Build_shr_record m2 false false)
    in Hm3, He2 |- *.
  set (n2 := fexp Double.prec Double.emax (Zdigits2 m2 + e1) - e1) in *.
  destruct (Zdigits2_succ_pow2 m1 m2 Hm1pos Hr) as [Hd2|[Hd2 Hpow]].
  - (* no more digits *)
    assert (Hn2 : n2 <= 0) by (unfold n2; rewrite fexp_double; lia).
    replace (shr (Build_shr_record m2 false false) e1 n2)
      with (Build_shr_record m2 false false, e1)
      by (destruct n2; try done; lia).
    simpl. destruct m2 as [|p|p] eqn:Em2; [done| |lia].
    unfold Double.emax, Double.prec.
    destruct (Z.leb_spec e1 (1024 - 53)) as [Hle|Hgt]; [|left; lia].
    split; [|by left]. unfold bounded, canonical_mantissa.
    apply andb_true_iff. split; [|apply Z.leb_le; unfold Double.emax, Double.prec; lia].
    apply Z.eqb_eq. change (Z.pos (digits2_pos p)) with (Zdigits2 (Z.pos p)).
    rewrite fexp_double. destruct (Z.eq_dec e1 (-1074)) as [->|Hne]; [lia|].
    pose proof (Zdigits2_ge (Z.pos p) 52 ltac:(lia) ltac:(specialize (Hnormal ltac:(lia)); lia)).
    lia.
  - (* one more digit: a power of two *)
    destruct (Z.le_gt_cases (Zdigits2 m1) 52) as [Hsmall|Hfull].
    + assert (Hn2 : n2 <= 0) by (unfold n2; rewrite fexp_double; lia).
      replace (shr (Build_shr_record m2 false false) e1 n2)
        with (Build_shr_record m2 false false, e1)
        by (destruct n2; try done; lia).
      simpl. destruct m2 as [|p|p] eqn:Em2; [done| |lia].
      unfold Double.emax, Double.prec.
      destruct (Z.leb_spec e1 (1024 - 53)) as [Hle|Hgt]; [|left; lia].
      split; [|by left]. unfold bounded, canonical_mantissa.
      apply andb_true_iff. split; [|apply Z.leb_le; unfold Double.emax, Double.prec; lia].
      apply Z.eqb_eq. change (Z.pos (digits2_pos p)) with (Zdigits2 (Z.pos p)).
      rewrite fexp_double. destruct (Z.eq_dec e1 (-1074)) as [->|Hne]; [lia|].
      pose proof (Zdigits2_ge (Z.pos p) 52 ltac:(lia) ltac:(specialize (Hnormal ltac:(lia)); lia)).
      lia.
    + assert (Hd53 : Zdigits2 m1 = 53) by lia. rewrite Hd53 in Hpow, Hd2.
      assert (Hn2 : n2 = 1) by (unfold n2; rewrite fexp_double; lia).
      assert (Heven : m2 = 2 ^ 52 * 2 ^ 1) by (rewrite Hpow; reflexivity).
      rewrite Hn2. clearbody n2. rewrite Heven.
      rewrite (shr_exact (2 ^ 52) e1 1) by lia.
      simpl fst. simpl snd. simpl shr_m.
      change (2 ^ 52) with (Z.pos (2 ^ 52)%positive).
      cbv iota. unfold Double.emax, Double.prec.
      destruct (Z.leb_spec (e1 + 1) (1024 - 53)) as [Hle|Hgt].
      * split; [|right; split; [done|]; split; reflexivity].
        unfold bounded, canonical_mantissa.
        apply andb_true_iff. split; [|apply Z.leb_le; unfold Double.emax, Double.prec; lia].
        apply Z.eqb_eq. change (Z.pos (digits2_pos (2 ^ 52))) with 53.
        rewrite fexp_double. lia.
      * destruct (Z.eq_dec e1 971) as [->|]; [right|left; lia].
        split; [done|]. by vm_compute.
Qed.

Lemma leb_finite_exponent (m1 m2 : positive) (e1 e2 : Z) :
  e1 < e2 ->
  Double.leb (S754_finite false m1 e1) (S754_finite false m2 e2) = true.
Proof.
  intros H. unfold Double.leb, SFleb. simpl.
  by rewrite (proj2 (Z.compare_lt_iff e1 e2) H).
Qed.

Lemma leb_finite_mantissa (m1 m2 : positive) (e : Z) :
  Z.pos m1 <= Z.pos m2 ->
  Double.leb (S754_finite false m1 e) (S754_finite false m2 e) = true.
Proof.
  intros H. unfold Double.leb, SFleb. simpl. rewrite Z.compare_refl.
  change (Pos.compare_cont Eq m1 m2) with (Pos.compare m1 m2).
  destruct (Pos.compare_spec m1 m2); try done. lia.
Qed.

Lemma fexp_mono (k k' : Z) :
  k <= k' -> fexp Double.prec Double.emax k <= fexp Double.prec Double.emax k'.
Proof. rewrite !fexp_double. lia. Qed.

(** The product with a power of two, at another scale. *)
Lemma rescale (m e t t' : Z) :
  t <= t' -> t' <= e -> m * 2 ^ (e - t) = m * 2 ^ (e - t') * 2 ^ (t' - t).
Proof.
  intros H1 H2. rewrite <- Z.mul_assoc, <- pow2_split by lia. do 2 f_equal. lia.
Qed.

(** Rounding does not go below a number of the format that the value is
    not below. *)
Lemma round_ge (mx ex : Z) (lx : location) (Y D : Z) (mB : positive) (eB t : Z) :
  0 <= mx -> 0 < D -> placed (shr_record_of_loc mx lx) Y D ->
  ex <= fexp Double.prec Double.emax (Zdigits2 mx + ex) ->
  bounded Double.prec Double.emax mB eB = true ->
  t <= ex -> t <= eB ->
  Z.pos mB * 2 ^ (eB - t) * D <= Y * 2 ^ (ex - t) ->
  Double.leb (S754_finite false mB eB)
    (binary_round_aux Double.prec Double.emax false mx ex lx) = true.
Proof.
  intros Hmx HD Hplaced Hdig Hb Htx HtB Hle.
  destruct (bounded_inv mB eB Hb) as (HcB & HeB & HdB).
  assert (HeBmin : -1074 <= eB) by (rewrite <- HcB, fexp_double; lia).
  destruct (binary_round_aux_spec mx ex lx Y D Hmx HD Hplaced Hdig)
    as (m2 & Hm2 & Hlow & _ & Hnormal & Hres).
  set (e1 := fexp Double.prec Double.emax (Zdigits2 mx + ex)) in *.
  (* the exponent of the result is not below that of the bound *)
  assert (He1 : eB <= e1).
  { pose proof (placed_upper _ Y D HD Hplaced) as Hupp.
    rewrite shr_record_of_loc_m in Hupp.
    pose proof (Zdigits2_bound mx Hmx) as Hbx.
    pose proof (Zdigits2_lower (Z.pos mB) ltac:(lia)) as HlB.
    pose proof (Zdigits2_nonneg mx) as Hdx.
    assert (H1 : Z.pos mB * 2 ^ (eB - t) < 2 ^ Zdigits2 mx * 2 ^ (ex - t)).
    { apply (Z.mul_lt_mono_pos_r D); [done|].
      apply (Z.le_lt_trans _ _ _ Hle).
      assert (0 < 2 ^ (ex - t)) by lia.
      assert (Y * 2 ^ (ex - t) < (mx + 1) * D * 2 ^ (ex - t))
        by (apply Z.mul_lt_mono_pos_r; lia).
      assert ((mx + 1) * D * 2 ^ (ex - t) <= 2 ^ Zdigits2 mx * D * 2 ^ (ex - t)).
      { apply Z.mul_le_mono_nonneg_r; [lia|].
        apply Z.mul_le_mono_nonneg_r; lia. }
      lia. }
    assert (H2 : 2 ^ (Zdigits2 (Z.pos mB) - 1) * 2 ^ (eB - t)
                 <= Z.pos mB * 2 ^ (eB - t))
      by (apply Z.mul_le_mono_nonneg_r; lia).
    pose proof (Zdigits2_nonneg (Z.pos mB)).
    assert (0 < Zdigits2 (Z.pos mB)) by (simpl; lia).
    rewrite <- !pow2_split in * by lia.
    assert (Zdigits2 (Z.pos mB) - 1 + (eB - t) < Zdigits2 mx + (ex - t)).
    { apply (Z.pow_lt_mono_r_iff 2); lia. }
    rewrite <- HcB. unfold e1. apply fexp_mono. lia. }
  destruct (Z.eq_dec e1 eB) as [Heq|Hne].
  - (* the same exponent: the mantissa decides *)
    assert (HmB : Z.pos mB <= m2).
    { apply Hlow. rewrite Heq.
      rewrite (rescale (Z.pos mB) eB t ex) in Hle by lia.
      rewrite Z.mul_assoc.
      apply (Z.mul_le_mono_pos_r _ _ (2 ^ (ex - t))); [lia|].
      lia. }
    destruct (binary_round_aux Double.prec Double.emax false mx ex lx)
      as [[|]|[|]| |[|] m3 e3]; try done; [lia|].
    destruct Hres as [_ [[-> <-]|(-> & _ & _)]].
    + rewrite Heq. by apply leb_finite_mantissa.
    + apply leb_finite_exponent. lia.
  - (* a larger exponent *)
    specialize (Hnormal ltac:(lia)).
    destruct (binary_round_aux Double.prec Double.emax false mx ex lx)
      as [[|]|[|]| |[|] m3 e3]; try done; [lia|].
    destruct Hres as [_ [[-> _]|(-> & _ & _)]]; apply leb_finite_exponent; lia.
Qed.

(** Rounding does not go above a number of the format that the value is
    not above. *)
Lemma round_le (mx ex : Z) (lx : location) (Y D : Z) (mB : positive) (eB t : Z) :
  0 <= mx -> 0 < D -> placed (shr_record_of_loc mx lx) Y D ->
  ex <= fexp Double.prec Double.emax (Zdigits2 mx + ex) ->
  bounded Double.prec Double.emax mB eB = true ->
  t <= ex -> t <= eB ->
  Y * 2 ^ (ex - t) <= Z.pos mB * 2 ^ (eB - t) * D ->
  Double.leb (binary_round_aux Double.prec Double.emax false mx ex lx)
    (S754_finite false mB eB) = true.
Proof.
  intros Hmx HD Hplaced Hdig Hb Htx HtB Hle.
  destruct (bounded_inv mB eB Hb) as (HcB & HeB & HdB).
  assert (HeBmin : -1074 <= eB) by (rewrite <- HcB, fexp_double; lia).
  destruct (binary_round_aux_spec mx ex lx Y D Hmx HD Hplaced Hdig)
    as (m2 & Hm2 & _ & Hupp & _ & Hres).
  set (e1 := fexp Double.prec Double.emax (Zdigits2 mx + ex)) in *.
  pose proof (Zdigits2_bound (Z.pos mB) ltac:(lia)) as HbB.
  assert (HmB : Z.pos mB < 2 ^ 53).
  { apply (Z.lt_le_trans _ _ _ HbB). apply Z.pow_le_mono_r; lia. }
  (* the exponent of the result is not above that of the bound *)
  assert (He1 : e1 <= eB).
  { destruct (Z.eq_dec mx 0) as [->|Hnz].
    - unfold e1 in *. rewrite fexp_double in *. simpl Zdigits2 in *. lia.
    - pose proof (placed_lower _ Y D HD Hplaced) as Hlo.
      rewrite shr_record_of_loc_m in Hlo.
      pose proof (Zdigits2_lower mx ltac:(lia)) as Hlx.
      pose proof (Zdigits2_nonneg mx) as Hdx.
      assert (0 < Zdigits2 mx).
      { destruct (Z.eq_dec (Zdigits2 mx) 0) as [Hz|]; [|lia].
        pose proof (Zdigits2_bound mx Hmx) as Hbx. rewrite Hz in Hbx. simpl in Hbx. lia. }
      assert (H1 : mx * 2 ^ (ex - t) <= Z.pos mB * 2 ^ (eB - t)).
      { apply (Z.mul_le_mono_pos_r _ _ D); [done|].
        assert (mx * D * 2 ^ (ex - t) <= Y * 2 ^ (ex - t))
          by (apply Z.mul_le_mono_nonneg_r; lia).
        lia. }
      assert (H2 : 2 ^ (Zdigits2 mx - 1) * 2 ^ (ex - t) <= mx * 2 ^ (ex - t))
        by (apply Z.mul_le_mono_nonneg_r; lia).
      assert (H3 : Z.pos mB * 2 ^ (eB - t) < 2 ^ Zdigits2 (Z.pos mB) * 2 ^ (eB - t))
        by (apply Z.mul_lt_mono_pos_r; lia).
      pose proof (Zdigits2_nonneg (Z.pos mB)).
      rewrite <- !pow2_split in * by lia.
      assert (Zdigits2 mx - 1 + (ex - t) < Zdigits2 (Z.pos mB) + (eB - t)).
      { apply (Z.pow_lt_mono_r_iff 2); lia. }
      rewrite <- HcB. unfold e1. apply fexp_mono. lia. }
  assert (Hm2B : m2 <= Z.pos mB * 2 ^ (eB - e1)).
  { apply Hupp. fold e1.
    rewrite (rescale Y ex t ex) in Hle by lia. rewrite Z.sub_diag, Z.mul_1_r in Hle.
    rewrite (rescale (Z.pos mB) eB t ex) in Hle by lia.
    assert (Y <= Z.pos mB * 2 ^ (eB - ex) * D).
    { apply (Z.mul_le_mono_pos_r _ _ (2 ^ (ex - t))); [lia|]. lia. }
    rewrite (rescale (Z.pos mB) eB ex e1) in H by lia. lia. }
  destruct (binary_round_aux Double.prec Double.emax false mx ex lx)
    as [[|]|[|]| |[|] m3 e3]; try done.
  - (* infinity is excluded *)
    exfalso. destruct Hres as [Hbig|[Heq Hbig]]; [lia|].
    assert (eB = e1) as Hee by lia. rewrite Hee, Z.sub_diag, Z.mul_1_r in Hm2B. lia.
  - destruct Hres as [_ [[-> <-]|(-> & -> & Hm3)]].
    + destruct (Z.eq_dec e1 eB) as [Heq|Hne].
      * rewrite Heq, Z.sub_diag, Z.mul_1_r in Hm2B. rewrite Heq.
        by apply leb_finite_mantissa.
      * apply leb_finite_exponent. lia.
    + destruct (Z.eq_dec e1 eB) as [Heq|Hne].
      { rewrite Heq, Z.sub_diag, Z.mul_1_r in Hm2B. lia. }
      destruct (Z.eq_dec (e1 + 1) eB) as [Heq|Hne'].
      * rewrite <- Heq in Hm2B |- *. replace (e1 + 1 - e1) with 1 in Hm2B by lia.
        apply leb_finite_mantissa. rewrite Hm3.
        change (2 ^ 53) with (2 ^ 52 * 2) in Hm2B. change (2 ^ 1) with 2 in Hm2B. lia.
      * apply leb_finite_exponent. lia.
Qed.

(** *** The operations on numbers that are not negative *)

Lemma non_negative_cases (x : double) :
  non_negative x <->
  match x with
  | S754_zero _ | S754_finite false _ _ | S754_infinity false => True
  | _ => False
  end.
Proof. unfold non_negative. by destruct x as [[|]|[|]| |[|] m e]. Qed.

Lemma binary_round_aux_sign (mx ex : Z) (lx : location) :
  0 <= mx -> non_negative (binary_round_aux Double.prec Double.emax false mx ex lx).
Proof.
  intros Hmx. apply non_negative_cases. unfold binary_round_aux.
  destruct (shr_fexp_spec mx ex lx Hmx) as [Hm1 _].
  destruct (shr_fexp Double.prec Double.emax mx ex lx) as [mrs1 e1]. simpl fst in Hm1.
  assert (Hm1pos : 0 <= shr_m mrs1) by (rewrite Hm1; apply Z.div_pos; lia).
  pose proof (round_nearest_even_bounds (shr_m mrs1) (loc_of_shr_record mrs1)) as Hr.
  set (m2 := round_nearest_even (shr_m mrs1) (loc_of_shr_record mrs1)) in *.
  destruct (shr_fexp_spec m2 e1 loc_Exact ltac:(lia)) as [Hm3 _].
  destruct (shr_fexp Double.prec Double.emax m2 e1 loc_Exact) as [mrs2 e2].
  simpl fst in Hm3.
  assert (Hm3pos : 0 <= shr_m mrs2) by (rewrite Hm3; apply Z.div_pos; lia).
  destruct (shr_m mrs2) as [|p|p]; [done| |lia].
  by destruct (e2 <=? Double.emax - Double.prec).
Qed.

Lemma shl_align_spec (mx : positive) (ex ex' : Z) :
  snd (shl_align mx ex ex') = Z.min ex ex'
  /\ Z.pos (fst (shl_align mx ex ex')) = Z.pos mx * 2 ^ (ex - Z.min ex ex').
Proof.
  unfold shl_align. destruct (ex' - ex) as [|d|d] eqn:E; simpl.
  - replace (Z.min ex ex') with ex by lia. rewrite Z.sub_diag. split; lia.
  - replace (Z.min ex ex') with ex by lia. rewrite Z.sub_diag. split; lia.
  - replace (Z.min ex ex') with ex' by lia. split; [done|].
    change (Pos.iter xO mx d) with (shift_pos d mx).
    rewrite shift_pos_correct. replace (ex - ex') with (Z.pos d) by lia.
    change (Z.pow_pos 2 d) with (2 ^ Z.pos d). lia.
Qed.

(** [binary_round] is the rounding of a mantissa with enough digits. *)
Lemma binary_round_aligned (ms : positive) (es : Z) :
  exists (mz : positive) (ez : Z),
    binary_round Double.prec Double.emax false ms es
    = binary_round_aux Double.prec Double.emax false (Z.pos mz) ez loc_Exact
    /\ ez <= es /\ Z.pos mz = Z.pos ms * 2 ^ (es - ez)
    /\ ez <= fexp Double.prec Double.emax (Zdigits2 (Z.pos mz) + ez).
Proof.
  unfold binary_round.
  change (Z.pos (digits2_pos ms)) with (Zdigits2 (Z.pos ms)).
  set (f := fexp Double.prec Double.emax (Zdigits2 (Z.pos ms) + es)).
  destruct (shl_align_spec ms es f) as [He Hm].
  destruct (shl_align ms es f) as [mz ez]. simpl in He, Hm. subst ez.
  exists mz, (Z.min es f). split; [done|]. split; [lia|]. split; [done|].
  rewrite Hm, Zdigits2_shift by lia.
  replace (Zdigits2 (Z.pos ms) + (es - Z.min es f) + Z.min es f)
    with (Zdigits2 (Z.pos ms) + es) by lia.
  fold f. lia.
Qed.

Lemma binary_round_sign (ms : positive) (es : Z) :
  non_negative (binary_round Double.prec Double.emax false ms es).
Proof.
  destruct (binary_round_aligned ms es) as (mz & ez & -> & _).
  by apply binary_round_aux_sign.
Qed.

Lemma mul_non_negative (x y : double) :
  non_negative x -> non_negative y ->
  Double.is_finite x = true -> Double.is_finite y = true ->
  non_negative (Double.mul x y).
Proof.
  intros Hx%non_negative_cases Hy%non_negative_cases Hfx Hfy.
  destruct x as [sx|[|]| |[|] mx ex], y as [sy|[|]| |[|] my ey]; try done.
  unfold Double.mul. simpl. by apply binary_round_aux_sign.
Qed.

Lemma add_non_negative (x y : double) :
  non_negative x -> non_negative y -> non_negative (Double.add x y).
Proof.
  intros Hx%non_negative_cases Hy%non_negative_cases.
  destruct x as [sx|[|]| |[|] mx ex], y as [sy|[|]| |[|] my ey]; try done;
    try (apply non_negative_cases; unfold Double.add; simpl; done).
  - apply non_negative_cases. unfold Double.add. simpl. by destruct sx, sy.
  - unfold Double.add. simpl. apply binary_round_sign.
Qed.

Lemma of_int_non_negative (z : Z) :
  0 <= z -> non_negative (Double.of_int z).
Proof.
  intros Hz. unfold Double.of_int, binary_normalize.
  destruct z as [|p|p]; [done| |lia]. apply binary_round_sign.
Qed.

Lemma of_int_finite (z : Z) :
  0 <= z <= INT_MAX -> Double.is_finite (Double.of_int z) = true.
Proof.
  intros [Hz Hmax]. unfold Double.of_int, binary_normalize.
  destruct z as [|p|p]; [done| |lia].
  destruct (binary_round_aligned p 0) as (mz & ez & -> & Hez & Hmz & _).
  assert (Hd : Zdigits2 (Z.pos p) <= 31).
  { apply Zdigits2_le; [lia|]. unfold INT_MAX in Hmax. lia. }
  assert (Hdz : Zdigits2 (Z.pos mz) + ez <= 1023)
    by (rewrite Hmz, Zdigits2_shift by lia; lia).
  pose proof (binary_round_aux_finite false (Z.pos mz) ez loc_Exact ltac:(lia)
                ltac:(lia) Hdz) as Hfin.
  by destruct (binary_round_aux Double.prec Double.emax false (Z.pos mz) ez loc_Exact).
Qed.

(** The value of a valid record is a number that is not negative. *)
Lemma calculateValue_non_negative (o : Product) :
  valid_base (base o) -> non_negative (calculateValue o).
Proof.
  intros [(Hv & Hf & Hp) Hq].
  assert (calculateValue o
          = Double.mul (price (base o)) (Double.of_int (quantity (base o))))
    as -> by by destruct o.
  apply mul_non_negative; [done| |done|].
  - apply of_int_non_negative. lia.
  - by apply of_int_finite.
Qed.

Lemma total_from_non_negative (h : Heap) (ps : list Ptr) :
  forall (t0 t : double),
    (forall p o, p ∈ ps -> deref h p = Some o -> valid_base (base o)) ->
    non_negative t0 -> total_from h ps t0 = Some t -> non_negative t.
Proof.
  induction ps as [|p ps IH]; intros t0 t Hvalid Ht0; simpl.
  - by intros [= <-].
  - destruct (deref h p) as [o|] eqn:Ho; [|done]. apply IH.
    + intros q o' Hq. apply Hvalid. by right.
    + apply add_non_negative; [done|]. apply calculateValue_non_negative.
      apply (Hvalid p o); [by left|done].
Qed.

(** X15. The total value of an inventory of valid records (finite prices
    that are not negative, quantities from 0 to [INT_MAX]) is a number and
    it is not negative; so is the value of each record. *)
Theorem getTotalValue_non_negative (h : Heap) (inv : Inventory) :
  consistent h inv ->
  (forall p o, p ∈ products inv -> deref h p = Some o -> valid_base (base o)) ->
  exists t,
    getTotalValue h inv = Some t /\ non_negative t
    /\ forall p o, p ∈ products inv -> deref h p = Some o ->
         non_negative (calculateValue o).
Proof.
  intros (Hlive & _) Hvalid.
  destruct (total_from_live h (products inv) (Double.of_int 0) Hlive) as [t Ht].
  exists t. split; [done|]. split.
  - by apply (total_from_non_negative h (products inv) (Double.of_int 0) t Hvalid).
  - intros p o Hin Ho. apply calculateValue_non_negative. by apply (Hvalid p o).
Qed.

(** *** The shipping cost *)

Lemma leb_refl_finite (m : positive) (e : Z) :
  Double.leb (S754_finite false m e) (S754_finite false m e) = true.
Proof. apply leb_finite_mantissa. lia. Qed.

(** Adding a number that is not negative does not go below the first
    operand. *)
Lemma add_ge_left (mB : positive) (eB : Z) (y : double) :
  bounded Double.prec Double.emax mB eB = true -> non_negative y ->
  Double.leb (S754_finite false mB eB) (Double.add (S754_finite false mB eB) y) = true.
Proof.
  intros Hb Hy%non_negative_cases.
  destruct y as [sy|[|]| |[|] my ey]; try done.
  - apply leb_refl_finite.
  - unfold Double.add. simpl.
    destruct (shl_align_spec mB eB (Z.min eB ey)) as [_ HB].
    destruct (shl_align_spec my ey (Z.min eB ey)) as [_ Hy'].
    set (mB' := fst (shl_align mB eB (Z.min eB ey))) in *.
    set (my' := fst (shl_align my ey (Z.min eB ey))) in *.
    change (Z.pos mB' + Z.pos my') with (Z.pos (mB' + my')).
    unfold binary_normalize.
    destruct (binary_round_aligned (mB' + my') (Z.min eB ey))
      as (mz & ez & -> & Hez & Hmz & Hdig).
    apply (round_ge (Z.pos mz) ez loc_Exact (Z.pos mz) 1 mB eB ez);
      [lia|lia| |done|done|lia|lia|].
    + unfold placed. simpl. lia.
    + rewrite Z.sub_diag, !Z.mul_1_r, Hmz.
      replace (Z.min eB (Z.min eB ey)) with (Z.min eB ey) in HB by lia.
      rewrite (rescale (Z.pos mB) eB ez (Z.min eB ey)) by lia.
      apply Z.mul_le_mono_nonneg_r; [lia|]. rewrite <- HB. lia.
Qed.

(** X16. The shipping cost is the base rate for a weight that is zero or
    negative; for every weight that is a number it is not below the base
    rate; for a weight that is not a number it is not a number.  A record
    built by the constructor always ships for the base rate or more. *)
Theorem shipping_cost_at_least_base (p : PhysicalProduct) :
  (Double.leb (weight p) (Double.of_int 0) = true ->
     calculateShippingCost p = BASE_RATE)
  /\ (Double.is_nan (weight p) = false ->
      Double.leb BASE_RATE (calculateShippingCost p) = true)
  /\ (Double.is_nan (weight p) = true -> calculateShippingCost p = S754_nan)
  /\ forall (s n c sup : string) (pr w : double) (q : Z),
       Double.leb BASE_RATE
         (calculateShippingCost (PhysicalProduct.make s n pr q c w sup)) = true.
Proof.
  assert (Hbase : exists m e, BASE_RATE = S754_finite false m e
                              /\ bounded Double.prec Double.emax m e = true).
  { eexists _, _. split; by vm_compute. }
  destruct Hbase as (mB & eB & HB & Hb).
  assert (Hgen : forall w, Double.is_nan w = false ->
            Double.leb BASE_RATE
              (if Double.leb w (Double.of_int 0) then BASE_RATE
               else Double.add BASE_RATE (Double.mul w PER_POUND_RATE)) = true).
  { intros w Hnan. destruct (Double.leb w (Double.of_int 0)) eqn:Hle.
    - rewrite HB. apply leb_refl_finite.
    - rewrite HB. apply add_ge_left; [done|].
      destruct w as [sw|[|]| |[|] mw ew]; try done.
      apply (binary_round_aux_sign _ _ loc_Exact). lia. }
  split; [|split; [|split]].
  - intros H. unfold calculateShippingCost. by rewrite H.
  - intros Hnan. by apply Hgen.
  - intros Hnan. unfold calculateShippingCost.
    destruct (weight p); try done.
  - intros s n c sup pr w q. unfold calculateShippingCost. simpl weight.
    apply Hgen. destruct (Double.leb (Double.of_int 0) w) eqn:E; [|done].
    by destruct w.
Qed.

(** *** The example inventory and the example widget *)

Lemma valid_invABC (p : Ptr) (o : Product) :
  p ∈ products Examples.invABC -> deref Examples.heapABC p = Some o ->
  valid_base (base o).
Proof.
  intros Hin Ho.
  apply elem_of_cons in Hin as [->|Hin]; [injection Ho as <-; by vm_compute|].
  apply elem_of_cons in Hin as [->|Hin]; [injection Ho as <-; by vm_compute|].
  apply elem_of_cons in Hin as [->|Hin]; [injection Ho as <-; by vm_compute|].
  by apply elem_of_nil in Hin.
Qed.

(** The total value of the example inventory. *)
Lemma getTotalValue_non_negative_witness :
  exists t,
    getTotalValue Examples.heapABC Examples.invABC = Some t /\ non_negative t
    /\ forall p o, p ∈ products Examples.invABC ->
         deref Examples.heapABC p = Some o -> non_negative (calculateValue o).
Proof.
  exact (getTotalValue_non_negative Examples.heapABC Examples.invABC
           consistent_invABC valid_invABC).
Defined.

(** The widget of 1.5 pounds, and a record built with the weight -2. *)
Lemma shipping_cost_at_least_base_witness :
  Double.leb BASE_RATE (calculateShippingCost Examples.widget) = true
  /\ calculateShippingCost
       (PhysicalProduct.make "A" "a" (Double.of_int 1) 1 "c" (Double.of_int (-2)) "s")
     = BASE_RATE.
Proof.
  split.
  - apply (proj1 (proj2 (shipping_cost_at_least_base Examples.widget))).
    by vm_compute.
  - apply (proj1 (shipping_cost_at_least_base
                    (PhysicalProduct.make "A" "a" (Double.of_int 1) 1 "c"
                       (Double.of_int (-2)) "s"))).
    by vm_compute.
Defined.

(** ** The numbers of a record are never negative *)

Lemma clamp_is_non_negative (x : double) :
  non_negative (if Double.leb (Double.of_int 0) x then x else Double.of_int 0).
Proof.
  unfold non_negative. destruct (Double.leb (Double.of_int 0) x) eqn:E; [done|].
  apply leb_zero_self.
Qed.

Lemma clamp_quantity_non_negative (q : Z) : 0 <= (if q >=? 0 then q else 0).
Proof. destruct (Z.geb_spec q 0); lia. Qed.

Lemma PhysicalProduct_make_well_formed (s n c sup : string) (pr w : double) (q : Z) :
  well_formed (Physical (PhysicalProduct.make s n pr q c w sup)).
Proof.
  split; [apply clamp_is_non_negative|].
  split; [apply clamp_quantity_non_negative | apply clamp_is_non_negative].
Qed.

Lemma DigitalProduct_make_well_formed (s n c link lic : string) (pr size : double)
    (q : Z) :
  well_formed (Digital (DigitalProduct.make s n pr q c link size lic)).
Proof.
  split; [apply clamp_is_non_negative|].
  split; [apply clamp_quantity_non_negative | apply clamp_is_non_negative].
Qed.

Lemma decode_well_formed (u : Uninit) (line : string) (o : Product) :
  decode u line = Some o -> well_formed o.
Proof.
  unfold decode.
  destruct (String.eqb (type_tag line) "Physical").
  - intros [= <-]. unfold PhysicalProduct_fromCSV.
    repeat match goal with
           | |- context [let '(_, _) := ?x in _] => destruct x
           end.
    apply PhysicalProduct_make_well_formed.
  - destruct (String.eqb (type_tag line) "Digital"); [|done].
    intros [= <-]. unfold DigitalProduct_fromCSV.
    repeat match goal with
           | |- context [let '(_, _) := ?x in _] => destruct x
           end.
    apply DigitalProduct_make_well_formed.
Qed.




Lemma first_by_sku_subset (os : list Product) :
  forall seen o, o ∈ first_by_sku seen os -> o ∈ os.
Proof.
  induction os as [|x os IH]; intros seen o; simpl; [done|].
  destruct (bool_decide (getSku x ∈ seen)).
  - intros H. right. by apply (IH seen).
  - intros [->|H]%elem_of_cons; [by left|]. right.
    by apply (IH (seen ++ [getSku x])%list o).
Qed.

Lemma decoded_well_formed (u : Uninit) (lines : list string) (o : Product) :
  o ∈ decoded u lines -> well_formed o.
Proof.
  unfold decoded. rewrite list_elem_of_omap. intros (line & _ & H).
  destruct (is_empty line || starts_with_hash line); [done|].
  by apply (decode_well_formed u line).
Qed.

(** X18. Whatever the file holds, after [loadFromFile] every record of
    the store has a price, a quantity and a weight or file size that are
    numbers and are not negative. *)
Theorem loadFromFile_well_formed (u : Uninit) (fs : Files) (h : Heap)
    (inv : Inventory) (content : string) :
  consistent h inv -> fs !! dataFilePath inv = Some content ->
  exists h' inv',
    loadFromFile u fs h inv = Some (true, (h', inv'))
    /\ forall p o, p ∈ products inv' -> deref h' p = Some o -> well_formed o.
Proof.
  intros Hc Hfile. pose proof Hc as (Hlive & Hnd & _). apply NoDup_fmap_1 in Hnd.
  destruct (delete_all_spec h (products inv) Hlive Hnd) as (h1 & Hdel & _).
  destruct (load_lines_spec u (file_lines content) h1
              (mkInventory [] ∅ (dataFilePath inv)) [] (consistent_new _ _) eq_refl)
    as (h' & inv' & Hload & Hobj & _).
  exists h', inv'. unfold loadFromFile, clearAll. rewrite Hfile, Hdel, Hload.
  split; [done|]. intros p o Hin Ho.
  unfold objects in Hobj. rewrite mapM_Some in Hobj. simpl in Hobj.
  apply list_elem_of_lookup_1 in Hin as [i Hi].
  destruct (Forall2_lookup_l _ _ _ i p Hobj Hi) as (o' & Ho' & Hd).
  assert (o' = o) as -> by congruence.
  apply (decoded_well_formed u (file_lines content)).
  apply (first_by_sku_subset _ []). by apply list_elem_of_lookup_2 in Ho'.
Qed.

(** The file of the example, loaded into a new inventory. *)
Lemma loadFromFile_well_formed_witness :
  exists h' inv',
    loadFromFile Examples.junk
      (<["inventory.csv" := Examples.file_with_duplicate]> ∅) ∅
      (Inventory_new "inventory.csv")
    = Some (true, (h', inv'))
    /\ forall p o, p ∈ products inv' -> deref h' p = Some o -> well_formed o.
Proof.
  exact (loadFromFile_well_formed Examples.junk
           (<["inventory.csv" := Examples.file_with_duplicate]> ∅) ∅
           (Inventory_new "inventory.csv") Examples.file_with_duplicate
           (consistent_new _ _) (lookup_insert_eq _ _ _)).
Defined.

(** ** A discount does not raise the price *)

(** The location of a remainder places the quotient. *)
Lemma placed_new_location (q r D : Z) :
  0 < D -> 0 <= r < D ->
  placed (shr_record_of_loc q (new_location D r)) (q * D + r) D.
Proof.
  intros HD Hr. unfold new_location.
  destruct (Z.even D) eqn:Hev.
  - unfold new_location_even. destruct (Z.eqb_spec r 0) as [->|Hne].
    + unfold placed. simpl. lia.
    + destruct (Z.compare_spec (2 * r) D); unfold placed; simpl; lia.
  - unfold new_location_odd. destruct (Z.eqb_spec r 0) as [->|Hne].
    + unfold placed. simpl. lia.
    + assert (Hodd : 2 * r <> D).
      { intros <-. by rewrite Z.even_mul in Hev. }
      destruct (Z.compare_spec (2 * r + 1) D); unfold placed; simpl; lia.
Qed.

Lemma Zdigits2_mul (a b : Z) :
  0 < a -> 0 < b -> Zdigits2 a + Zdigits2 b - 1 <= Zdigits2 (a * b).
Proof.
  intros Ha Hb. pose proof (Zdigits2_lower a Ha) as Hla.
  pose proof (Zdigits2_lower b Hb) as Hlb.
  assert (0 < Zdigits2 a) by (destruct a; try lia; simpl; lia).
  assert (0 < Zdigits2 b) by (destruct b; try lia; simpl; lia).
  pose proof (Zdigits2_ge (a * b) (Zdigits2 a - 1 + (Zdigits2 b - 1)) ltac:(lia)) as Hge.
  rewrite pow2_split in Hge by lia.
  assert (2 ^ (Zdigits2 a - 1) * 2 ^ (Zdigits2 b - 1) <= a * b)
    by (apply Z.mul_le_mono_nonneg; lia).
  lia.
Qed.

Lemma Zdigits2_div (a b s : Z) :
  0 < a -> 0 < b -> 0 <= s ->
  Zdigits2 a + s - Zdigits2 b <= Zdigits2 (a * 2 ^ s / b).
Proof.
  intros Ha Hb Hs. pose proof (Zdigits2_lower a Ha) as Hla.
  pose proof (Zdigits2_bound b ltac:(lia)) as Hub.
  pose proof (Zdigits2_nonneg (a * 2 ^ s / b)) as Hq.
  assert (0 < Zdigits2 a) by (destruct a; try lia; simpl; lia).
  destruct (Z.le_gt_cases (Zdigits2 a + s - Zdigits2 b) 0) as [|Hpos]; [lia|].
  set (k := Zdigits2 a + s - Zdigits2 b - 1).
  assert (Hge : 2 ^ k <= a * 2 ^ s / b).
  { apply Z.div_le_lower_bound; [lia|].
    assert (b * 2 ^ k <= 2 ^ Zdigits2 b * 2 ^ k)
      by (apply Z.mul_le_mono_nonneg_r; unfold k; lia).
    pose proof (Zdigits2_nonneg b).
    rewrite <- pow2_split in H0 by (unfold k; lia).
    replace (Zdigits2 b + k) with (Zdigits2 a - 1 + s) in H0 by (unfold k; lia).
    rewrite pow2_split in H0 by lia.
    assert (2 ^ (Zdigits2 a - 1) * 2 ^ s <= a * 2 ^ s)
      by (apply Z.mul_le_mono_nonneg_r; lia).
    lia. }
  pose proof (Zdigits2_ge _ k ltac:(unfold k; lia) Hge). unfold k in *. lia.
Qed.

(** The quotient, the exponent and the location computed for a division:
    the quotient has enough digits and the location places the exact
    ratio. *)
Lemma SFdiv_core_spec (mx my : positive) (ex ey : Z) :
  exists (q e' s : Z) (l : location),
    SFdiv_core_binary Double.prec Double.emax (Z.pos mx) ex (Z.pos my) ey = (q, e', l)
    /\ 0 <= s /\ e' = ex - ey - s /\ 0 <= q
    /\ placed (shr_record_of_loc q l) (Z.pos mx * 2 ^ s) (Z.pos my)
    /\ e' <= fexp Double.prec Double.emax (Zdigits2 q + e').
Proof.
  unfold SFdiv_core_binary.
  set (f := fexp Double.prec Double.emax
              (Zdigits2 (Z.pos mx) + ex - (Zdigits2 (Z.pos my) + ey))).
  set (e' := Z.min f (ex - ey)).
  set (s := ex - ey - e').
  assert (Hs : 0 <= s) by (unfold s, e'; lia).
  assert (Hm' : match s with
                | 0 => Z.pos mx
                | Z.pos _ => Z.shiftl (Z.pos mx) s
                | Z.neg _ => 0
                end = Z.pos mx * 2 ^ s).
  { destruct s as [|p|p] eqn:E; [lia| |lia]. by rewrite Z.shiftl_mul_pow2. }
  rewrite Hm'. rewrite div_eucl_div_mod.
  exists (Z.pos mx * 2 ^ s / Z.pos my), e', s,
    (new_location (Z.pos my) ((Z.pos mx * 2 ^ s) mod Z.pos my)).
  split; [done|]. split; [done|]. split; [unfold s; lia|].
  split; [apply Z.div_pos; lia|]. split.
  - pose proof (placed_new_location (Z.pos mx * 2 ^ s / Z.pos my)
                  ((Z.pos mx * 2 ^ s) mod Z.pos my) (Z.pos my) ltac:(lia)
                  ltac:(apply Z.mod_pos_bound; lia)) as Hp.
    pose proof (Z.div_mod (Z.pos mx * 2 ^ s) (Z.pos my) ltac:(lia)) as Hdm.
    replace (Z.pos mx * 2 ^ s / Z.pos my * Z.pos my + (Z.pos mx * 2 ^ s) mod Z.pos my)
      with (Z.pos mx * 2 ^ s) in Hp by lia.
    done.
  - pose proof (Zdigits2_div (Z.pos mx) (Z.pos my) s ltac:(lia) ltac:(lia) Hs) as Hd.
    apply (Z.le_trans _ f); [unfold e'; lia|].
    unfold f. apply fexp_mono. unfold s in Hd |- *. lia.
Qed.

(** The order of two numbers of the format is the order of their values. *)
Lemma leb_value (mx my : positive) (ex ey t : Z) :
  bounded Double.prec Double.emax mx ex = true ->
  bounded Double.prec Double.emax my ey = true ->
  Double.leb (S754_finite false mx ex) (S754_finite false my ey) = true ->
  t <= ex -> t <= ey ->
  Z.pos mx * 2 ^ (ex - t) <= Z.pos my * 2 ^ (ey - t).
Proof.
  intros Hbx Hby Hle Htx Hty.
  destruct (bounded_inv mx ex Hbx) as (Hcx & _ & Hdx).
  destruct (bounded_inv my ey Hby) as (Hcy & _ & Hdy).
  unfold Double.leb, SFleb in Hle. simpl in Hle.
  destruct (Z.compare_spec ex ey) as [->|Hlt|Hgt]; [| |done].
  - change (Pos.compare_cont Eq mx my) with (Pos.compare mx my) in Hle.
    apply Z.mul_le_mono_nonneg_r; [lia|].
    destruct (Pos.compare_spec mx my); try done; lia.
  - assert (Hd : Zdigits2 (Z.pos mx) + ex < Zdigits2 (Z.pos my) + ey).
    { apply Z.nle_gt. intros Hge.
      pose proof (fexp_mono _ _ Hge). lia. }
    pose proof (Zdigits2_bound (Z.pos mx) ltac:(lia)) as Hux.
    pose proof (Zdigits2_lower (Z.pos my) ltac:(lia)) as Hly.
    assert (0 < Zdigits2 (Z.pos my)) by (simpl; lia).
    pose proof (Zdigits2_nonneg (Z.pos mx)).
    assert (H1 : Z.pos mx * 2 ^ (ex - t) <= 2 ^ Zdigits2 (Z.pos mx) * 2 ^ (ex - t))
      by (apply Z.mul_le_mono_nonneg_r; lia).
    assert (H2 : 2 ^ (Zdigits2 (Z.pos my) - 1) * 2 ^ (ey - t)
                 <= Z.pos my * 2 ^ (ey - t))
      by (apply Z.mul_le_mono_nonneg_r; lia).
    rewrite <- pow2_split in H1, H2 by lia.
    assert (2 ^ (Zdigits2 (Z.pos mx) + (ex - t))
            <= 2 ^ (Zdigits2 (Z.pos my) - 1 + (ey - t)))
      by (apply Z.pow_le_mono_r; lia).
    lia.
Qed.

Lemma one_eq : Double.of_int 1 = S754_finite false (2 ^ 52)%positive (-52).
Proof. reflexivity. Qed.

Lemma hundred_eq : Double.of_int 100 = S754_finite false (25 * 2 ^ 48)%positive (-46).
Proof. reflexivity. Qed.

Lemma bounded_one : bounded Double.prec Double.emax (2 ^ 52)%positive (-52) = true.
Proof. reflexivity. Qed.

(** A mantissa of the format has 53 digits, or the least exponent. *)
Lemma bounded_digits (m : positive) (e : Z) :
  bounded Double.prec Double.emax m e = true ->
  (Zdigits2 (Z.pos m) = 53 \/ e = -1074) /\ -1074 <= e.
Proof.
  intros Hb. destruct (bounded_inv m e Hb) as (Hc & _ & Hd).
  rewrite fexp_double in Hc. lia.
Qed.

Lemma binary_round_aux_valid (mx ex : Z) (lx : location) (Y D : Z) :
  0 <= mx -> 0 < D -> placed (shr_record_of_loc mx lx) Y D ->
  ex <= fexp Double.prec Double.emax (Zdigits2 mx + ex) ->
  valid_binary Double.prec Double.emax
    (binary_round_aux Double.prec Double.emax false mx ex lx) = true.
Proof.
  intros Hmx HD Hp Hdig.
  destruct (binary_round_aux_spec mx ex lx Y D Hmx HD Hp Hdig)
    as (m2 & _ & _ & _ & _ & Hres).
  destruct (binary_round_aux Double.prec Double.emax false mx ex lx)
    as [[|]|[|]| |[|] m3 e3]; try done. by destruct Hres.
Qed.

Lemma placed_exact (m : Z) : placed (shr_record_of_loc m loc_Exact) m 1.
Proof. unfold placed. simpl. lia. Qed.

Lemma binary_round_valid (ms : positive) (es : Z) :
  valid_binary Double.prec Double.emax
    (binary_round Double.prec Double.emax false ms es) = true.
Proof.
  destruct (binary_round_aligned ms es) as (mz & ez & -> & _ & _ & Hdig).
  by apply (binary_round_aux_valid _ _ _ (Z.pos mz) 1); [lia|lia|apply placed_exact|].
Qed.

(** A percentage from 0 to 100, divided by 100, is between 0 and 1. *)
Lemma div_100_unit (pct : double) :
  valid_binary Double.prec Double.emax pct = true -> in_range pct = true ->
  unit_fraction (Double.div pct (Double.of_int 100)).
Proof.
  intros Hv [H0 H100]%andb_true_iff. rewrite hundred_eq in *.
  destruct pct as [s|[|]| |[|] mx ex]; try done.
  simpl in Hv. unfold Double.div, SFdiv. simpl xorb.
  destruct (SFdiv_core_spec mx (25 * 2 ^ 48) ex (-46))
    as (q & e' & s & l & -> & Hs & He' & Hq & Hp & Hdig).
  split; [|split].
  - by apply (binary_round_aux_valid q e' l _ _ Hq (Pos2Z.is_pos _) Hp).
  - by apply binary_round_aux_sign.
  - rewrite one_eq.
    apply (round_le q e' l _ _ (2 ^ 52) (-52) (Z.min e' (-52)) Hq (Pos2Z.is_pos _)
             Hp Hdig bounded_one ltac:(lia) ltac:(lia)).
    set (t := Z.min e' (-52)).
    pose proof (leb_value mx (25 * 2 ^ 48) ex (-46) (t + -46) Hv eq_refl H100
                  ltac:(unfold t; lia) ltac:(unfold t; lia)) as Hval.
    replace (-46 - (t + -46)) with (- t) in Hval by lia.
    rewrite <- Z.mul_assoc, <- pow2_split by (unfold t; lia).
    replace (s + (e' - t)) with (ex - (t + -46)) by lia.
    change (Z.pos (2 ^ 52)) with (2 ^ 52).
    rewrite <- pow2_split by (unfold t; lia).
    replace (52 + (-52 - t)) with (- t) by lia. lia.
Qed.

(** One minus a number between 0 and 1 is between 0 and 1. *)
Lemma sub_unit (q : double) :
  unit_fraction q -> unit_fraction (Double.sub (Double.of_int 1) q).
Proof.
  intros (Hv & Hpos%non_negative_cases & Hle). rewrite one_eq in *.
  destruct q as [s|[|]| |[|] mq eq]; try done.
  simpl in Hv. unfold Double.sub, SFsub. unfold cond_Zopp.
  set (ez := Z.min (-52) eq).
  destruct (shl_align_spec (2 ^ 52) (-52) ez) as [_ Ha].
  destruct (shl_align_spec mq eq ez) as [_ Hb].
  replace (Z.min (-52) ez) with ez in Ha by (unfold ez; lia).
  replace (Z.min eq ez) with ez in Hb by (unfold ez; lia).
  set (a := fst (shl_align (2 ^ 52) (-52) ez)) in *.
  set (b := fst (shl_align mq eq ez)) in *.
  pose proof (leb_value mq (2 ^ 52) eq (-52) ez Hv bounded_one Hle
                ltac:(unfold ez; lia) ltac:(unfold ez; lia)) as Hval.
  rewrite <- Ha, <- Hb in Hval.
  unfold binary_normalize.
  destruct (Z.pos a - Z.pos b) as [|d|d] eqn:Ed; [done| |lia].
  split; [apply binary_round_valid|]. split; [apply binary_round_sign|].
  destruct (binary_round_aligned d ez) as (mz & ez' & -> & Hez & Hmz & Hdig).
  apply (round_le (Z.pos mz) ez' loc_Exact (Z.pos mz) 1 (2 ^ 52) (-52) ez'
           ltac:(lia) ltac:(lia) (placed_exact _) Hdig bounded_one ltac:(lia)
           ltac:(unfold ez in *; lia)).
  rewrite Z.sub_diag, !Z.mul_1_r, Hmz.
  rewrite (rescale (Z.pos (2 ^ 52)) (-52) ez' ez) by (unfold ez in *; lia).
  apply Z.mul_le_mono_nonneg_r; [lia|]. rewrite <- Ha. lia.
Qed.

(** A price times a number between 0 and 1 is between 0 and the price. *)
Lemma mul_unit_le (p f : double) :
  valid_number p -> unit_fraction f ->
  non_negative (Double.mul p f) /\ Double.leb (Double.mul p f) p = true.
Proof.
  intros (Hvp & Hfp & Hpp%non_negative_cases) (Hvf & Hpf%non_negative_cases & Hlf).
  rewrite one_eq in Hlf.
  destruct p as [sp|[|]| |[|] mp ep], f as [sf|[|]| |[|] mf ef]; try done.
  simpl in Hvp, Hvf. unfold Double.mul, SFmul. simpl xorb.
  destruct (bounded_digits mp ep Hvp) as [Hdp Hep].
  destruct (bounded_digits mf ef Hvf) as [Hdf Hef].
  pose proof (Zdigits2_mul (Z.pos mp) (Z.pos mf) ltac:(lia) ltac:(lia)) as Hdm.
  assert (0 < Zdigits2 (Z.pos mp)) by (simpl; lia).
  assert (0 < Zdigits2 (Z.pos mf)) by (simpl; lia).
  change (Z.pos (mp * mf)) with (Z.pos mp * Z.pos mf).
  split; [apply binary_round_aux_sign; lia|].
  set (t := Z.min ef (-52)).
  apply (round_le (Z.pos mp * Z.pos mf) (ep + ef) loc_Exact (Z.pos mp * Z.pos mf) 1
           mp ep (t + ep) ltac:(lia) ltac:(lia) (placed_exact _)).
  - rewrite fexp_double. lia.
  - done.
  - unfold t. lia.
  - unfold t. lia.
  - pose proof (leb_value mf (2 ^ 52) ef (-52) t Hvf bounded_one Hlf
                  ltac:(unfold t; lia) ltac:(unfold t; lia)) as Hval.
    change (Z.pos (2 ^ 52)) with (2 ^ 52) in Hval.
    rewrite <- pow2_split in Hval by (unfold t; lia).
    replace (52 + (-52 - t)) with (- t) in Hval by lia.
    replace (ep + ef - (t + ep)) with (ef - t) by lia.
    replace (ep - (t + ep)) with (- t) by lia.
    rewrite !Z.mul_1_r, <- Z.mul_assoc.
    apply Z.mul_le_mono_nonneg_l; [lia|done].
Qed.

Lemma add_valid (x y : double) :
  valid_binary Double.prec Double.emax x = true ->
  valid_binary Double.prec Double.emax y = true ->
  non_negative x -> non_negative y ->
  valid_binary Double.prec Double.emax (Double.add x y) = true.
Proof.
  intros Hvx Hvy Hx%non_negative_cases Hy%non_negative_cases.
  destruct x as [sx|[|]| |[|] mx ex], y as [sy|[|]| |[|] my ey]; try done.
  - by destruct sx, sy.
  - unfold Double.add, SFadd, cond_Zopp.
    change (Z.pos (fst (shl_align mx ex (Z.min ex ey)))
            + Z.pos (fst (shl_align my ey (Z.min ex ey))))
      with (Z.pos (fst (shl_align mx ex (Z.min ex ey))
                   + fst (shl_align my ey (Z.min ex ey)))).
    apply binary_round_valid.
Qed.

Lemma non_negative_not_nan (x : double) : non_negative x -> Double.is_nan x = false.
Proof. intros H%non_negative_cases. by destruct x. Qed.

(** The percentage of a digital product, the given one plus 5 and at most
    50, is again a percentage from 0 to 100. *)
Lemma bonus_in_range (pct : double) :
  valid_binary Double.prec Double.emax pct = true -> in_range pct = true ->
  valid_binary Double.prec Double.emax
    (Double.min (Double.add pct (Double.of_int 5)) (Double.of_int 50)) = true
  /\ in_range (Double.min (Double.add pct (Double.of_int 5)) (Double.of_int 50)) = true.
Proof.
  intros Hv [H0 H100]%andb_true_iff.
  assert (Hpos : non_negative (Double.add pct (Double.of_int 5)))
    by (apply add_non_negative; [done|by vm_compute]).
  assert (Hval : valid_binary Double.prec Double.emax
                   (Double.add pct (Double.of_int 5)) = true)
    by (apply add_valid; [done|by vm_compute|done|by vm_compute]).
  pose proof (non_negative_not_nan _ Hpos) as Hnan.
  set (a := Double.add pct (Double.of_int 5)) in *.
  unfold Double.min. destruct (Double.ltb (Double.of_int 50) a) eqn:E.
  - split; by vm_compute.
  - split; [done|]. unfold in_range. apply andb_true_iff. split; [done|].
    pose proof (double_not_ltb_trans a (Double.of_int 50) (Double.of_int 100)
                  Hnan eq_refl eq_refl E eq_refl) as Hlt.
    rewrite (ltb_negb_leb (Double.of_int 100) a eq_refl Hnan) in Hlt.
    by apply negb_false_iff in Hlt.
Qed.

(** X19. For a percentage from 0 to 100 and a valid price, the
    discounted price is a number that is not negative and is not above the
    price: for the physical products and, with the bonus, for the digital
    ones. *)
Theorem discount_bounds (o : Product) (pct : double) :
  valid_number (getPrice o) ->
  valid_binary Double.prec Double.emax pct = true -> in_range pct = true ->
  non_negative (applyDiscount o pct)
  /\ Double.leb (applyDiscount o pct) (getPrice o) = true.
Proof.
  intros Hprice Hv Hin. pose proof (in_range_not_out pct Hin) as Hout.
  unfold out_of_range in Hout.
  destruct o as [p|d]; unfold applyDiscount, getPrice in *; simpl base in *.
  - unfold ProductBase.applyDiscount. rewrite Hout.
    apply mul_unit_le; [done|]. apply sub_unit. by apply div_100_unit.
  - unfold DigitalProduct.applyDiscount. rewrite Hout. cbv zeta.
    destruct (bonus_in_range pct Hv Hin) as [Hvb Hinb].
    apply mul_unit_le; [done|]. apply sub_unit. by apply div_100_unit.
Qed.

(** The widget of price 9.99 at 15 per cent, as a physical product. *)
Lemma discount_bounds_witness :
  non_negative (applyDiscount (Physical Examples.widget) (Double.of_int 15))
  /\ Double.leb (applyDiscount (Physical Examples.widget) (Double.of_int 15))
       (getPrice (Physical Examples.widget)) = true.
Proof.
  apply (discount_bounds (Physical Examples.widget) (Double.of_int 15));
    by vm_compute.
Defined.

(** ** The format of a line *)

Lemma field_count_app (s t : string) :
  (field_count (s ++ t) + 1 = field_count s + field_count t)%nat.
Proof.
  induction s as [|c s IH]; [rewrite string_app_nil_l; simpl; lia|].
  rewrite string_app_cons. simpl. destruct (Ascii.eqb c comma); lia.
Qed.

Lemma field_count_one (s : string) :
  contains comma s = false -> field_count s = 1%nat.
Proof.
  induction s as [|c s IH]; [done|]. simpl.
  intros [Hc Hs]%orb_false_iff. rewrite Hc. by apply IH.
Qed.

Lemma field_count_sep (s t : string) :
  contains comma s = false ->
  field_count (s ++ String comma t) = S (field_count t).
Proof.
  intros Hs. pose proof (field_count_app s (String comma t)) as H.
  rewrite (field_count_one s Hs) in H. simpl in H. lia.
Qed.

Lemma dec_no_comma (n : Z) : 0 <= n -> contains comma (dec n) = false.
Proof.
  intros Hn. destruct (dec_spec n Hn) as (_ & _ & _ & Hall & _).
  by apply all_digits_contains.
Qed.

Lemma to_string_int_no_comma (z : Z) : contains comma (to_string_int z) = false.
Proof.
  unfold to_string_int. destruct (Z.ltb_spec z 0); simpl.
  - apply dec_no_comma. lia.
  - by apply dec_no_comma.
Qed.

Lemma fixed6_no_comma (s : bool) (n : Z) :
  0 <= n -> contains comma (fixed6 s n) = false.
Proof.
  intros Hn. unfold fixed6. rewrite !contains_app.
  destruct (dec_fixed_spec 6 (n mod 1000000) "" ltac:(apply Z.mod_pos_bound; lia))
    as (ds & -> & _ & Hall & _).
  rewrite string_app_nil_r. simpl.
  rewrite (dec_no_comma _ (Z.div_pos n 1000000 Hn ltac:(lia))).
  rewrite (all_digits_contains comma ds eq_refl Hall). by destruct s.
Qed.

Lemma to_string_double_no_comma (x : double) :
  contains comma (to_string_double x) = false.
Proof.
  destruct x as [s|[|]| |s m e]; simpl; try done.
  - by apply fixed6_no_comma.
  - apply fixed6_no_comma, micro_units_nonneg.
Qed.

(** X20. The line [toCSV] writes for a record whose text fields contain
    no comma has exactly eight comma-separated fields for a physical
    product and nine for a digital one, whatever its numbers are, and it
    begins with the type tag; when the text fields contain no line feed
    either, the line contains none. *)
Theorem toCSV_format (o : Product) :
  Forall (fun t => contains comma t = false) (text_fields o) ->
  field_count (toCSV o)
  = match o with Physical _ => 8%nat | Digital _ => 9%nat end
  /\ type_tag (toCSV o) = getType o
  /\ (storable o -> contains newline (toCSV o) = false).
Proof.
  intros Htext. split; [|split; [apply type_tag_toCSV | apply toCSV_no_newline]].
  destruct o as [p|d]; simpl in Htext; unfold toCSV.
  - apply Forall_cons in Htext as [H1 Htext]. apply Forall_cons in Htext as [H2 Htext].
    apply Forall_cons in Htext as [H3 Htext]. apply Forall_cons in Htext as [H4 _].
    rewrite PhysicalProduct_toCSV_fields.
    rewrite !field_count_sep;
      auto using to_string_double_no_comma, to_string_int_no_comma.
    by rewrite (field_count_one _ H4).
  - apply Forall_cons in Htext as [H1 Htext]. apply Forall_cons in Htext as [H2 Htext].
    apply Forall_cons in Htext as [H3 Htext]. apply Forall_cons in Htext as [H4 Htext].
    apply Forall_cons in Htext as [H5 _].
    rewrite DigitalProduct_toCSV_fields.
    rewrite !field_count_sep;
      auto using to_string_double_no_comma, to_string_int_no_comma.
    by rewrite (field_count_one _ H5).
Qed.

(** The lines of the example widget and of the example e-book. *)
Lemma toCSV_format_witness :
  field_count (toCSV (Physical Examples.widget)) = 8%nat
  /\ field_count (toCSV (Digital Examples.ebook)) = 9%nat.
Proof.
  split.
  - apply (toCSV_format (Physical Examples.widget)).
    repeat (apply Forall_cons; split; [reflexivity|]). by apply Forall_nil.
  - apply (toCSV_format (Digital Examples.ebook)).
    repeat (apply Forall_cons; split; [reflexivity|]). by apply Forall_nil.
Defined.
